(** * Unified Security Scanner: the aggregation pipeline

    A shallow embedding of the TypeScript sources of
    [packages/core/src]: the finding model ([types.ts]), the scan
    orchestrator ([orchestrator/scanner.ts]), the rule-based false
    positive engine ([fp-reducer/rule-engine.ts]), the SARIF reporter
    and the JSON reporter ([reporters/sarif.ts]); then the SARIF merging
    script (the class
    [SARIFProcessor], in the second part of [orchestrator/scanner.ts]) and
    the fail condition of the scan command.

    Conventions of the embedding.
    - A JavaScript string is a [string] (its UTF-8 bytes); every literal the
      sources search for is ASCII, so substring search, splitting on a line
      feed and ASCII case folding agree with the UTF-16 operations.
    - A JavaScript number that holds a line or a column is a [Z]; a
      confidence is a [Q]: every finite double is a rational, the code only
      compares confidences, and a double is at least the double written
      [0.9] exactly when it is at least 9/10 (no double lies between them).
    - An insertion-ordered [Map<string, V>] is an association list in
      insertion order; a [Record<Enum, number>] object is a [gmap].
    - A promise is the way it settles. The tasks of a scan settle in an
      order that is a parameter of the run; the identifier and the clock
      readings of a run come from a [Host].
    - [micromatch] and the file system are parameters of the engine.
    - A method of [SARIFProcessor] that reads a SARIF file takes what
      [JSON.parse] makes of it, a report of the declared interface, or
      nothing when the file cannot be read or parsed.
    - Case mapping and [trim] are those of JavaScript on ASCII strings;
      the statements that depend on them are about ASCII strings.
    - [JSON.stringify] and [JSON.parse], which the JSON reporter and its
      readers call, are built-ins of the runtime: they are modelled from
      ECMA-262, with a number written as a literal. What [Number::toString]
      writes for a number that is not an integer is a parameter. *)

From Stdlib Require Import Ascii QArith.
From stdpp Require Import finite gmap strings list fin_maps pretty.

Local Open Scope string_scope.
Local Open Scope Z_scope.
Local Open Scope list_scope.

(** ** JavaScript primitives used by the sources *)

Module Js.

(** The line feed, and the quotation marks the patterns mention. *)
Definition LF : ascii := "010"%char.
Definition CR : ascii := "013"%char.
Definition DQUOTE : ascii := "034"%char.
Definition SQUOTE : ascii := "039"%char.
Definition BACKTICK : ascii := "096"%char.

Definition nl : string := String LF "".

(** [s.includes(needle)] *)
Fixpoint includes (needle s : string) : bool :=
  String.prefix needle s ||
  match s with
  | "" => false
  | String _ s' => includes needle s'
  end.

(** [s.split(sep)] for a one-character separator: never empty, a
    trailing separator yields a trailing empty string. *)
Fixpoint split (sep : ascii) (s : string) : list string :=
  match s with
  | "" => [""]
  | String c s' =>
      if Ascii.eqb c sep then "" :: split sep s'
      else match split sep s' with
           | w :: ws => String c w :: ws
           | [] => [String c ""]
           end
  end.

(** [a.join(sep)] on an array of strings. *)
Definition join (sep : string) (a : list string) : string :=
  String.concat sep a.

(** [a[i]] for a number [i] holding an integer: [undefined] (here
    [None]) outside [0 .. a.length - 1]. *)
Definition index {A} (a : list A) (i : Z) : option A :=
  if i <? 0 then None else a !! Z.to_nat i.

(** [a.slice(start, end)]: a negative bound counts from the end, and
    both bounds are clamped to [0 .. a.length]. *)
Definition relative (len i : Z) : Z :=
  if i <? 0 then Z.max (len + i) 0 else Z.min i len.

Definition slice {A} (a : list A) (start stop : Z) : list A :=
  let len := Z.of_nat (length a) in
  let k := relative len start in
  let final := relative len stop in
  take (Z.to_nat (Z.max (final - k) 0)) (drop (Z.to_nat k) a).

(** Truthiness of a string, and of a [string | null]. *)
Definition truthy (s : string) : bool := negb (String.eqb s "").

Definition truthy_opt (o : option string) : bool :=
  match o with
  | Some s => truthy s
  | None => false
  end.

(** [a > b] on numbers that are not NaN. *)
Definition gt (a b : Q) : bool := negb (Qle_bool a b).

(** [a >= b] on numbers that are not NaN. *)
Definition ge (a b : Q) : bool := Qle_bool b a.

(** [c.toUpperCase()] and [c.toLowerCase()] on an ASCII character. *)
Definition upper (c : ascii) : ascii :=
  let n := nat_of_ascii c in
  if (97 <=? n)%nat && (n <=? 122)%nat then ascii_of_nat (n - 32) else c.

Definition lower (c : ascii) : ascii :=
  let n := nat_of_ascii c in
  if (65 <=? n)%nat && (n <=? 90)%nat then ascii_of_nat (n + 32) else c.

(** An insertion-ordered [Map<string, V>]: [set] on a present key keeps
    the key's position, [set] on a new key appends. *)
Definition Map (V : Type) : Type := list (string * V).

Fixpoint has {V} (m : Map V) (k : string) : bool :=
  match m with
  | [] => false
  | (k', _) :: m' => String.eqb k' k || has m' k
  end.

Fixpoint get {V} (m : Map V) (k : string) : option V :=
  match m with
  | [] => None
  | (k', v) :: m' => if String.eqb k' k then Some v else get m' k
  end.

Fixpoint set {V} (m : Map V) (k : string) (v : V) : Map V :=
  match m with
  | [] => [(k, v)]
  | (k', v') :: m' =>
      if String.eqb k' k then (k', v) :: m' else (k', v') :: set m' k v
  end.

Definition keys {V} (m : Map V) : list string := m.*1.

Definition values {V} (m : Map V) : list V := m.*2.

End Js.

(** ** The finding model ([types.ts]) *)

Inductive Severity := CRITICAL | HIGH | MEDIUM | LOW | INFO.

Inductive Category := secrets | injection | auth | crypto | dependency | other.

(** The sources [calculateStats] initialises: its [Record<ScanSource, number>]
    literal lists five keys, the four of [types.ts] and [custom-secrets],
    which the hardcoded secrets analyzer emits. *)
Inductive ScanSource :=
  truffleHog | semgrep | custom_npm | custom_react | custom_secrets.

Inductive Effort := low | medium | high.

Record Remediation := {
  summary : string;
  code : option string;
  references : list string;
  effort : Effort;
}.

Record Finding := {
  id : string;
  ruleId : string;
  source : ScanSource;
  severity : Severity;
  category : Category;
  cwe : option string;
  owasp : option string;
  file : string;
  line : Z;
  column : option Z;
  endLine : option Z;
  endColumn : option Z;
  title : string;
  description : string;
  snippet : string;
  remediation : Remediation;
  confidence : Q;
  falsePositiveProbability : option Q;
  suppressedBy : option string;
  detectedAt : string;
  firstSeenAt : option string;
}.

(** ** Deduplication ([ScanOrchestrator.deduplicateFindings]) *)

(** The template literal [`${finding.file}:${finding.line}:${finding.ruleId}`]. *)
Definition dedupKey (finding : Finding) : string :=
  file finding +:+ ":" +:+ pretty (line finding) +:+ ":" +:+ ruleId finding.

(** One iteration of the [for (const finding of findings)] loop. *)
Definition dedupStep (seen : Js.Map Finding) (finding : Finding) : Js.Map Finding :=
  let key := dedupKey finding in
  if negb (Js.has seen key) then Js.set seen key finding
  else
    match Js.get seen key with
    | Some existing =>
        if Js.gt (confidence finding) (confidence existing)
        then Js.set seen key finding
        else seen
    | None => seen
    end.

Definition deduplicateFindings (findings : list Finding) : list Finding :=
  Js.values (foldl dedupStep [] findings).

(** ** Statistics ([ScanOrchestrator.calculateStats]) *)

Global Instance Severity_eq_dec : EqDecision Severity.
Proof. solve_decision. Defined.

Global Instance Category_eq_dec : EqDecision Category.
Proof. solve_decision. Defined.

Global Instance ScanSource_eq_dec : EqDecision ScanSource.
Proof. solve_decision. Defined.

Definition allSeverities : list Severity := [CRITICAL; HIGH; MEDIUM; LOW; INFO].

Definition allCategories : list Category :=
  [secrets; injection; auth; crypto; dependency; other].

Definition allSources : list ScanSource :=
  [truffleHog; semgrep; custom_npm; custom_react; custom_secrets].

Global Program Instance Severity_finite : Finite Severity :=
  {| enum := allSeverities |}.
Next Obligation. by compute_done. Qed.
Next Obligation. by intros []; compute_done. Qed.

Global Program Instance Category_finite : Finite Category :=
  {| enum := allCategories |}.
Next Obligation. by compute_done. Qed.
Next Obligation. by intros []; compute_done. Qed.

Global Program Instance ScanSource_finite : Finite ScanSource :=
  {| enum := allSources |}.
Next Obligation. by compute_done. Qed.
Next Obligation. by intros []; compute_done. Qed.

Module Stats.

Record t := {
  total : nat;
  bySeverity : gmap Severity nat;
  byCategory : gmap Category nat;
  bySource : gmap ScanSource nat;
  suppressedCount : nat;
}.

(** The object literal [{ K1: 0, ..., Kn: 0 }]. *)
Definition zeros `{Countable K} (ks : list K) : gmap K nat :=
  list_to_map ((λ k, (k, 0%nat)) <$> ks).

(** [buckets[k]++]. Every key the loop reads is one the literal
    initialised, so the read never yields [undefined]. *)
Definition incr `{Countable K} (k : K) (buckets : gmap K nat) : gmap K nat :=
  alter S k buckets.

(** [Object.values(buckets)] summed. *)
Definition sum `{Countable K} (buckets : gmap K nat) : nat :=
  map_fold (λ _ n acc, (n + acc)%nat) 0%nat buckets.

End Stats.

(** The three bucket objects during the [for (const finding of findings)]
    loop of [calculateStats]. *)
Definition Buckets : Type :=
  gmap Severity nat * gmap Category nat * gmap ScanSource nat.

Definition statsStep (b : Buckets) (finding : Finding) : Buckets :=
  let '(bySeverity, byCategory, bySource) := b in
  (Stats.incr (severity finding) bySeverity,
   Stats.incr (category finding) byCategory,
   Stats.incr (source finding) bySource).

Definition calculateStats (findings : list Finding) : Stats.t :=
  let '(bySeverity, byCategory, bySource) :=
    foldl statsStep
      (Stats.zeros allSeverities, Stats.zeros allCategories, Stats.zeros allSources)
      findings in
  {| Stats.total := length findings;
     Stats.bySeverity := bySeverity;
     Stats.byCategory := byCategory;
     Stats.bySource := bySource;
     Stats.suppressedCount := 0 |}.

(** ** Regular expressions ([RegExp.prototype.test])

    The patterns of the sources use literals, character classes, [.],
    alternation, the quantifiers [?], [*], [+], [{n}], [{n,}], [{n,m}]
    and the end anchor [$]; none has the [g] or [y] flag, so [test] is
    stateless and asks whether some substring matches. Matching is by
    derivatives ([test_Matches] below relates it to what a pattern
    matches). The model is exact on ASCII subjects. *)

Module Regex.

Inductive t :=
  | Never
  | Eps
  | Chr (p : ascii → bool)
  | Cat (r1 r2 : t)
  | Alt (r1 r2 : t)
  | Star (r : t)
  | Eol.

Definition cat (r1 r2 : t) : t :=
  match r1, r2 with
  | Never, _ | _, Never => Never
  | Eps, r | r, Eps => r
  | _, _ => Cat r1 r2
  end.

Definition alt (r1 r2 : t) : t :=
  match r1, r2 with
  | Never, r | r, Never => r
  | _, _ => Alt r1 r2
  end.

(** Does [r] match the empty string, at the end of the subject or not? *)
Fixpoint nullable (atEnd : bool) (r : t) : bool :=
  match r with
  | Never => false
  | Eps => true
  | Chr _ => false
  | Cat r1 r2 => if nullable atEnd r1 then nullable atEnd r2 else false
  | Alt r1 r2 => if nullable atEnd r1 then true else nullable atEnd r2
  | Star _ => true
  | Eol => atEnd
  end.

(** What is left of [r] once it has read [c]. *)
Fixpoint deriv (c : ascii) (r : t) : t :=
  match r with
  | Never | Eps | Eol => Never
  | Chr p => if p c then Eps else Never
  | Cat r1 r2 =>
      alt (cat (deriv c r1) r2)
          (if nullable false r1 then deriv c r2 else Never)
  | Alt r1 r2 => alt (deriv c r1) (deriv c r2)
  | Star r1 => cat (deriv c r1) (Star r1)
  end.

(** Does [r] match a prefix of [s]? *)
Fixpoint matchesPrefix (s : string) (r : t) : bool :=
  match r with
  | Never => false
  | _ =>
      match s with
      | "" => nullable true r
      | String c s' =>
          if nullable false r then true else matchesPrefix s' (deriv c r)
      end
  end.

(** [r.test(s)]: does [r] match a substring of [s]? *)
Fixpoint test (r : t) (s : string) : bool :=
  if matchesPrefix s r then true
  else match s with
       | "" => false
       | String _ s' => test r s'
       end.

(** *** Pattern syntax *)

Definition chr (c : ascii) : t := Chr (Ascii.eqb c).

(** A literal character under the [i] flag. *)
Definition ichr (c : ascii) : t :=
  Chr (λ d, Ascii.eqb (Js.lower d) (Js.lower c)).

(** [.]: any character but a line terminator. *)
Definition dot : t :=
  Chr (λ c, negb (Ascii.eqb c Js.LF || Ascii.eqb c Js.CR)).

Definition inRange (lo hi c : ascii) : bool :=
  (nat_of_ascii lo <=? nat_of_ascii c)%nat && (nat_of_ascii c <=? nat_of_ascii hi)%nat.

(** A class [[...]] given by its members, and its negation [[^...]]. *)
Definition cls (members : list (ascii → bool)) : t :=
  Chr (λ c, existsb (λ m, m c) members).

Definition ncls (members : list (ascii → bool)) : t :=
  Chr (λ c, negb (existsb (λ m, m c) members)).

Fixpoint lit (s : string) : t :=
  match s with
  | "" => Eps
  | String c s' => cat (chr c) (lit s')
  end.

Fixpoint ilit (s : string) : t :=
  match s with
  | "" => Eps
  | String c s' => cat (ichr c) (ilit s')
  end.

Definition seq (rs : list t) : t := foldr cat Eps rs.

Definition alts (rs : list t) : t := foldr alt Never rs.

Definition opt (r : t) : t := Alt r Eps.

Definition plus (r : t) : t := Cat r (Star r).

(** [r{n}], [r{n,}] and [r{n,m}] written [rep n r], [atLeast n r] and
    [between n (m - n) r]. *)
Fixpoint rep (n : nat) (r : t) : t :=
  match n with
  | O => Eps
  | S n' => cat r (rep n' r)
  end.

Definition atLeast (n : nat) (r : t) : t := cat (rep n r) (Star r).

Fixpoint upTo (n : nat) (r : t) : t :=
  match n with
  | O => Eps
  | S n' => opt (cat r (upTo n' r))
  end.

Definition between (n extra : nat) (r : t) : t := cat (rep n r) (upTo extra r).

End Regex.

(** ** Configuration ([ScanConfig])

    The fields the pipeline reads. The configuration is validated by the
    caller: a custom pattern holds a compiled regular expression (the
    [new RegExp(pattern.pattern)] of the engine), and the number of
    workers is a natural number. *)

Module ScanConfig.

Record Pattern := {
  file : string;
  pattern : Regex.t;
  reason : string;
}.

Record FalsePositives := {
  patterns : list Pattern;
  excludeTestFiles : bool;
}.

Record Scan := {
  target : string;
}.

Record Performance := {
  parallelWorkers : nat;
  incrementalScan : bool;
}.

Record t := {
  scan : Scan;
  falsePositives : FalsePositives;
  performance : Performance;
}.

End ScanConfig.

(** ** The false positive engine ([fp-reducer/rule-engine.ts]) *)

Definition DEFAULT_EXCLUSIONS : list string := [
  "**/*.test.{ts,tsx,js,jsx}";
  "**/*.spec.{ts,tsx,js,jsx}";
  "**/__tests__/**";
  "**/__mocks__/**";
  "**/fixtures/**";
  "**/examples/**";
  "**/demo/**";
  "**/*.stories.{ts,tsx,js,jsx}";
  "**/*.md";
  "**/*.mdx";
  "**/docs/**";
  "**/.storybook/**";
  "**/README*";
  "**/CHANGELOG*";
  "**/CONTRIBUTING*";
  "**/SECURITY*";
  "**/LICENSE*";
  "**/node_modules/**";
  "**/vendor/**";
  "**/dist/**";
  "**/build/**";
  "**/coverage/**";
  "**/reports/**";
  "**/yarn.lock";
  "**/package-lock.json";
  "**/pnpm-lock.yaml";
  "**/composer.lock";
  "**/*.example.{json,yml,yaml}";
  "**/*.sample.{json,yml,yaml}";
  "**/example.config.*";
  "**/.env.example";
  "**/.env.template";
  "**/rules/**/*.{yml,yaml}";
  "**/patterns/**/*.{yml,yaml}"
].

Definition TEST_PREFIXES : list string :=
  ["MOCK_"; "TEST_"; "EXAMPLE_"; "SAMPLE_"; "FIXTURE_"; "DEMO_";
   "PLACEHOLDER_"; "YOUR_"; "REPLACE_"].

Module Patterns.
Import Regex.

Definition only (c : ascii) : ascii → bool := Ascii.eqb c.

(** [/describe|it\(|test\(|expect\(|jest\.|vitest\.|mocha\.|beforeEach|afterEach|beforeAll|afterAll/i] *)
Definition TEST_KEYWORDS : t :=
  alts [ilit "describe"; ilit "it("; ilit "test("; ilit "expect(";
        ilit "jest."; ilit "vitest."; ilit "mocha."; ilit "beforeEach";
        ilit "afterEach"; ilit "beforeAll"; ilit "afterAll"].

(** [/commands?|cli|bin|scan|orchestrator|adapters?|analyzers?/] *)
Definition CLI_PATTERNS : t :=
  alts [cat (lit "command") (opt (lit "s")); lit "cli"; lit "bin";
        lit "scan"; lit "orchestrator"; cat (lit "adapter") (opt (lit "s"));
        cat (lit "analyzer") (opt (lit "s"))].

(** [/<[^>]+>|\[[^\]]+\]|\{\{[^}]+\}\}|example|sample|demo|placeholder|your_|replace_/i] *)
Definition DOC_MARKERS : t :=
  alts [seq [lit "<"; plus (ncls [only ">"]); lit ">"];
        seq [lit "["; plus (ncls [only "]"]); lit "]"];
        seq [lit "{{"; plus (ncls [only "}"]); lit "}}"];
        ilit "example"; ilit "sample"; ilit "demo"; ilit "placeholder";
        ilit "your_"; ilit "replace_"].

(** [/path\.(join|resolve|normalize)/] *)
Definition pathOp : t :=
  cat (lit "path.") (alts [lit "join"; lit "resolve"; lit "normalize"]).

(** [/validate|sanitize|normalize|resolve/] *)
Definition validation : t :=
  alts [lit "validate"; lit "sanitize"; lit "normalize"; lit "resolve"].

(** [/\.(md|rst|txt)$|docs?\//i] *)
Definition docFile : t :=
  alts [seq [lit "."; alts [ilit "md"; ilit "rst"; ilit "txt"]; Eol];
        seq [ilit "doc"; opt (ilit "s"); lit "/"]].

(** [/rules?\//i] *)
Definition rulesDir : t := seq [ilit "rule"; opt (ilit "s"); lit "/"].

(** [/\.(yml|yaml)$/] *)
Definition yamlFile : t := seq [lit "."; alts [lit "yml"; lit "yaml"]; Eol].

(** [/\/(yarn\.lock|package-lock\.json|pnpm-lock\.yaml|composer\.lock)$/] *)
Definition lockFile : t :=
  seq [lit "/";
       alts [lit "yarn.lock"; lit "package-lock.json"; lit "pnpm-lock.yaml";
             lit "composer.lock"];
       Eol].

Definition digit : ascii → bool := inRange "0" "9".
Definition hexLower : list (ascii → bool) := [inRange "a" "f"; digit].
Definition upperAlnum : list (ascii → bool) := [inRange "A" "Z"; digit].
Definition alnum : list (ascii → bool) := [inRange "a" "z"; inRange "A" "Z"; digit].
Definition quote : t := cls [only Js.SQUOTE; only Js.DQUOTE].

(** [/resolved.*\.tgz#[a-f0-9]{40}/] *)
Definition resolvedTgz : t :=
  seq [lit "resolved"; Star dot; lit ".tgz#"; rep 40 (cls hexLower)].

(** [/integrity.*sha[0-9]+-[A-Za-z0-9+/=]+/] *)
Definition integritySha : t :=
  seq [lit "integrity"; Star dot; lit "sha"; plus (cls [digit]); lit "-";
       plus (cls [inRange "A" "Z"; inRange "a" "z"; digit; only "+"; only "/"; only "="])].

(** [/"[a-f0-9]{40,64}"/] *)
Definition quotedHash : t :=
  seq [chr Js.DQUOTE; between 40 24 (cls hexLower); chr Js.DQUOTE].

(** [/algolia.*appId.*['"]([A-Z0-9]{10})['"].*apiKey.*['"]([a-f0-9]{32})['"]/] *)
Definition algoliaKeys : t :=
  seq [lit "algolia"; Star dot; lit "appId"; Star dot; quote;
       rep 10 (cls upperAlnum); quote; Star dot; lit "apiKey"; Star dot;
       quote; rep 32 (cls hexLower); quote].

(** [/ALGOLIA.*APP_ID.*API_KEY/] *)
Definition algoliaEnv : t :=
  seq [lit "ALGOLIA"; Star dot; lit "APP_ID"; Star dot; lit "API_KEY"].

(** [/google.*maps.*api.*key/i] *)
Definition googleMaps : t :=
  seq [ilit "google"; Star dot; ilit "maps"; Star dot; ilit "api"; Star dot;
       ilit "key"].

(** [/pk_[a-zA-Z0-9]{24,}/] *)
Definition stripePublishable : t := cat (lit "pk_") (atLeast 24 (cls alnum)).

(** [/firebase.*config.*apiKey/i] *)
Definition firebaseConfig : t :=
  seq [ilit "firebase"; Star dot; ilit "config"; Star dot; ilit "apiKey"].

(** [/public|client|frontend|browser|read.?only/i] *)
Definition publicMarkers : t :=
  alts [ilit "public"; ilit "client"; ilit "frontend"; ilit "browser";
        seq [ilit "read"; opt dot; ilit "only"]].

(** [/const.*config|export.*config|\{[^}]*appId[^}]*apiKey[^}]*\}/i] *)
Definition configStructure : t :=
  alts [seq [ilit "const"; Star dot; ilit "config"];
        seq [ilit "export"; Star dot; ilit "config"];
        seq [lit "{"; Star (ncls [only "}"]); ilit "appId"; Star (ncls [only "}"]);
             ilit "apiKey"; Star (ncls [only "}"]); lit "}"]].

(** [/config|constants|settings/i] *)
Definition publicFile : t := alts [ilit "config"; ilit "constants"; ilit "settings"].

(** [/search|query|index/i] *)
Definition searchUsage : t := alts [ilit "search"; ilit "query"; ilit "index"].

(** [/admin|write|delete|update/i] *)
Definition writeUsage : t := alts [ilit "admin"; ilit "write"; ilit "delete"; ilit "update"].

(** [/client|frontend|public/i] *)
Definition clientConfig : t := alts [ilit "client"; ilit "frontend"; ilit "public"].

(** [/appId.*['"]([A-Z0-9]{10})['"]/] *)
Definition appIdPattern : t :=
  seq [lit "appId"; Star dot; quote; rep 10 (cls upperAlnum); quote].

(** The [publicKeyPatterns] table of [isLegitimatePublicApiKey]. *)
Record KeyPattern := { keyPattern : t; readOnly : bool }.

Definition publicKeyPatterns : list KeyPattern :=
  [{| keyPattern := algoliaKeys; readOnly := true |};
   {| keyPattern := algoliaEnv; readOnly := true |};
   {| keyPattern := googleMaps; readOnly := false |};
   {| keyPattern := stripePublishable; readOnly := true |};
   {| keyPattern := firebaseConfig; readOnly := true |}].

End Patterns.

(** The result of [shouldSuppress]: [{ suppress, reason? }]. *)
Record Verdict := {
  suppress : bool;
  reason : option string;
}.

Definition suppressFor (why : string) : Verdict :=
  {| suppress := true; reason := Some why |}.

Definition keep : Verdict := {| suppress := false; reason := None |}.

(** [{ ...finding, suppressedBy: reason }] *)
Definition withSuppressedBy (finding : Finding) (why : option string) : Finding :=
  {| id := id finding;
     ruleId := ruleId finding;
     source := source finding;
     severity := severity finding;
     category := category finding;
     cwe := cwe finding;
     owasp := owasp finding;
     file := file finding;
     line := line finding;
     column := column finding;
     endLine := endLine finding;
     endColumn := endColumn finding;
     title := title finding;
     description := description finding;
     snippet := snippet finding;
     remediation := remediation finding;
     confidence := confidence finding;
     falsePositiveProbability := falsePositiveProbability finding;
     suppressedBy := why;
     detectedAt := detectedAt finding;
     firstSeenAt := firstSeenAt finding |}.

Module FalsePositiveRuleEngine.

(** The two private fields the constructor sets. *)
Record t := {
  exclusionPatterns : list string;
  customPatterns : list ScanConfig.Pattern;
}.

Definition new (config : ScanConfig.t) : t :=
  {| exclusionPatterns :=
       if ScanConfig.excludeTestFiles (ScanConfig.falsePositives config)
       then DEFAULT_EXCLUSIONS else [];
     customPatterns := ScanConfig.patterns (ScanConfig.falsePositives config) |}.

Definition hasTestPrefix (snippet : string) : bool :=
  existsb (λ prefix, Js.includes prefix snippet) TEST_PREFIXES.

Definition isTestContext (context : string) : bool :=
  Regex.test Patterns.TEST_KEYWORDS context.

(** [line?.includes(token)], as a condition. *)
Definition lineIncludes (ln : option string) (token : string) : bool :=
  match ln with
  | Some l => Js.includes token l
  | None => false
  end.

Definition hasNoSecComment (context : string) (lineNumber : Z) : bool :=
  let lines := Js.split Js.LF context in
  let relevantLine :=
    Js.index lines (Z.min (lineNumber - 1) (Z.of_nat (length lines) - 1)) in
  let prevLine := Js.index lines (Z.max 0 (lineNumber - 2)) in
  lineIncludes relevantLine "nosec" || lineIncludes relevantLine "noqa" ||
  lineIncludes prevLine "nosec" || lineIncludes prevLine "noqa".

Definition isCliPathTraversal (finding : Finding) : bool :=
  let isCliFile := Regex.test Patterns.CLI_PATTERNS (file finding) in
  let isPathOp := Regex.test Patterns.pathOp (snippet finding) in
  let hasValidation := Regex.test Patterns.validation (snippet finding) in
  isCliFile && isPathOp &&
  (hasValidation || Js.includes "path-traversal" (ruleId finding)).

Definition isDocumentationFalsePositive (finding : Finding) : bool :=
  let isDocFile := Regex.test Patterns.docFile (file finding) in
  let hasDocMarkers := Regex.test Patterns.DOC_MARKERS (snippet finding) in
  isDocFile && (hasDocMarkers || bool_decide (category finding = secrets)).

Definition isScannerRuleFalsePositive (finding : Finding) : bool :=
  let isRuleFile :=
    Regex.test Patterns.rulesDir (file finding) &&
    Regex.test Patterns.yamlFile (file finding) in
  let isSecretRule :=
    bool_decide (category finding = secrets) ||
    Js.includes "hardcoded" (ruleId finding) in
  isRuleFile && isSecretRule.

Definition isPackageManagerHash (finding : Finding) : bool :=
  let isLockFile := Regex.test Patterns.lockFile (file finding) in
  let isIntegrityHash :=
    Regex.test Patterns.resolvedTgz (snippet finding) ||
    Regex.test Patterns.integritySha (snippet finding) ||
    Regex.test Patterns.quotedHash (snippet finding) in
  isLockFile && isIntegrityHash && bool_decide (category finding = secrets).

Definition isAlgoliaSearchOnlyKey (_snippet context : string) : bool :=
  let hasSearchOnlyUsage :=
    Regex.test Patterns.searchUsage context &&
    negb (Regex.test Patterns.writeUsage context) in
  let isClientConfig := Regex.test Patterns.clientConfig context in
  let hasAppIdPattern := Regex.test Patterns.appIdPattern context in
  hasSearchOnlyUsage && (isClientConfig || hasAppIdPattern).

Definition isLegitimatePublicApiKey (finding : Finding) (context : option string) : bool :=
  match context with
  | Some ctx =>
      if negb (Js.truthy ctx) || negb (bool_decide (category finding = secrets))
      then false
      else
        existsb
          (λ kp,
             (Regex.test (Patterns.keyPattern kp) ctx ||
              Regex.test (Patterns.keyPattern kp) (snippet finding)) &&
             (let hasPublicMarkers := Regex.test Patterns.publicMarkers ctx in
              let hasConfigStructure := Regex.test Patterns.configStructure ctx in
              let isInPublicFile := Regex.test Patterns.publicFile (file finding) in
              Patterns.readOnly kp &&
              (hasPublicMarkers || hasConfigStructure || isInPublicFile ||
               isAlgoliaSearchOnlyKey (snippet finding) ctx)))
          Patterns.publicKeyPatterns
  | None => false
  end.

Section WithHost.

(** [micromatch.isMatch(str, glob)] for one glob. *)
Variable isMatch : string → string → bool.

(** [readFile(path, 'utf-8')]: [None] when the promise rejects. *)
Variable readFile : string → option string.

(** [micromatch.isMatch(file, this.exclusionPatterns)]: some glob of the
    array matches. *)
Definition matchesExclusionPattern (engine : t) (path : string) : bool :=
  existsb (isMatch path) (exclusionPatterns engine).

(** The [for (const pattern of this.customPatterns)] loop: the reason of
    the first rule whose glob matches the file and whose expression
    matches the snippet. *)
Fixpoint customRule (rules : list ScanConfig.Pattern) (finding : Finding)
    : option string :=
  match rules with
  | [] => None
  | rule :: rest =>
      if isMatch (file finding) (ScanConfig.file rule) &&
         Regex.test (ScanConfig.pattern rule) (snippet finding)
      then Some (ScanConfig.reason rule)
      else customRule rest finding
  end.

Definition getContext (finding : Finding) : option string :=
  match readFile (file finding) with
  | Some content =>
      let lines := Js.split Js.LF content in
      let startLine := Z.max 0 (line finding - 6) in
      let endLine := Z.min (Z.of_nat (length lines)) (line finding + 5) in
      Some (Js.join Js.nl (Js.slice lines startLine endLine))
  | None => None
  end.

(** The stages of [shouldSuppress], each an [if (...) return {...}]. *)
Definition shouldSuppress (engine : t) (finding : Finding) : Verdict :=
  if matchesExclusionPattern engine (file finding)
  then suppressFor "File matches exclusion pattern (test/docs/dependencies)"
  else
  match customRule (customPatterns engine) finding with
  | Some why => suppressFor why
  | None =>
  if hasTestPrefix (snippet finding)
  then suppressFor "Variable has test/mock prefix (MOCK_, TEST_, etc.)"
  else
  let context := getContext finding in
  if Js.truthy_opt context && isTestContext (default "" context)
  then suppressFor "Found in test context (describe/it/test/expect)"
  else
  if Js.truthy_opt context && hasNoSecComment (default "" context) (line finding)
  then suppressFor "Suppressed by nosec comment"
  else
  if isCliPathTraversal finding
  then suppressFor "CLI tool legitimate path operations"
  else
  if isDocumentationFalsePositive finding
  then suppressFor "Documentation with example credentials"
  else
  if isScannerRuleFalsePositive finding
  then suppressFor "Security scanner rule definitions"
  else
  if isPackageManagerHash finding
  then suppressFor "Package manager integrity hash"
  else
  if isLegitimatePublicApiKey finding context
  then suppressFor "Legitimate public/read-only API key"
  else keep
  end.

(** The two arrays [filterFindings] returns. *)
Record Filtered := {
  findings : list Finding;
  suppressed : list Finding;
}.

(** One iteration of the loop of [filterFindings]. *)
Definition filterStep (engine : t) (acc : Filtered) (finding : Finding) : Filtered :=
  let result := shouldSuppress engine finding in
  if suppress result
  then {| findings := findings acc;
          suppressed := suppressed acc ++ [withSuppressedBy finding (reason result)] |}
  else {| findings := findings acc ++ [finding];
          suppressed := suppressed acc |}.

Definition filterFindings (engine : t) (input : list Finding) : Filtered :=
  foldl (filterStep engine) {| findings := []; suppressed := [] |} input.

End WithHost.

End FalsePositiveRuleEngine.

(** ** The scan orchestrator ([orchestrator/scanner.ts]) *)

(** How a promise settles; a rejection carries the message the [catch]
    block records ([error.message], or [String(error)]). *)
Inductive Settled (A : Type) :=
| Resolved (value : A)
| Rejected (message : string).

Arguments Resolved {A} value.
Arguments Rejected {A} message.

Module ScannerAdapter.

Record t := {
  name : string;
  scan : ScanConfig.t → Settled (list Finding);
  isAvailable : Settled bool;
}.

End ScannerAdapter.

Module ToolRun.

(** An entry of [ScanResult['toolsRun']]. *)
Record t := {
  name : string;
  version : string;
  duration : Q;
  exitCode : Z;
  error : option string;
}.

End ToolRun.

Module ScanResult.

Record Performance := {
  parallelWorkers : nat;
  cacheHitRate : Q;
  incrementalScan : bool;
}.

Record t := {
  scanId : string;
  version : string;
  startedAt : string;
  completedAt : string;
  duration : Q;
  target : string;
  filesScanned : nat;
  linesOfCode : nat;
  toolsRun : list ToolRun.t;
  findings : list Finding;
  suppressed : list Finding;
  stats : Stats.t;
  performance : Performance;
}.

End ScanResult.

(** What a run reads from its surroundings: the identifier [randomUUID()]
    returns, the two timestamps, and the seconds the clock measures for the
    scan and for the task of each adapter (by its position in
    [this.adapters]). *)
Record Host := {
  randomUUID : string;
  startedAt : string;
  completedAt : string;
  elapsed : Q;
  toolElapsed : nat → Q;
}.

(** The calls a run makes on its adapters. *)
Inductive Call :=
| IsAvailableCalled (adapter : nat)
| ScanCalled (adapter : nat).

Global Instance Call_eq_dec : EqDecision Call.
Proof. solve_decision. Defined.

Module ScanOrchestrator.

(** The two arrays the tasks share, and the calls made so far. *)
Record State := {
  toolsRun : list ToolRun.t;
  allFindings : list Finding;
  calls : list Call;
}.

Definition initial : State :=
  {| toolsRun := []; allFindings := []; calls := [] |}.

Definition version : string := "1.0.0".

(** [pLimit(config.performance.parallelWorkers || 4)] *)
Definition limit (config : ScanConfig.t) : nat :=
  match ScanConfig.parallelWorkers (ScanConfig.performance config) with
  | O => 4
  | n => n
  end.

(** The body [limit(async () => { try { ... } catch (error) { ... } })] of
    the task of the adapter at position [i]. Its pushes follow its last
    [await] without suspension, so the task changes the shared arrays in
    one step, when it settles. *)
Definition runTask (host : Host) (config : ScanConfig.t) (st : State)
    (i : nat) (adapter : ScannerAdapter.t) : State :=
  let record duration exitCode error :=
    {| ToolRun.name := ScannerAdapter.name adapter;
       ToolRun.version := "unknown";
       ToolRun.duration := duration;
       ToolRun.exitCode := exitCode;
       ToolRun.error := error |} in
  match ScannerAdapter.isAvailable adapter with
  | Resolved false =>
      {| toolsRun := toolsRun st ++ [record 0%Q (-1) (Some "Tool not available")];
         allFindings := allFindings st;
         calls := calls st ++ [IsAvailableCalled i] |}
  | Resolved true =>
      match ScannerAdapter.scan adapter config with
      | Resolved findings =>
          {| toolsRun := toolsRun st ++ [record (toolElapsed host i) 0 None];
             allFindings := allFindings st ++ findings;
             calls := calls st ++ [IsAvailableCalled i; ScanCalled i] |}
      | Rejected message =>
          {| toolsRun := toolsRun st ++ [record (toolElapsed host i) 1 (Some message)];
             allFindings := allFindings st;
             calls := calls st ++ [IsAvailableCalled i; ScanCalled i] |}
      end
  | Rejected message =>
      {| toolsRun := toolsRun st ++ [record (toolElapsed host i) 1 (Some message)];
         allFindings := allFindings st;
         calls := calls st ++ [IsAvailableCalled i] |}
  end.

(** [await Promise.all(scanPromises)]: the tasks settle in some order,
    [order] listing the positions of the adapters as their tasks settle. *)
Definition runAll (host : Host) (config : ScanConfig.t)
    (adapters : list ScannerAdapter.t) (order : list nat) : State :=
  foldl (λ st i,
           match adapters !! i with
           | Some adapter => runTask host config st i adapter
           | None => st
           end)
        initial order.

Definition scan (host : Host) (adapters : list ScannerAdapter.t)
    (config : ScanConfig.t) (order : list nat) : ScanResult.t :=
  let st := runAll host config adapters order in
  let uniqueFindings := deduplicateFindings (allFindings st) in
  let stats := calculateStats uniqueFindings in
  {| ScanResult.scanId := randomUUID host;
     ScanResult.version := version;
     ScanResult.startedAt := startedAt host;
     ScanResult.completedAt := completedAt host;
     ScanResult.duration := elapsed host;
     ScanResult.target := ScanConfig.target (ScanConfig.scan config);
     ScanResult.filesScanned := 0;
     ScanResult.linesOfCode := 0;
     ScanResult.toolsRun := toolsRun st;
     ScanResult.findings := uniqueFindings;
     ScanResult.suppressed := [];
     ScanResult.stats := stats;
     ScanResult.performance :=
       {| ScanResult.parallelWorkers :=
            ScanConfig.parallelWorkers (ScanConfig.performance config);
          ScanResult.cacheHitRate := 0;
          ScanResult.incrementalScan :=
            ScanConfig.incrementalScan (ScanConfig.performance config) |} |}.

End ScanOrchestrator.

(** ** The SARIF reporter ([reporters/sarif.ts]) *)

Module Sarif.

(** [{ text: string }] *)
Record Text := { text : string }.

(** [help: { text, markdown }]; the field [text] is [helpText] here. *)
Record Help := {
  helpText : string;
  markdown : string;
}.

(** [properties: { tags, precision, 'security-severity' }] *)
Record Properties := {
  tags : list string;
  precision : string;
  securitySeverity : string;
}.

Record Rule := {
  id : string;
  name : string;
  shortDescription : Text;
  fullDescription : Text;
  help : Help;
  properties : Properties;
}.

Inductive Level := error | warning | note.

Record Region := {
  startLine : Z;
  startColumn : option Z;
  endLine : option Z;
  endColumn : option Z;
  snippet : Text;
}.

Record ArtifactLocation := { uri : string }.

Record PhysicalLocation := {
  artifactLocation : ArtifactLocation;
  region : Region;
}.

Record Location := { physicalLocation : PhysicalLocation }.

Record Result := {
  ruleId : string;
  level : Level;
  message : Text;
  locations : list Location;
}.

Record Driver := {
  driverName : string;
  driverVersion : string;
  informationUri : string;
  rules : list Rule;
}.

Record Tool := { driver : Driver }.

Record Run := {
  tool : Tool;
  results : list Result;
}.

Record Report := {
  version : string;
  schema : string;
  runs : list Run;
}.

End Sarif.

(** The string a [Category] is at run time. *)
Definition categoryName (c : Category) : string :=
  match c with
  | secrets => "secrets"
  | injection => "injection"
  | auth => "auth"
  | crypto => "crypto"
  | dependency => "dependency"
  | other => "other"
  end.

Module SarifReporter.

Definition mapLevel (s : Severity) : Sarif.Level :=
  match s with
  | CRITICAL => Sarif.error
  | HIGH => Sarif.error
  | MEDIUM => Sarif.warning
  | LOW => Sarif.warning
  | INFO => Sarif.note
  end.

Definition mapPrecision (confidence : Q) : string :=
  if Js.ge confidence (9 # 10) then "very-high"
  else if Js.ge confidence (3 # 4) then "high"
  else if Js.ge confidence (1 # 2) then "medium"
  else "low".

Definition mapSecuritySeverity (s : Severity) : string :=
  match s with
  | CRITICAL => "9.0"
  | HIGH => "7.0"
  | MEDIUM => "5.0"
  | LOW => "3.0"
  | INFO => "1.0"
  end.

(** [word.charAt(0).toUpperCase() + word.slice(1)] *)
Definition capitalize (word : string) : string :=
  match word with
  | "" => ""
  | String c rest => String (Js.upper c) rest
  end.

Definition toRuleName (ruleId : string) : string :=
  Js.join "" (capitalize <$> Js.split "-" ruleId).

Definition formatHelpMarkdown (finding : Finding) : string :=
  let markdown :=
    "## " +:+ title finding +:+ Js.nl +:+ Js.nl +:+
    description finding +:+ Js.nl +:+ Js.nl in
  let markdown :=
    match code (remediation finding) with
    | Some example =>
        if Js.truthy example
        then markdown +:+ "### Remediation" +:+ Js.nl +:+ Js.nl +:+ "```" +:+
             Js.nl +:+ example +:+ Js.nl +:+ "```" +:+ Js.nl +:+ Js.nl
        else markdown
    | None => markdown
    end in
  if (0 <? length (references (remediation finding)))%nat
  then foldl (λ md ref, md +:+ "- " +:+ ref +:+ Js.nl)
             (markdown +:+ "### References" +:+ Js.nl +:+ Js.nl)
             (references (remediation finding))
  else markdown.

(** The loop that fills [rulesMap]. *)
Definition rulesStep (rulesMap : Js.Map Finding) (finding : Finding) : Js.Map Finding :=
  if negb (Js.has rulesMap (ruleId finding))
  then Js.set rulesMap (ruleId finding) finding
  else rulesMap.

Definition toRule (finding : Finding) : Sarif.Rule :=
  {| Sarif.id := ruleId finding;
     Sarif.name := toRuleName (ruleId finding);
     Sarif.shortDescription := {| Sarif.text := title finding |};
     Sarif.fullDescription := {| Sarif.text := description finding |};
     Sarif.help :=
       {| Sarif.helpText := summary (remediation finding);
          Sarif.markdown := formatHelpMarkdown finding |};
     Sarif.properties :=
       {| Sarif.tags := [categoryName (category finding); "security"];
          Sarif.precision := mapPrecision (confidence finding);
          Sarif.securitySeverity := mapSecuritySeverity (severity finding) |} |}.

Definition extractRules (findings : list Finding) : list Sarif.Rule :=
  toRule <$> Js.values (foldl rulesStep [] findings).

Definition convertToSarifResult (finding : Finding) : Sarif.Result :=
  {| Sarif.ruleId := ruleId finding;
     Sarif.level := mapLevel (severity finding);
     Sarif.message := {| Sarif.text := title finding |};
     Sarif.locations :=
       [{| Sarif.physicalLocation :=
             {| Sarif.artifactLocation := {| Sarif.uri := file finding |};
                Sarif.region :=
                  {| Sarif.startLine := line finding;
                     Sarif.startColumn := column finding;
                     Sarif.endLine := endLine finding;
                     Sarif.endColumn := endColumn finding;
                     Sarif.snippet := {| Sarif.text := snippet finding |} |} |} |}] |}.

(** The object [sarifReport] that [generate] builds. *)
Definition sarifReport (result : ScanResult.t) : Sarif.Report :=
  let rules := extractRules (ScanResult.findings result) in
  {| Sarif.version := "2.1.0";
     Sarif.schema := "https://json.schemastore.org/sarif-2.1.0.json";
     Sarif.runs :=
       [{| Sarif.tool :=
             {| Sarif.driver :=
                  {| Sarif.driverName := "Unified Security Scanner";
                     Sarif.driverVersion := ScanResult.version result;
                     Sarif.informationUri :=
                       "https://github.com/yourusername/unified-security-scanner";
                     Sarif.rules := rules |} |};
           Sarif.results := convertToSarifResult <$> ScanResult.findings result |}] |}.

(** [generate] returns [JSON.stringify(sarifReport, null, 2)]. *)
Definition generate (stringify : Sarif.Report → string) (result : ScanResult.t) : string :=
  stringify (sarifReport result).

End SarifReporter.

(** The level and score tables of the SARIF merging script
    ([SARIFProcessor], second part of [orchestrator/scanner.ts]), on the
    severities [generateSARIF] passes them. *)
Module SARIFProcessor.

Inductive Level := error | warning | note | info.

Definition mapSeverityToLevel (s : Severity) : Level :=
  match s with
  | CRITICAL => error
  | HIGH => error
  | MEDIUM => warning
  | LOW => note
  | INFO => info
  end.

Definition mapSeverityToSecuritySeverity (s : Severity) : string :=
  match s with
  | CRITICAL => "9.0"
  | HIGH => "7.0"
  | MEDIUM => "5.0"
  | LOW => "3.0"
  | INFO => "1.0"
  end.

End SARIFProcessor.

(** ** Vocabulary of the statements *)

(** The keys of a list in the order each is first seen. *)
Definition firstSeen `{EqDecision K} (ks : list K) : list K :=
  reverse (remove_dups (reverse ks)).

(** The identity of a finding for deduplication. *)
Definition identity (finding : Finding) : string * Z * string :=
  (file finding, line finding, ruleId finding).

(** The outcome a [toolsRun] entry records, told by its exit code:
    [-1] for a tool that is not available, [0] for a scan that returned,
    anything else for a failure. *)
Inductive Status := succeeded | unavailable | failed.

Definition status (r : ToolRun.t) : Status :=
  if ToolRun.exitCode r =? 0 then succeeded
  else if ToolRun.exitCode r =? -1 then unavailable
  else failed.

(** The findings the task of an adapter contributes, the record it
    appends and the calls it makes: its effect on the empty state. *)
Definition taskEffect (host : Host) (config : ScanConfig.t) (i : nat)
    (adapter : ScannerAdapter.t) : ScanOrchestrator.State :=
  ScanOrchestrator.runTask host config ScanOrchestrator.initial i adapter.

(** The tasks of a run in the order they settle. *)
Definition settled (adapters : list ScannerAdapter.t) (order : list nat)
    : list (nat * ScannerAdapter.t) :=
  omap (λ i, (i,.) <$> adapters !! i) order.

(** The run as the specification words it: the deduplicated findings go
    through the suppression engine, the statistics count the kept
    findings, and [suppressedCount] is the length of the suppressed list.
    To be compared with [ScanOrchestrator.scan]. *)
Definition scanThroughEngine (isMatch : string → string → bool)
    (readFile : string → option string) (host : Host)
    (adapters : list ScannerAdapter.t) (config : ScanConfig.t)
    (order : list nat) : ScanResult.t :=
  let r := ScanOrchestrator.scan host adapters config order in
  let st := ScanOrchestrator.runAll host config adapters order in
  let filtered :=
    FalsePositiveRuleEngine.filterFindings isMatch readFile
      (FalsePositiveRuleEngine.new config)
      (deduplicateFindings (ScanOrchestrator.allFindings st)) in
  let stats := calculateStats (FalsePositiveRuleEngine.findings filtered) in
  {| ScanResult.scanId := ScanResult.scanId r;
     ScanResult.version := ScanResult.version r;
     ScanResult.startedAt := ScanResult.startedAt r;
     ScanResult.completedAt := ScanResult.completedAt r;
     ScanResult.duration := ScanResult.duration r;
     ScanResult.target := ScanResult.target r;
     ScanResult.filesScanned := ScanResult.filesScanned r;
     ScanResult.linesOfCode := ScanResult.linesOfCode r;
     ScanResult.toolsRun := ScanResult.toolsRun r;
     ScanResult.findings := FalsePositiveRuleEngine.findings filtered;
     ScanResult.suppressed := FalsePositiveRuleEngine.suppressed filtered;
     ScanResult.stats :=
       {| Stats.total := Stats.total stats;
          Stats.bySeverity := Stats.bySeverity stats;
          Stats.byCategory := Stats.byCategory stats;
          Stats.bySource := Stats.bySource stats;
          Stats.suppressedCount :=
            length (FalsePositiveRuleEngine.suppressed filtered) |};
     ScanResult.performance := ScanResult.performance r |}.

(** The reasons the built-in stages of [shouldSuppress] give. *)
Definition stageReasons : list string :=
  ["File matches exclusion pattern (test/docs/dependencies)";
   "Variable has test/mock prefix (MOCK_, TEST_, etc.)";
   "Found in test context (describe/it/test/expect)";
   "Suppressed by nosec comment";
   "CLI tool legitimate path operations";
   "Documentation with example credentials";
   "Security scanner rule definitions";
   "Package manager integrity hash";
   "Legitimate public/read-only API key"].

(** [f] is the first finding of [kept] that carries its rule. *)
Definition firstOfRule (kept : list Finding) (f : Finding) : Prop :=
  ∃ before after,
    kept = before ++ f :: after ∧ ruleId f ∉ ruleId <$> before.

(** The findings the scan of an adapter hands over: those its [scan]
    resolves with, when its probe resolved to [true]. *)
Definition produced (config : ScanConfig.t) (adapter : ScannerAdapter.t)
    : list Finding :=
  match ScannerAdapter.isAvailable adapter with
  | Resolved true =>
      match ScannerAdapter.scan adapter config with
      | Resolved findings => findings
      | Rejected _ => []
      end
  | _ => []
  end.

(** The record a settled task leaves, by the outcome of its probe. *)
Definition recorded (t : nat * ScannerAdapter.t) (r : ToolRun.t) : Prop :=
  ToolRun.name r = ScannerAdapter.name t.2 ∧
  match ScannerAdapter.isAvailable t.2 with
  | Resolved false =>
      status r = unavailable ∧ ToolRun.exitCode r = -1 ∧
      ToolRun.error r = Some "Tool not available"
  | Rejected message =>
      status r = failed ∧ ToolRun.exitCode r = 1 ∧
      ToolRun.error r = Some message
  | Resolved true => status r ≠ unavailable
  end.

(** [f] is the best finding of [raw] for its key: it stands in [raw], the
    findings of its key before it have a strictly lower confidence, and
    those after it have no greater one. *)
Definition bestOfKey (raw : list Finding) (f : Finding) : Prop :=
  ∃ before after,
    raw = before ++ f :: after ∧
    (∀ g, g ∈ before → dedupKey g = dedupKey f → (confidence g < confidence f)%Q) ∧
    (∀ g, g ∈ after → dedupKey g = dedupKey f → (confidence g <= confidence f)%Q).

(** The key strings of [raw] tell its identities apart. *)
Definition keysTellIdentities (raw : list Finding) : Prop :=
  ∀ f g, f ∈ raw → g ∈ raw → dedupKey f = dedupKey g → identity f = identity g.

(** A string without a line feed. *)
Fixpoint oneLine (s : string) : bool :=
  match s with
  | "" => true
  | String c s' => negb (Ascii.eqb c Js.LF) && oneLine s'
  end.

(** Does a line carry one of the two markers? *)
Definition marked (ln : option string) : bool :=
  FalsePositiveRuleEngine.lineIncludes ln "nosec" ||
  FalsePositiveRuleEngine.lineIncludes ln "noqa".

(** The condition of the fifth stage of [shouldSuppress]:
    [context && this.hasNoSecComment(context, finding.line)]. *)
Definition inlineMarkerStage (readFile : string → option string)
    (finding : Finding) : bool :=
  let context := FalsePositiveRuleEngine.getContext readFile finding in
  Js.truthy_opt context &&
  FalsePositiveRuleEngine.hasNoSecComment (default "" context) (line finding).

(** The lines of the file of a finding, and whether the line numbered [n]
    (from 1) carries a marker. *)
Definition fileLines (readFile : string → option string) (finding : Finding)
    : list string :=
  Js.split Js.LF (default "" (readFile (file finding))).

Definition markedLine (readFile : string → option string) (finding : Finding)
    (n : Z) : bool :=
  marked (Js.index (fileLines readFile finding) (n - 1)).

(** ** The scan command (CLI, [commands/scan.ts])

    The result the command displays and reports: the result of the
    orchestrator with its findings run through the engine,
    [{ ...rawResult, findings, suppressed }]. *)
Definition scanCommandResult (isMatch : string → string → bool)
    (readFile : string → option string) (host : Host)
    (adapters : list ScannerAdapter.t) (config : ScanConfig.t)
    (order : list nat) : ScanResult.t :=
  let rawResult := ScanOrchestrator.scan host adapters config order in
  let fpEngine := FalsePositiveRuleEngine.new config in
  let filtered :=
    FalsePositiveRuleEngine.filterFindings isMatch readFile fpEngine
      (ScanResult.findings rawResult) in
  {| ScanResult.scanId := ScanResult.scanId rawResult;
     ScanResult.version := ScanResult.version rawResult;
     ScanResult.startedAt := ScanResult.startedAt rawResult;
     ScanResult.completedAt := ScanResult.completedAt rawResult;
     ScanResult.duration := ScanResult.duration rawResult;
     ScanResult.target := ScanResult.target rawResult;
     ScanResult.filesScanned := ScanResult.filesScanned rawResult;
     ScanResult.linesOfCode := ScanResult.linesOfCode rawResult;
     ScanResult.toolsRun := ScanResult.toolsRun rawResult;
     ScanResult.findings := FalsePositiveRuleEngine.findings filtered;
     ScanResult.suppressed := FalsePositiveRuleEngine.suppressed filtered;
     ScanResult.stats := ScanResult.stats rawResult;
     ScanResult.performance := ScanResult.performance rawResult |}.

(** A string without a colon. *)
Fixpoint colonFree (s : string) : bool :=
  match s with
  | "" => true
  | String c s' => negb (Ascii.eqb c ":") && colonFree s'
  end.

(** A finding of a given severity, category and source. *)
Definition classified (i : string) (sev : Severity) (cat : Category)
    (src : ScanSource) : Finding :=
  {| id := i;
     ruleId := "r" +:+ i;
     source := src;
     severity := sev;
     category := cat;
     cwe := None;
     owasp := None;
     file := "f" +:+ i +:+ ".ts";
     line := 1;
     column := None;
     endLine := None;
     endColumn := None;
     title := "title";
     description := "desc";
     snippet := "snip";
     remediation :=
       {| summary := "s"; code := None; references := []; effort := low |};
     confidence := 9 # 10;
     falsePositiveProbability := None;
     suppressedBy := None;
     detectedAt := "2025-01-01T00:00:00Z";
     firstSeenAt := None |}.

(** ** What a pattern matches

    [Matches r s atEnd]: the pattern [r] matches the string [s], standing
    at the end of the subject ([atEnd]) or in front of more of it. *)
Definition isEmpty (s : string) : bool :=
  match s with
  | "" => true
  | String _ _ => false
  end.

Inductive Matches : Regex.t → string → bool → Prop :=
| MatchesEps atEnd : Matches Regex.Eps "" atEnd
| MatchesChr p c atEnd : p c = true → Matches (Regex.Chr p) (String c "") atEnd
| MatchesCat r1 r2 s1 s2 atEnd :
    Matches r1 s1 (atEnd && isEmpty s2) → Matches r2 s2 atEnd →
    Matches (Regex.Cat r1 r2) (s1 +:+ s2) atEnd
| MatchesAltL r1 r2 s atEnd : Matches r1 s atEnd → Matches (Regex.Alt r1 r2) s atEnd
| MatchesAltR r1 r2 s atEnd : Matches r2 s atEnd → Matches (Regex.Alt r1 r2) s atEnd
| MatchesStarNil r atEnd : Matches (Regex.Star r) "" atEnd
| MatchesStarCons r s1 s2 atEnd :
    Matches r s1 (atEnd && isEmpty s2) → Matches (Regex.Star r) s2 atEnd →
    Matches (Regex.Star r) (s1 +:+ s2) atEnd
| MatchesEol : Matches Regex.Eol "" true.

(** ** Sample inputs *)

Module Sample.

Definition finding (i path : string) (ln : Z) (rule : string) (c : Q)
    (code : string) : Finding :=
  {| id := i;
     ruleId := rule;
     source := semgrep;
     severity := HIGH;
     category := injection;
     cwe := None;
     owasp := None;
     file := path;
     line := ln;
     column := None;
     endLine := None;
     endColumn := None;
     title := "Unsafe call";
     description := "User input reaches a sensitive call";
     snippet := code;
     remediation :=
       {| summary := "Validate the input";
          code := None;
          references := [];
          effort := low |};
     confidence := c;
     falsePositiveProbability := None;
     suppressedBy := None;
     detectedAt := "2025-01-01T00:00:00Z";
     firstSeenAt := None |}.

(** No default exclusions and no custom rule: the engine consults no glob. *)
Definition config : ScanConfig.t :=
  {| ScanConfig.scan := {| ScanConfig.target := "." |};
     ScanConfig.falsePositives :=
       {| ScanConfig.patterns := []; ScanConfig.excludeTestFiles := false |};
     ScanConfig.performance :=
       {| ScanConfig.parallelWorkers := 4; ScanConfig.incrementalScan := false |} |}.

Definition host : Host :=
  {| randomUUID := "00000000-0000-4000-8000-000000000000";
     startedAt := "2025-01-01T00:00:00Z";
     completedAt := "2025-01-01T00:00:02Z";
     elapsed := 2%Q;
     toolElapsed := λ _, 1%Q |}.

Definition returning (fs : list Finding) : ScannerAdapter.t :=
  {| ScannerAdapter.name := "mock-adapter";
     ScannerAdapter.scan := λ _, Resolved fs;
     ScannerAdapter.isAvailable := Resolved true |}.

Definition notInstalled : ScannerAdapter.t :=
  {| ScannerAdapter.name := "missing-tool";
     ScannerAdapter.scan := λ _, Resolved [];
     ScannerAdapter.isAvailable := Resolved false |}.

Definition probeThrows : ScannerAdapter.t :=
  {| ScannerAdapter.name := "broken-probe";
     ScannerAdapter.scan := λ _, Resolved [];
     ScannerAdapter.isAvailable := Rejected "spawn EACCES" |}.

(** Three findings, the first and the last with different identities
    and the same key string. *)
Definition first : Finding := finding "A" "a" 1 "2:r" (1 # 2) "run(x)".
Definition second : Finding := finding "C" "b" 1 "r" (1 # 2) "run(y)".
Definition third : Finding := finding "B" "a:1" 2 "r" (9 # 10) "run(z)".

Definition mockSecret : Finding :=
  finding "M" "src/config.ts" 3 "hardcoded-key" (9 # 10) "const MOCK_API_KEY = 1".

(** A file of thirty lines whose twentieth line carries the marker. *)
Definition thirtyLines : string :=
  Js.join Js.nl
    ((λ n : nat,
        if bool_decide (n = 20%nat) then "run(input) // nosec"
        else "step" +:+ pretty n) <$> seq 1 30).

Definition files (path : string) : option string :=
  if String.eqb path "src/app.ts" then Some thirtyLines else None.

Definition onLine (ln : Z) : Finding :=
  finding "N" "src/app.ts" ln "unsafe-call" (1 # 2) "run(input)".

End Sample.


(** ** More JavaScript string primitives *)

Module JsString.

(** [s.toLowerCase()] and [s.toUpperCase()], on the ASCII letters. *)
Fixpoint toLowerCase (s : string) : string :=
  match s with
  | "" => ""
  | String c s' => String (Js.lower c) (toLowerCase s')
  end.

Fixpoint toUpperCase (s : string) : string :=
  match s with
  | "" => ""
  | String c s' => String (Js.upper c) (toUpperCase s')
  end.

(** [s.startsWith(prefix)] *)
Definition startsWith (s prefix : string) : bool := String.prefix prefix s.

(** [s.substring(start)] for a [start] that is not negative: the empty
    string when [start] is past the end. *)
Fixpoint substring (s : string) (start : nat) : string :=
  match start, s with
  | O, _ => s
  | S n, String _ s' => substring s' n
  | S _, "" => ""
  end.

(** The ASCII white space [trim] removes: the tab, the line feed, the
    vertical tab, the form feed, the carriage return and the space. *)
Definition isSpace (c : ascii) : bool :=
  let n := nat_of_ascii c in
  ((9 <=? n)%nat && (n <=? 13)%nat) || (n =? 32)%nat.

Fixpoint trimStart (s : string) : string :=
  match s with
  | "" => ""
  | String c s' => if isSpace c then trimStart s' else s
  end.

Fixpoint trimEnd (s : string) : string :=
  match s with
  | "" => ""
  | String c s' =>
      match trimEnd s' with
      | "" => if isSpace c then "" else String c ""
      | rest => String c rest
      end
  end.

(** [s.trim()] *)
Definition trim (s : string) : string := trimEnd (trimStart s).

(** [n || d] on an optional number: [d] when [n] is [undefined] or [0]. *)
Definition orNumber (n : option Z) (d : Z) : Z :=
  match n with
  | Some v => if v =? 0 then d else v
  | None => d
  end.

End JsString.

(** The string a [Severity] is at run time. *)
Definition severityName (s : Severity) : string :=
  match s with
  | CRITICAL => "CRITICAL"
  | HIGH => "HIGH"
  | MEDIUM => "MEDIUM"
  | LOW => "LOW"
  | INFO => "INFO"
  end.

(** ** The reports of the SARIF merging script
    ([SARIFReport], [SARIFRun], [SARIFRule], [SARIFResult], [SARIFLocation]
    of [orchestrator/scanner.ts]); an optional member is an [option].

    [JSON.parse] does not check a file against the interfaces, and SARIF
    lets a location go without its physical location, and a physical
    location without its artifact location or without its region. The
    script tests for the first and throws on the other two, so these three
    members are options here, also where the interface declares them. *)

Module SARIF.

Record Region := {
  startLine : Z;
  startColumn : option Z;
  endLine : option Z;
  endColumn : option Z;
  snippet : option Sarif.Text;
}.

Record PhysicalLocation := {
  artifactLocation : option Sarif.ArtifactLocation;
  region : option Region;
}.

Record Location := { physicalLocation : option PhysicalLocation }.

(** [properties?: { tags?: string[] }] *)
Record ResultProperties := { tags : option (list string) }.

Record Result := {
  ruleId : string;
  level : SARIFProcessor.Level;
  message : Sarif.Text;
  locations : list Location;
  properties : option ResultProperties;
}.

(** [properties?: { tags?, precision?, 'security-severity'? }] *)
Record RuleProperties := {
  ruleTags : option (list string);
  precision : option string;
  securitySeverity : option string;
}.

Record Rule := {
  id : string;
  name : option string;
  shortDescription : option Sarif.Text;
  fullDescription : option Sarif.Text;
  help : option Sarif.Text;
  ruleProperties : option RuleProperties;
}.

Record Driver := {
  driverName : string;
  driverVersion : option string;
  rules : option (list Rule);
}.

Record Tool := { driver : Driver }.

Record Run := {
  tool : Tool;
  results : list Result;
}.

Record Report := {
  schema : string;
  version : string;
  runs : list Run;
}.

End SARIF.

(** What [extractFindings] reads from its surroundings: the identifier the
    [n]-th call of [randomUUID()] returns and the timestamp of the [n]-th
    [new Date().toISOString()], counting from zero. *)
Record ExtractHost := {
  nextUUID : nat → string;
  now : nat → string;
}.

(** How the body of a loop ends: normally, or by throwing, with the
    state as it is at the throw. *)
Inductive Outcome (S : Type) :=
| Normal (st : S)
| Thrown (st : S).

Arguments Normal {S} st.
Arguments Thrown {S} st.

(** A [for (const x of items)] loop whose body can throw: the loop stops
    at the first throw. *)
Fixpoint forOf {S A} (body : S → A → Outcome S) (st : S) (items : list A)
    : Outcome S :=
  match items with
  | [] => Normal st
  | x :: rest =>
      match body st x with
      | Normal st' => forOf body st' rest
      | Thrown st' => Thrown st'
      end
  end.

(** The state a [try { ... } catch { }] around a loop leaves. *)
Definition caught {S} (o : Outcome S) : S :=
  match o with
  | Normal st => st
  | Thrown st => st
  end.

(** ** The other methods of [SARIFProcessor]

    A method that reads a SARIF file works here on what [JSON.parse] makes
    of the file, or on [None] when reading or parsing the file throws. *)

Module Processor.

Definition SCHEMA : string :=
  "https://raw.githubusercontent.com/oasis-tcs/sarif-spec/master/Schemata/sarif-schema-2.1.0.json".

(** The template literal
    [`${ruleId}:${location.artifactLocation.uri}:${location.region.startLine}`];
    [None] is the [TypeError] that reading [uri] or [startLine] of
    [undefined] throws. *)
Definition createResultKey (ruleId : string) (location : SARIF.PhysicalLocation)
    : option string :=
  match SARIF.artifactLocation location, SARIF.region location with
  | Some artifactLocation, Some region =>
      Some (ruleId +:+ ":" +:+ Sarif.uri artifactLocation +:+ ":" +:+
            pretty (SARIF.startLine region))
  | _, _ => None
  end.

Definition mapLevelToSeverity (level : SARIFProcessor.Level) : Severity :=
  match level with
  | SARIFProcessor.error => CRITICAL
  | SARIFProcessor.warning => HIGH
  | SARIFProcessor.note => MEDIUM
  | SARIFProcessor.info => LOW
  end.

Definition mapToolNameToSource (toolName : string) : ScanSource :=
  let name := JsString.toLowerCase toolName in
  if Js.includes "semgrep" name then semgrep
  else if Js.includes "trufflehog" name then truffleHog
  else custom_secrets.

Definition inferCategory (ruleId : string) : Category :=
  let id := JsString.toLowerCase ruleId in
  if Js.includes "secret" id || Js.includes "credential" id then secrets
  else if Js.includes "injection" id || Js.includes "sqli" id then injection
  else if Js.includes "auth" id || Js.includes "login" id then auth
  else if Js.includes "crypto" id || Js.includes "hash" id then crypto
  else if Js.includes "dependency" id || Js.includes "package" id then dependency
  else other.

Definition relativePath (filePath sourceRoot : string) : string :=
  if JsString.startsWith filePath sourceRoot
  then JsString.substring filePath (String.length sourceRoot + 1)
  else filePath.

(** The rule [generateRules] stores for a finding. *)
Definition toRule (finding : Finding) : SARIF.Rule :=
  {| SARIF.id := ruleId finding;
     SARIF.name := Some (title finding);
     SARIF.shortDescription := Some {| Sarif.text := title finding |};
     SARIF.fullDescription := Some {| Sarif.text := description finding |};
     SARIF.help := Some {| Sarif.text := summary (remediation finding) |};
     SARIF.ruleProperties :=
       Some {| SARIF.ruleTags := Some [categoryName (category finding)];
               SARIF.precision := Some "high";
               SARIF.securitySeverity :=
                 Some (SARIFProcessor.mapSeverityToSecuritySeverity
                         (severity finding)) |} |}.

(** The loop that fills [ruleMap]. *)
Definition rulesStep (ruleMap : Js.Map SARIF.Rule) (finding : Finding)
    : Js.Map SARIF.Rule :=
  if negb (Js.has ruleMap (ruleId finding))
  then Js.set ruleMap (ruleId finding) (toRule finding)
  else ruleMap.

Definition generateRules (findings : list Finding) : list SARIF.Rule :=
  Js.values (foldl rulesStep [] findings).

(** The result [generateSARIF] maps a finding to. *)
Definition toResult (sourceRoot : string) (finding : Finding) : SARIF.Result :=
  {| SARIF.ruleId := ruleId finding;
     SARIF.level := SARIFProcessor.mapSeverityToLevel (severity finding);
     SARIF.message := {| Sarif.text := description finding |};
     SARIF.locations :=
       [{| SARIF.physicalLocation :=
             Some
               {| SARIF.artifactLocation :=
                    Some {| Sarif.uri := relativePath (file finding) sourceRoot |};
                  SARIF.region :=
                    Some
                      {| SARIF.startLine := line finding;
                         SARIF.startColumn :=
                           Some (JsString.orNumber (column finding) 1);
                         SARIF.endLine :=
                           Some (JsString.orNumber (endLine finding) (line finding));
                         SARIF.endColumn := endColumn finding;
                         SARIF.snippet :=
                           if Js.truthy (snippet finding)
                           then Some {| Sarif.text := snippet finding |}
                           else None |} |} |}];
     SARIF.properties :=
       Some {| SARIF.tags :=
                 Some [categoryName (category finding);
                       JsString.toLowerCase (severityName (severity finding))] |} |}.

Definition generateSARIF (result : ScanResult.t) (sourceRoot : string)
    : SARIF.Report :=
  let rules := generateRules (ScanResult.findings result) in
  let sarifResults := toResult sourceRoot <$> ScanResult.findings result in
  {| SARIF.schema := SCHEMA;
     SARIF.version := "2.1.0";
     SARIF.runs :=
       [{| SARIF.tool :=
             {| SARIF.driver :=
                  {| SARIF.driverName := "Enhanced Security Scanner";
                     SARIF.driverVersion := Some (ScanResult.version result);
                     SARIF.rules := Some rules |} |};
           SARIF.results := sarifResults |}] |}.

(** [result.locations?.[0]?.physicalLocation] *)
Definition firstLocation (result : SARIF.Result) : option SARIF.PhysicalLocation :=
  head (SARIF.locations result) ≫= SARIF.physicalLocation.

(** *** [mergeSARIFFiles] *)

(** The run being filled, the keys seen so far and the counter, inside
    the loop over the results of a run. *)
Record RunState := {
  mergedResults : list SARIF.Result;
  seenResults : gset string;
  totalFindings : nat;
}.

(** One result: skipped without a location; [createResultKey] throws
    before anything is stored. *)
Definition resultStep (st : RunState) (result : SARIF.Result) : Outcome RunState :=
  match firstLocation result with
  | None => Normal st
  | Some location =>
      match createResultKey (SARIF.ruleId result) location with
      | None => Thrown st
      | Some key =>
          Normal
            (if bool_decide (key ∈ seenResults st) then st
             else {| mergedResults := mergedResults st ++ [result];
                     seenResults := {[ key ]} ∪ seenResults st;
                     totalFindings := S (totalFindings st) |})
      end
  end.

(** The merged runs, the keys seen so far and the counter, between runs. *)
Record MergeState := {
  mergedRuns : list SARIF.Run;
  seen : gset string;
  total : nat;
}.

(** One run. When a result throws, the run being filled is never pushed;
    the keys stored and the findings counted before the throw stay. *)
Definition runStep (st : MergeState) (run : SARIF.Run) : Outcome MergeState :=
  match forOf resultStep
          {| mergedResults := []; seenResults := seen st; totalFindings := total st |}
          (SARIF.results run) with
  | Normal filled =>
      Normal
        {| mergedRuns :=
             if (0 <? length (mergedResults filled))%nat
             then mergedRuns st ++
                  [{| SARIF.tool := SARIF.tool run;
                      SARIF.results := mergedResults filled |}]
             else mergedRuns st;
           seen := seenResults filled;
           total := totalFindings filled |}
  | Thrown filled =>
      Thrown
        {| mergedRuns := mergedRuns st;
           seen := seenResults filled;
           total := totalFindings filled |}
  end.

(** One input file, inside its [try]: a file that cannot be read or
    parsed is skipped with a warning, and a throw in the loops abandons the
    rest of the file. *)
Definition fileStep (st : MergeState) (input : option SARIF.Report) : MergeState :=
  match input with
  | Some sarif => caught (forOf runStep st (SARIF.runs sarif))
  | None => st
  end.

Definition mergeState (inputs : list (option SARIF.Report)) : MergeState :=
  foldl fileStep {| mergedRuns := []; seen := ∅; total := 0 |} inputs.

(** The report [mergeSARIFFiles] writes to its output file, and the
    number of unique findings it logs. *)
Definition mergeSARIFFiles (inputs : list (option SARIF.Report))
    : SARIF.Report * nat :=
  let st := mergeState inputs in
  ({| SARIF.schema := SCHEMA;
      SARIF.version := "2.1.0";
      SARIF.runs := mergedRuns st |},
   total st).

(** *** [extractFindings] *)

(** One result of a run of the tool [toolName]; the findings pushed so
    far number the calls of [randomUUID] and of the clock. Building the
    finding throws when the location lacks its artifact location or its
    region. *)
Definition extractStep (host : ExtractHost) (toolName : string)
    (findings : list Finding) (result : SARIF.Result) : Outcome (list Finding) :=
  match firstLocation result with
  | None => Normal findings
  | Some location =>
      match SARIF.artifactLocation location, SARIF.region location with
      | Some artifactLocation, Some region =>
      Normal (findings ++
      [{| id := nextUUID host (length findings);
          ruleId := SARIF.ruleId result;
          source := mapToolNameToSource toolName;
          severity := mapLevelToSeverity (SARIF.level result);
          category := inferCategory (SARIF.ruleId result);
          cwe := None;
          owasp := None;
          file := Sarif.uri artifactLocation;
          line := SARIF.startLine region;
          column := SARIF.startColumn region;
          endLine := SARIF.endLine region;
          endColumn := SARIF.endColumn region;
          title := Sarif.text (SARIF.message result);
          description := Sarif.text (SARIF.message result);
          snippet :=
            match SARIF.snippet region with
            | Some snippet => Sarif.text snippet
            | None => ""
            end;
          remediation :=
            {| summary := "Review and fix the identified security issue";
               code := None;
               references := [];
               effort := medium |};
          confidence := 8 # 10;
          falsePositiveProbability := None;
          suppressedBy := None;
          detectedAt := now host (length findings);
          firstSeenAt := None |}])
      | _, _ => Thrown findings
      end
  end.

(** The findings pushed before the [catch]: all of them, or those before
    the first throw. *)
Definition extractFindings (host : ExtractHost) (input : option SARIF.Report)
    : list Finding :=
  match input with
  | Some sarif =>
      caught
        (forOf (λ findings run,
                  forOf (extractStep host
                           (SARIF.driverName (SARIF.driver (SARIF.tool run))))
                        findings (SARIF.results run))
               [] (SARIF.runs sarif))
  | None => []
  end.

(** *** [checkCriticalFindings] *)

Record CriticalCheck := {
  hasCritical : bool;
  criticalCount : nat;
  highCount : nat;
  reported : list Finding;
}.

Definition checkCriticalFindings (host : ExtractHost)
    (input : option SARIF.Report) : CriticalCheck :=
  let findings := extractFindings host input in
  let criticalFindings := filter (λ f, severity f = CRITICAL) findings in
  let highFindings := filter (λ f, severity f = HIGH) findings in
  {| hasCritical := (0 <? length criticalFindings)%nat;
     criticalCount := length criticalFindings;
     highCount := length highFindings;
     reported := criticalFindings ++ highFindings |}.

End Processor.

(** ** The fail condition of the scan command ([checkFailCondition]) *)

Definition failOnLevels (failOn : string) : list string :=
  (λ s, JsString.toUpperCase (JsString.trim s)) <$> Js.split "," failOn.

Definition checkFailCondition (result : ScanResult.t) (failOn : string) : bool :=
  existsb (λ finding,
             bool_decide (severityName (severity finding) ∈ failOnLevels failOn))
          (ScanResult.findings result).

(** ** Vocabulary of the further statements *)

(** The level table as the specification words it, on the levels of
    [SARIFProcessor]: [CRITICAL] and [HIGH] are errors, [MEDIUM] and [LOW]
    warnings, [INFO] a note. To be compared with
    [SARIFProcessor.mapSeverityToLevel]. *)
Definition specifiedLevel (s : Severity) : SARIFProcessor.Level :=
  match s with
  | CRITICAL | HIGH => SARIFProcessor.error
  | MEDIUM | LOW => SARIFProcessor.warning
  | INFO => SARIFProcessor.note
  end.

(** The precision as the specification words it: a bucket of the
    confidence. To be compared with the precision [SARIFProcessor] gives
    its rules. *)
Definition specifiedPrecision (confidence : Q) : string :=
  if Js.ge confidence (9 # 10) then "very-high"
  else if Js.ge confidence (3 # 4) then "high"
  else if Js.ge confidence (1 # 2) then "medium"
  else "low".

(** A string of ASCII characters: on such strings the case mappings and
    [trim] of [JsString] are those of JavaScript, and a character is one
    UTF-16 unit. *)
Fixpoint isAscii (s : string) : bool :=
  match s with
  | "" => true
  | String c s' => (nat_of_ascii c <? 128)%nat && isAscii s'
  end.

(** How often a character occurs in a string. *)
Fixpoint occurrences (c : ascii) (s : string) : nat :=
  match s with
  | "" => 0%nat
  | String c' s' => ((if Ascii.eqb c' c then 1 else 0) + occurrences c s')%nat
  end.

(** The key [mergeSARIFFiles] gives a result, if the result has a
    location and the key can be built. *)
Definition resultKey (result : SARIF.Result) : option string :=
  Processor.firstLocation result ≫= Processor.createResultKey (SARIF.ruleId result).

(** Does [mergeSARIFFiles] throw at a result? It does when the first
    location of the result has a physical location that lacks its artifact
    location or its region. *)
Definition throws (result : SARIF.Result) : bool :=
  match Processor.firstLocation result with
  | Some location =>
      match Processor.createResultKey (SARIF.ruleId result) location with
      | Some _ => false
      | None => true
      end
  | None => false
  end.

(** The results of a run before the first one that throws. *)
Fixpoint upToThrow (results : list SARIF.Result) : list SARIF.Result :=
  match results with
  | [] => []
  | r :: rest => if throws r then [] else r :: upToThrow rest
  end.

(** The results of the runs of a file that the loops reach: those of
    the runs before the first run with a throw, and of that run those
    before the throw. *)
Fixpoint reachedOfRuns (runs : list SARIF.Run) : list SARIF.Result :=
  match runs with
  | [] => []
  | run :: rest =>
      upToThrow (SARIF.results run) ++
      (if existsb throws (SARIF.results run) then [] else reachedOfRuns rest)
  end.

(** The results [mergeSARIFFiles] reaches in its input files. *)
Definition reached (inputs : list (option SARIF.Report)) : list SARIF.Result :=
  inputs ≫= (λ input, from_option (λ sarif, reachedOfRuns (SARIF.runs sarif)) [] input).

(** The results of a report, run after run. *)
Definition allResults (report : SARIF.Report) : list SARIF.Result :=
  SARIF.runs report ≫= SARIF.results.

(** The results of the input files that could be read, file after file. *)
Definition inputResults (inputs : list (option SARIF.Report)) : list SARIF.Result :=
  inputs ≫= (λ input, from_option allResults [] input).

(** [r] has a key and is the first result of [results] with that key. *)
Definition firstOfKey (results : list SARIF.Result) (r : SARIF.Result) : Prop :=
  is_Some (resultKey r) ∧
  ∃ before after,
    results = before ++ r :: after ∧ resultKey r ∉ resultKey <$> before.

(** ** More sample inputs *)

Module Fixture.

(** A file of twenty lines whose first and fourteenth lines carry a
    marker. *)
Definition twentyLines : string :=
  Js.join Js.nl
    ((λ n : nat,
        if bool_decide (n = 1%nat) then "// nosec: generated file"
        else if bool_decide (n = 14%nat) then "run(input) # noqa"
        else "step" +:+ pretty n) <$> seq 1 20).

Definition files (path : string) : option string :=
  if String.eqb path "src/gen.ts" then Some twentyLines else None.

Definition onLine (ln : Z) : Finding :=
  Sample.finding "G" "src/gen.ts" ln "unsafe-call" (1 # 2) "run(input)".

Definition noGlob (path glob : string) : bool := false.

(** The place of a SARIF result: a uri and a start line. *)
Definition place (path : string) (ln : Z) (col : option Z) : SARIF.PhysicalLocation :=
  {| SARIF.artifactLocation := Some {| Sarif.uri := path |};
     SARIF.region :=
       Some {| SARIF.startLine := ln;
               SARIF.startColumn := col;
               SARIF.endLine := None;
               SARIF.endColumn := None;
               SARIF.snippet := None |} |}.

(** A result of the level [warning] at a place, and one whose location
    has no region. *)
Definition resultAt (rule path : string) (ln : Z) : SARIF.Result :=
  {| SARIF.ruleId := rule;
     SARIF.level := SARIFProcessor.warning;
     SARIF.message := {| Sarif.text := "finding" |};
     SARIF.locations := [{| SARIF.physicalLocation := Some (place path ln None) |}];
     SARIF.properties := None |}.

Definition regionless (rule path : string) : SARIF.Result :=
  {| SARIF.ruleId := rule;
     SARIF.level := SARIFProcessor.warning;
     SARIF.message := {| Sarif.text := "finding" |};
     SARIF.locations :=
       [{| SARIF.physicalLocation :=
             Some {| SARIF.artifactLocation := Some {| Sarif.uri := path |};
                     SARIF.region := None |} |}];
     SARIF.properties := None |}.

(** A report of one run of a tool. *)
Definition reportOf (toolName : string) (results : list SARIF.Result) : SARIF.Report :=
  {| SARIF.schema := Processor.SCHEMA;
     SARIF.version := "2.1.0";
     SARIF.runs :=
       [{| SARIF.tool :=
             {| SARIF.driver :=
                  {| SARIF.driverName := toolName;
                     SARIF.driverVersion := None;
                     SARIF.rules := None |} |};
           SARIF.results := results |}] |}.

End Fixture.


(** ** [JSON.stringify] and [JSON.parse] *)

(** Modelled from the spec: the structured dump is
    [JSON.stringify(result, null, 2)] and its reader is [JSON.parse]. Both
    are built-ins of the JavaScript runtime, not code of the repository;
    they are modelled from their definition in ECMA-262
    (SerializeJSONProperty with the gap of two spaces, QuoteJSONString, and
    the JSON grammar). A number is kept as the literal that writes it:
    what [Number::toString] writes for a number that is not an integer, and
    what a literal is read as, are parameters of the reporter. *)
Module JSON.

Local Unset Elimination Schemes.

Inductive Value :=
| Null
| Bool (b : bool)
| Number (literal : string)
| Str (s : string)
| Array (items : list Value)
| Object (members : list (string * Value)).

Local Set Elimination Schemes.

(** *** Writing *)

Definition hexDigit (n : nat) : ascii :=
  match n with
  | 0 => "0" | 1 => "1" | 2 => "2" | 3 => "3" | 4 => "4" | 5 => "5"
  | 6 => "6" | 7 => "7" | 8 => "8" | 9 => "9" | 10 => "a" | 11 => "b"
  | 12 => "c" | 13 => "d" | 14 => "e" | _ => "f"
  end%nat%char.

(** QuoteJSONString, one character: the two-character escapes, [\u00xx]
    for the other control characters, and the character itself. *)
Definition escapeChar (c : ascii) : string :=
  let n := nat_of_ascii c in
  if (n =? 8)%nat then "\b"
  else if (n =? 9)%nat then "\t"
  else if (n =? 10)%nat then "\n"
  else if (n =? 12)%nat then "\f"
  else if (n =? 13)%nat then "\r"
  else if (n =? 34)%nat then String "\" (String Js.DQUOTE "")
  else if (n =? 92)%nat then "\\"
  else if (n <? 32)%nat
       then "\u00" +:+ String (hexDigit (n / 16)) (String (hexDigit (n mod 16)) "")
  else String c "".

Fixpoint escapeChars (s : string) : string :=
  match s with
  | "" => ""
  | String c s' => escapeChar c +:+ escapeChars s'
  end.

Definition quote (s : string) : string :=
  String Js.DQUOTE (escapeChars s +:+ String Js.DQUOTE "").

Definition gap : string := "  ".

(** SerializeJSONProperty. An empty array is [[]] and an empty object
    [{}]; the items and the members of the others stand on lines of their
    own, indented by one more gap. *)
Fixpoint serialize (indent : string) (v : Value) {struct v} : string :=
  match v with
  | Null => "null"
  | Bool true => "true"
  | Bool false => "false"
  | Number literal => literal
  | Str s => quote s
  | Array [] => "[]"
  | Array (first :: others) =>
      let inner := indent +:+ gap in
      "[" +:+ Js.nl +:+ inner +:+ serialize inner first +:+
      (fix more (l : list Value) : string :=
         match l with
         | [] => ""
         | item :: l' =>
             "," +:+ Js.nl +:+ inner +:+ serialize inner item +:+ more l'
         end) others +:+
      Js.nl +:+ indent +:+ "]"
  | Object [] => "{}"
  | Object ((key, first) :: others) =>
      let inner := indent +:+ gap in
      "{" +:+ Js.nl +:+ inner +:+ quote key +:+ ": " +:+ serialize inner first +:+
      (fix more (l : list (string * Value)) : string :=
         match l with
         | [] => ""
         | (k, item) :: l' =>
             "," +:+ Js.nl +:+ inner +:+ quote k +:+ ": " +:+
             serialize inner item +:+ more l'
         end) others +:+
      Js.nl +:+ indent +:+ "}"
  end.

(** [JSON.stringify(value, null, 2)] *)
Definition stringify (v : Value) : string := serialize "" v.

(** *** Reading *)

Definition isWhitespace (c : ascii) : bool :=
  let n := nat_of_ascii c in
  (n =? 32)%nat || (n =? 9)%nat || (n =? 10)%nat || (n =? 13)%nat.

Fixpoint skipWhitespace (s : string) : string :=
  match s with
  | "" => ""
  | String c s' => if isWhitespace c then skipWhitespace s' else s
  end.

Definition isDigit (c : ascii) : bool := Regex.inRange "0" "9" c.

Definition hexValue (c : ascii) : option Z :=
  let n := Z.of_nat (nat_of_ascii c) in
  if Regex.inRange "0" "9" c then Some (n - 48)
  else if Regex.inRange "a" "f" c then Some (n - 87)
  else if Regex.inRange "A" "F" c then Some (n - 55)
  else None.

(** The code unit four hexadecimal digits write. *)
Definition codeUnit (h1 h2 h3 h4 : ascii) : option Z :=
  a ← hexValue h1; b ← hexValue h2; c ← hexValue h3; d ← hexValue h4;
  Some (((a * 16 + b) * 16 + c) * 16 + d).

Definition byte (n : Z) : ascii := ascii_of_nat (Z.to_nat n).

(** The UTF-8 bytes of a code point. *)
Definition utf8 (n : Z) : string :=
  if n <? 128 then String (byte n) ""
  else if n <? 2048
       then String (byte (192 + n / 64)) (String (byte (128 + n mod 64)) "")
  else if n <? 65536
       then String (byte (224 + n / 4096))
              (String (byte (128 + (n / 64) mod 64))
                 (String (byte (128 + n mod 64)) ""))
  else String (byte (240 + n / 262144))
         (String (byte (128 + (n / 4096) mod 64))
            (String (byte (128 + (n / 64) mod 64))
               (String (byte (128 + n mod 64)) ""))).

Definition isHighSurrogate (n : Z) : bool := (55296 <=? n) && (n <=? 56319).
Definition isLowSurrogate (n : Z) : bool := (56320 <=? n) && (n <=? 57343).

(** The characters of a string literal after its opening quotation mark,
    and what follows the closing one. A control character must be
    escaped; a surrogate pair written with two [\u] escapes is one code
    point, and a surrogate that stands alone, which no string of bytes
    holds, is refused. *)
Fixpoint parseChars (s : string) : option (string * string) :=
  match s with
  | "" => None
  | String c rest =>
      if Ascii.eqb c Js.DQUOTE then Some ("", rest)
      else if Ascii.eqb c "\" then
        match rest with
        | "" => None
        | String e rest1 =>
            let plain (d : ascii) :=
              '(str, rest') ← parseChars rest1; Some (String d str, rest') in
            if Ascii.eqb e Js.DQUOTE then plain Js.DQUOTE
            else if Ascii.eqb e "\" then plain "\"%char
            else if Ascii.eqb e "/" then plain "/"%char
            else if Ascii.eqb e "b" then plain "008"%char
            else if Ascii.eqb e "f" then plain "012"%char
            else if Ascii.eqb e "n" then plain "010"%char
            else if Ascii.eqb e "r" then plain "013"%char
            else if Ascii.eqb e "t" then plain "009"%char
            else if Ascii.eqb e "u" then
              match rest1 with
              | String h1 (String h2 (String h3 (String h4 rest2))) =>
                  match codeUnit h1 h2 h3 h4 with
                  | None => None
                  | Some unit =>
                      if isLowSurrogate unit then None
                      else if isHighSurrogate unit then
                        match rest2 with
                        | String b (String u (String l1 (String l2
                            (String l3 (String l4 rest3))))) =>
                            if Ascii.eqb b "\" && Ascii.eqb u "u" then
                              match codeUnit l1 l2 l3 l4 with
                              | Some trail =>
                                  if isLowSurrogate trail then
                                    '(str, rest') ← parseChars rest3;
                                    Some (utf8 (65536 + (unit - 55296) * 1024
                                                + (trail - 56320)) +:+ str, rest')
                                  else None
                              | None => None
                              end
                            else None
                        | _ => None
                        end
                      else
                        '(str, rest') ← parseChars rest2;
                        Some (utf8 unit +:+ str, rest')
                  end
              | _ => None
              end
            else None
        end
      else if (nat_of_ascii c <? 32)%nat then None
      else '(str, rest') ← parseChars rest; Some (String c str, rest')
  end.

(** The characters a number literal is written with. *)
Definition isNumberChar (c : ascii) : bool :=
  isDigit c || Ascii.eqb c "-" || Ascii.eqb c "+" || Ascii.eqb c "." ||
  Ascii.eqb c "e" || Ascii.eqb c "E".

Fixpoint takeNumber (s : string) : string * string :=
  match s with
  | "" => ("", "")
  | String c rest =>
      if isNumberChar c
      then let '(literal, rest') := takeNumber rest in (String c literal, rest')
      else ("", s)
  end.

Fixpoint skipDigits (s : string) : string :=
  match s with
  | "" => ""
  | String c s' => if isDigit c then skipDigits s' else s
  end.

Definition startsWithDigit (s : string) : bool :=
  match s with
  | "" => false
  | String c _ => isDigit c
  end.

(** The grammar of a number: an optional minus sign; a zero, or a digit
    from 1 to 9 and more digits; optionally a point and one digit or more;
    optionally an [e] or [E], a sign or none, and one digit or more. *)
Definition isExponent (s : string) : bool :=
  match s with
  | "" => true
  | String c rest =>
      (Ascii.eqb c "e" || Ascii.eqb c "E") &&
      let digits :=
        match rest with
        | String sign rest' =>
            if Ascii.eqb sign "+" || Ascii.eqb sign "-" then rest' else rest
        | "" => rest
        end in
      startsWithDigit digits && String.eqb (skipDigits digits) ""
  end.

Definition isFraction (s : string) : bool :=
  match s with
  | "" => true
  | String c rest =>
      if Ascii.eqb c "."
      then startsWithDigit rest && isExponent (skipDigits rest)
      else isExponent s
  end.

Definition isInteger (s : string) : bool :=
  match s with
  | "" => false
  | String c rest =>
      if Ascii.eqb c "0" then isFraction rest
      else isDigit c && isFraction (skipDigits rest)
  end.

Definition isNumberLiteral (s : string) : bool :=
  match s with
  | "" => false
  | String c rest => if Ascii.eqb c "-" then isInteger rest else isInteger s
  end.

(** [word] at the front of [s], and what follows it. *)
Definition expect (word s : string) : option string :=
  if JsString.startsWith s word
  then Some (JsString.substring s (String.length word))
  else None.

(** A value, the items of an array after its bracket, and the members of
    an object after its brace, each with what follows it. The fuel bounds
    the nesting of the calls; [parse] gives enough of it. A member whose
    key was read before replaces that member's value. *)
Fixpoint parseValue (fuel : nat) (s : string) {struct fuel}
    : option (Value * string) :=
  match fuel with
  | O => None
  | S fuel =>
      match skipWhitespace s with
      | "" => None
      | String c rest =>
          if Ascii.eqb c "n" then rest' ← expect "ull" rest; Some (Null, rest')
          else if Ascii.eqb c "t" then rest' ← expect "rue" rest; Some (Bool true, rest')
          else if Ascii.eqb c "f" then rest' ← expect "alse" rest; Some (Bool false, rest')
          else if Ascii.eqb c Js.DQUOTE
          then '(str, rest') ← parseChars rest; Some (Str str, rest')
          else if Ascii.eqb c "[" then
            match skipWhitespace rest with
            | "" => None
            | String d rest' =>
                if Ascii.eqb d "]" then Some (Array [], rest')
                else '(items, rest'') ← parseElements fuel rest;
                     Some (Array items, rest'')
            end
          else if Ascii.eqb c "{" then
            match skipWhitespace rest with
            | "" => None
            | String d rest' =>
                if Ascii.eqb d "}" then Some (Object [], rest')
                else '(members, rest'') ← parseMembers fuel rest;
                     Some (Object (foldl (λ m kv, Js.set m kv.1 kv.2) [] members),
                           rest'')
            end
          else if Ascii.eqb c "-" || isDigit c then
            let '(literal, rest') := takeNumber (String c rest) in
            if isNumberLiteral literal then Some (Number literal, rest') else None
          else None
      end
  end
with parseElements (fuel : nat) (s : string) {struct fuel}
    : option (list Value * string) :=
  match fuel with
  | O => None
  | S fuel =>
      '(item, rest) ← parseValue fuel s;
      match skipWhitespace rest with
      | "" => None
      | String c rest' =>
          if Ascii.eqb c ","
          then '(items, rest'') ← parseElements fuel rest';
               Some (item :: items, rest'')
          else if Ascii.eqb c "]" then Some ([item], rest')
          else None
      end
  end
with parseMembers (fuel : nat) (s : string) {struct fuel}
    : option (list (string * Value) * string) :=
  match fuel with
  | O => None
  | S fuel =>
      match skipWhitespace s with
      | "" => None
      | String q rest =>
          if Ascii.eqb q Js.DQUOTE then
            '(key, rest) ← parseChars rest;
            match skipWhitespace rest with
            | "" => None
            | String c rest =>
                if Ascii.eqb c ":" then
                  '(item, rest) ← parseValue fuel rest;
                  match skipWhitespace rest with
                  | "" => None
                  | String c rest' =>
                      if Ascii.eqb c ","
                      then '(members, rest'') ← parseMembers fuel rest';
                           Some ((key, item) :: members, rest'')
                      else if Ascii.eqb c "}" then Some ([(key, item)], rest')
                      else None
                  end
                else None
            end
          else None
      end
  end.

(** [JSON.parse(text)]: one value, and white space around it; [None]
    is the [SyntaxError]. *)
Definition parse (text : string) : option Value :=
  '(v, rest) ← parseValue (String.length text) text;
  if String.eqb (skipWhitespace rest) "" then Some v else None.

End JSON.

(** ** The structured dump ([JsonReporter], at the end of [reporters/sarif.ts]) *)

(** The strings a [ScanSource] and an effort are at run time. *)
Definition sourceName (s : ScanSource) : string :=
  match s with
  | truffleHog => "truffleHog"
  | semgrep => "semgrep"
  | custom_npm => "custom-npm"
  | custom_react => "custom-react"
  | custom_secrets => "custom-secrets"
  end.

Definition effortName (e : Effort) : string :=
  match e with
  | low => "low"
  | medium => "medium"
  | high => "high"
  end.

(** Modelled from the spec: [generate] is the call
    [JSON.stringify(result, null, 2)] of the source; the object it is given
    is the result, property by property in the order the orchestrator
    writes them (a finding in the order of its interface), and the reader
    is [JSON.parse] followed by the reading of each property the interface
    [ScanResult] declares. The repository has no reader of its own. *)
Module JsonReporter.

(** The integer a literal of digits writes, with a minus sign or none. *)
Fixpoint readDigits (acc : N) (s : string) : option N :=
  match s with
  | "" => Some acc
  | String c s' =>
      if JSON.isDigit c
      then readDigits (acc * 10 + N.of_nat (nat_of_ascii c - 48)) s'
      else None
  end.

Definition readNatural (s : string) : option N :=
  match s with
  | "" => None
  | String _ _ => readDigits 0 s
  end.

Definition readInteger (s : string) : option Z :=
  match s with
  | "" => None
  | String c rest =>
      if Ascii.eqb c "-" then (λ n, - Z.of_N n) <$> readNatural rest
      else Z.of_N <$> readNatural s
  end.

(** A member of an object literal, and one the object has only when the
    property is not [undefined]. *)
Definition optionally {A} (key : string) (write : A → JSON.Value) (o : option A)
    (others : list (string * JSON.Value)) : list (string * JSON.Value) :=
  match o with
  | Some a => (key, write a) :: others
  | None => others
  end.

(** [value[key]] on what [JSON.parse] returned. *)
Definition field (key : string) (v : JSON.Value) : option JSON.Value :=
  match v with
  | JSON.Object members => Js.get members key
  | _ => None
  end.

Definition required {A} (key : string) (read : JSON.Value → option A)
    (v : JSON.Value) : option A :=
  field key v ≫= read.

Definition optional {A} (key : string) (read : JSON.Value → option A)
    (v : JSON.Value) : option (option A) :=
  match field key v with
  | Some x => Some <$> read x
  | None => Some None
  end.

Definition text (v : JSON.Value) : option string :=
  match v with
  | JSON.Str s => Some s
  | _ => None
  end.

Definition boolean (v : JSON.Value) : option bool :=
  match v with
  | JSON.Bool b => Some b
  | _ => None
  end.

Definition integer (v : JSON.Value) : option Z :=
  match v with
  | JSON.Number literal => readInteger literal
  | _ => None
  end.

Definition natural (v : JSON.Value) : option nat :=
  match v with
  | JSON.Number literal => N.to_nat <$> readNatural literal
  | _ => None
  end.

Definition items {A} (read : JSON.Value → option A) (v : JSON.Value)
    : option (list A) :=
  match v with
  | JSON.Array l => mapM read l
  | _ => None
  end.

(** The value of an enumeration a string names. *)
Definition named {A} (name : A → string) (all : list A) (v : JSON.Value)
    : option A :=
  s ← text v; List.find (λ a, String.eqb (name a) s) all.

(** A [Record<K, number>]: the counters of the keys it has. *)
Definition ofCounts `{Countable K} (name : K → string) (all : list K)
    (m : gmap K nat) : JSON.Value :=
  JSON.Object
    (omap (λ k, (λ n : nat, (name k, JSON.Number (pretty n))) <$> m !! k) all).

Definition asCounts `{Countable K} (name : K → string) (all : list K)
    (v : JSON.Value) : option (gmap K nat) :=
  match v with
  | JSON.Object _ =>
      foldr (λ k acc,
               m ← acc;
               match field (name k) v with
               | Some x => n ← natural x; Some (<[k := n]> m)
               | None => Some m
               end)
            (Some ∅) all
  | _ => None
  end.

Section WithNumbers.

(** [Number::toString] on a number that need not be an integer, and
    the number a literal is read as. *)
Variable numberToString : Q → string.
Variable stringToNumber : string → option Q.

Definition number (v : JSON.Value) : option Q :=
  match v with
  | JSON.Number literal => stringToNumber literal
  | _ => None
  end.

(** *** The object a result is, as [JSON.stringify] walks it *)

Definition ofRemediation (r : Remediation) : JSON.Value :=
  JSON.Object
    (("summary", JSON.Str (summary r)) ::
     optionally "code" JSON.Str (code r)
       [("references", JSON.Array (JSON.Str <$> references r));
        ("effort", JSON.Str (effortName (effort r)))]).

Definition ofFinding (f : Finding) : JSON.Value :=
  JSON.Object
    (("id", JSON.Str (id f)) ::
     ("ruleId", JSON.Str (ruleId f)) ::
     ("source", JSON.Str (sourceName (source f))) ::
     ("severity", JSON.Str (severityName (severity f))) ::
     ("category", JSON.Str (categoryName (category f))) ::
     optionally "cwe" JSON.Str (cwe f)
    (optionally "owasp" JSON.Str (owasp f)
    (("file", JSON.Str (file f)) ::
     ("line", JSON.Number (pretty (line f))) ::
     optionally "column" (λ n : Z, JSON.Number (pretty n)) (column f)
    (optionally "endLine" (λ n : Z, JSON.Number (pretty n)) (endLine f)
    (optionally "endColumn" (λ n : Z, JSON.Number (pretty n)) (endColumn f)
    (("title", JSON.Str (title f)) ::
     ("description", JSON.Str (description f)) ::
     ("snippet", JSON.Str (snippet f)) ::
     ("remediation", ofRemediation (remediation f)) ::
     ("confidence", JSON.Number (numberToString (confidence f))) ::
     optionally "falsePositiveProbability"
       (λ q, JSON.Number (numberToString q)) (falsePositiveProbability f)
    (optionally "suppressedBy" JSON.Str (suppressedBy f)
    (("detectedAt", JSON.Str (detectedAt f)) ::
     optionally "firstSeenAt" JSON.Str (firstSeenAt f) [])))))))).

Definition ofToolRun (t : ToolRun.t) : JSON.Value :=
  JSON.Object
    (("name", JSON.Str (ToolRun.name t)) ::
     ("version", JSON.Str (ToolRun.version t)) ::
     ("duration", JSON.Number (numberToString (ToolRun.duration t))) ::
     ("exitCode", JSON.Number (pretty (ToolRun.exitCode t))) ::
     optionally "error" JSON.Str (ToolRun.error t) []).

Definition ofStats (s : Stats.t) : JSON.Value :=
  JSON.Object
    [("total", JSON.Number (pretty (Stats.total s)));
     ("bySeverity", ofCounts severityName allSeverities (Stats.bySeverity s));
     ("byCategory", ofCounts categoryName allCategories (Stats.byCategory s));
     ("bySource", ofCounts sourceName allSources (Stats.bySource s));
     ("suppressedCount", JSON.Number (pretty (Stats.suppressedCount s)))].

Definition ofPerformance (p : ScanResult.Performance) : JSON.Value :=
  JSON.Object
    [("parallelWorkers", JSON.Number (pretty (ScanResult.parallelWorkers p)));
     ("cacheHitRate", JSON.Number (numberToString (ScanResult.cacheHitRate p)));
     ("incrementalScan", JSON.Bool (ScanResult.incrementalScan p))].

Definition ofScanResult (r : ScanResult.t) : JSON.Value :=
  JSON.Object
    [("scanId", JSON.Str (ScanResult.scanId r));
     ("version", JSON.Str (ScanResult.version r));
     ("startedAt", JSON.Str (ScanResult.startedAt r));
     ("completedAt", JSON.Str (ScanResult.completedAt r));
     ("duration", JSON.Number (numberToString (ScanResult.duration r)));
     ("target", JSON.Str (ScanResult.target r));
     ("filesScanned", JSON.Number (pretty (ScanResult.filesScanned r)));
     ("linesOfCode", JSON.Number (pretty (ScanResult.linesOfCode r)));
     ("toolsRun", JSON.Array (ofToolRun <$> ScanResult.toolsRun r));
     ("findings", JSON.Array (ofFinding <$> ScanResult.findings r));
     ("suppressed", JSON.Array (ofFinding <$> ScanResult.suppressed r));
     ("stats", ofStats (ScanResult.stats r));
     ("performance", ofPerformance (ScanResult.performance r))].

(** [JsonReporter.generate]: [JSON.stringify(result, null, 2)]. *)
Definition generate (result : ScanResult.t) : string :=
  JSON.stringify (ofScanResult result).

(** *** What [JSON.parse] returned, read as a result *)

Definition asRemediation (v : JSON.Value) : option Remediation :=
  summary ← required "summary" text v;
  code ← optional "code" text v;
  references ← required "references" (items text) v;
  effort ← required "effort" (named effortName [low; medium; high]) v;
  Some {| summary := summary; code := code; references := references;
          effort := effort |}.

Definition asFinding (v : JSON.Value) : option Finding :=
  id ← required "id" text v;
  ruleId ← required "ruleId" text v;
  source ← required "source" (named sourceName allSources) v;
  severity ← required "severity" (named severityName allSeverities) v;
  category ← required "category" (named categoryName allCategories) v;
  cwe ← optional "cwe" text v;
  owasp ← optional "owasp" text v;
  file ← required "file" text v;
  line ← required "line" integer v;
  column ← optional "column" integer v;
  endLine ← optional "endLine" integer v;
  endColumn ← optional "endColumn" integer v;
  title ← required "title" text v;
  description ← required "description" text v;
  snippet ← required "snippet" text v;
  remediation ← required "remediation" asRemediation v;
  confidence ← required "confidence" number v;
  falsePositiveProbability ← optional "falsePositiveProbability" number v;
  suppressedBy ← optional "suppressedBy" text v;
  detectedAt ← required "detectedAt" text v;
  firstSeenAt ← optional "firstSeenAt" text v;
  Some {| id := id; ruleId := ruleId; source := source; severity := severity;
          category := category; cwe := cwe; owasp := owasp; file := file;
          line := line; column := column; endLine := endLine;
          endColumn := endColumn; title := title; description := description;
          snippet := snippet; remediation := remediation;
          confidence := confidence;
          falsePositiveProbability := falsePositiveProbability;
          suppressedBy := suppressedBy; detectedAt := detectedAt;
          firstSeenAt := firstSeenAt |}.

Definition asToolRun (v : JSON.Value) : option ToolRun.t :=
  name ← required "name" text v;
  version ← required "version" text v;
  duration ← required "duration" number v;
  exitCode ← required "exitCode" integer v;
  error ← optional "error" text v;
  Some {| ToolRun.name := name; ToolRun.version := version;
          ToolRun.duration := duration; ToolRun.exitCode := exitCode;
          ToolRun.error := error |}.

Definition asStats (v : JSON.Value) : option Stats.t :=
  total ← required "total" natural v;
  bySeverity ← required "bySeverity" (asCounts severityName allSeverities) v;
  byCategory ← required "byCategory" (asCounts categoryName allCategories) v;
  bySource ← required "bySource" (asCounts sourceName allSources) v;
  suppressedCount ← required "suppressedCount" natural v;
  Some {| Stats.total := total; Stats.bySeverity := bySeverity;
          Stats.byCategory := byCategory; Stats.bySource := bySource;
          Stats.suppressedCount := suppressedCount |}.

Definition asPerformance (v : JSON.Value) : option ScanResult.Performance :=
  parallelWorkers ← required "parallelWorkers" natural v;
  cacheHitRate ← required "cacheHitRate" number v;
  incrementalScan ← required "incrementalScan" boolean v;
  Some {| ScanResult.parallelWorkers := parallelWorkers;
          ScanResult.cacheHitRate := cacheHitRate;
          ScanResult.incrementalScan := incrementalScan |}.

Definition asScanResult (v : JSON.Value) : option ScanResult.t :=
  scanId ← required "scanId" text v;
  version ← required "version" text v;
  startedAt ← required "startedAt" text v;
  completedAt ← required "completedAt" text v;
  duration ← required "duration" number v;
  target ← required "target" text v;
  filesScanned ← required "filesScanned" natural v;
  linesOfCode ← required "linesOfCode" natural v;
  toolsRun ← required "toolsRun" (items asToolRun) v;
  findings ← required "findings" (items asFinding) v;
  suppressed ← required "suppressed" (items asFinding) v;
  stats ← required "stats" asStats v;
  performance ← required "performance" asPerformance v;
  Some {| ScanResult.scanId := scanId; ScanResult.version := version;
          ScanResult.startedAt := startedAt;
          ScanResult.completedAt := completedAt;
          ScanResult.duration := duration; ScanResult.target := target;
          ScanResult.filesScanned := filesScanned;
          ScanResult.linesOfCode := linesOfCode;
          ScanResult.toolsRun := toolsRun; ScanResult.findings := findings;
          ScanResult.suppressed := suppressed; ScanResult.stats := stats;
          ScanResult.performance := performance |}.

(** [JSON.parse(text)], read as a result. *)
Definition parse (text : string) : option ScanResult.t :=
  JSON.parse text ≫= asScanResult.

End WithNumbers.

(** The numbers of a result that need not be integers. *)
Definition rationalsOf (f : Finding) : list Q :=
  confidence f :: option_list (falsePositiveProbability f).

Definition rationals (r : ScanResult.t) : list Q :=
  ScanResult.duration r ::
  ScanResult.cacheHitRate (ScanResult.performance r) ::
  (ToolRun.duration <$> ScanResult.toolsRun r) ++
  (ScanResult.findings r ≫= rationalsOf) ++
  (ScanResult.suppressed r ≫= rationalsOf).

End JsonReporter.

(** A writing and a reading of the numbers that are not negative and
    have two decimals at most, for the sample results: the decimal
    [Number::toString] writes for them, and its value. *)
Module Decimal.

Definition toString (q : Q) : string :=
  let hundredths := (Qnum q * 100) `div` Z.pos (Qden q) in
  let whole := hundredths `div` 100 in
  let cents := hundredths `mod` 100 in
  if cents =? 0 then pretty whole
  else if cents `mod` 10 =? 0 then pretty whole +:+ "." +:+ pretty (cents `div` 10)
  else pretty whole +:+ "." +:+ (if cents <? 10 then "0" else "") +:+ pretty cents.

Fixpoint power10 (s : string) : positive :=
  match s with
  | "" => 1%positive
  | String _ s' => (10 * power10 s')%positive
  end.

Definition toNumber (s : string) : option Q :=
  match Js.split "." s with
  | [whole] => (λ n, Qmake (Z.of_N n) 1) <$> JsonReporter.readNatural whole
  | [whole; decimals] =>
      n ← JsonReporter.readNatural whole;
      d ← JsonReporter.readNatural decimals;
      Some (Qred (Qmake (Z.of_N n * Z.pos (power10 decimals) + Z.of_N d)
                    (power10 decimals)))
  | _ => None
  end.

(** The result of a sample scan of two adapters, one of which fails. *)
Definition scanned : ScanResult.t :=
  ScanOrchestrator.scan Sample.host
    [Sample.returning [Sample.first; Sample.second]; Sample.probeThrows]
    Sample.config [0; 1]%nat.

End Decimal.

(** ** Vocabulary of the statements about JSON *)

(** A value [JSON.stringify] can be given: its numbers are written by
    number literals, and no object has two members of one key. *)
Fixpoint wellFormed (v : JSON.Value) : Prop :=
  match v with
  | JSON.Number literal => JSON.isNumberLiteral literal = true
  | JSON.Array items =>
      (fix all (l : list JSON.Value) : Prop :=
         match l with
         | [] => True
         | item :: l' => wellFormed item ∧ all l'
         end) items
  | JSON.Object members =>
      NoDup members.*1 ∧
      (fix all (l : list (string * JSON.Value)) : Prop :=
         match l with
         | [] => True
         | member :: l' => wellFormed member.2 ∧ all l'
         end) members
  | _ => True
  end.

(** The nodes of a value, which bound the nesting of the calls of the
    reader. *)
Fixpoint nodes (v : JSON.Value) : nat :=
  match v with
  | JSON.Array items =>
      S ((fix sum (l : list JSON.Value) : nat :=
            match l with
            | [] => 0
            | item :: l' => S (nodes item) + sum l'
            end) items)
  | JSON.Object members =>
      S ((fix sum (l : list (string * JSON.Value)) : nat :=
            match l with
            | [] => 0
            | member :: l' => S (nodes member.2) + sum l'
            end) members)
  | _ => 1
  end%nat.

(** White space only. *)
Definition blank (s : string) : bool :=
  String.eqb (JSON.skipWhitespace s) "".

(** What may follow a number literal: nothing, or a character no literal
    is written with. *)
Definition delimited (s : string) : bool :=
  match s with
  | "" => true
  | String c _ => negb (JSON.isNumberChar c)
  end.

(** Every character of a string passes a test. *)
Fixpoint every (p : ascii → bool) (s : string) : bool :=
  match s with
  | "" => true
  | String c s' => p c && every p s'
  end.

(** The characters a value can begin with. *)
Definition opensValue (c : ascii) : bool :=
  Ascii.eqb c "n" || Ascii.eqb c "t" || Ascii.eqb c "f" ||
  Ascii.eqb c Js.DQUOTE || Ascii.eqb c "[" || Ascii.eqb c "{" ||
  Ascii.eqb c "-" || JSON.isDigit c.

(** The items of an array after the first and the members of an object
    after the first, as [JSON.serialize] writes them. *)
Definition moreItems (inner : string) : list JSON.Value → string :=
  fix more (l : list JSON.Value) : string :=
    match l with
    | [] => ""
    | item :: l' =>
        "," +:+ Js.nl +:+ inner +:+ JSON.serialize inner item +:+ more l'
    end.

Definition moreMembers (inner : string) : list (string * JSON.Value) → string :=
  fix more (l : list (string * JSON.Value)) : string :=
    match l with
    | [] => ""
    | (k, item) :: l' =>
        "," +:+ Js.nl +:+ inner +:+ JSON.quote k +:+ ": " +:+
        JSON.serialize inner item +:+ more l'
    end.

(** What the reader makes of one written value, whatever follows it. *)
Definition readsBack (v : JSON.Value) : Prop :=
  ∀ indent rest fuel,
    blank indent = true → delimited rest = true → (nodes v ≤ fuel)%nat →
    JSON.parseValue fuel (JSON.serialize indent v +:+ rest) = Some (v, rest).

(** A number is restored when it is written as a number literal that is
    read as that number again. *)
Definition restored (numberToString : Q → string)
    (stringToNumber : string → option Q) (q : Q) : Prop :=
  JSON.isNumberLiteral (numberToString q) = true ∧
  stringToNumber (numberToString q) = Some q.

(** * Insertion-ordered maps *)

Section JsMap.
Context {V : Type}.
Implicit Types (m : Js.Map V) (k : string) (v : V).

Lemma has_true m k : Js.has m k = true ↔ k ∈ Js.keys m.
Proof.
  induction m as [|[k' v'] m IH]; simpl.
  - split; [done | by intros ?%elem_of_nil].
  - rewrite orb_true_iff, IH, String.eqb_eq. unfold Js.keys. simpl.
    rewrite elem_of_cons. intuition congruence.
Qed.

Lemma has_false m k : Js.has m k = false ↔ k ∉ Js.keys m.
Proof. rewrite <- has_true. by destruct (Js.has m k). Qed.

Lemma keys_set m k v :
  Js.keys (Js.set m k v) = if Js.has m k then Js.keys m else Js.keys m ++ [k].
Proof.
  induction m as [|[k' v'] m IH]; simpl; [done|].
  destruct (String.eqb_spec k' k) as [->|Hne]; simpl; [done|].
  unfold Js.keys in *. simpl. rewrite IH. by destruct (Js.has m k).
Qed.

Lemma get_set m k v k' :
  Js.get (Js.set m k v) k' = if decide (k = k') then Some v else Js.get m k'.
Proof.
  induction m as [|[k0 v0] m IH]; simpl.
  - destruct (String.eqb_spec k k'); by case_decide.
  - destruct (String.eqb_spec k0 k) as [->|Hne]; simpl.
    + destruct (String.eqb_spec k k'); by case_decide.
    + rewrite IH. destruct (String.eqb_spec k0 k'); [|done].
      case_decide; [congruence | done].
Qed.

Lemma get_is_Some m k : is_Some (Js.get m k) ↔ k ∈ Js.keys m.
Proof.
  induction m as [|[k' v'] m IH]; simpl.
  - split; [by intros [? ?] | by intros ?%elem_of_nil].
  - unfold Js.keys in *. simpl. rewrite elem_of_cons.
    destruct (String.eqb_spec k' k) as [->|Hne]; [by split; eauto|].
    rewrite IH. intuition congruence.
Qed.

Lemma get_elem_of m k v : Js.get m k = Some v → (k, v) ∈ m.
Proof.
  induction m as [|[k' v'] m IH]; simpl; [done|].
  destruct (String.eqb_spec k' k) as [->|Hne].
  - intros [= ->]. left.
  - intros ?. right. auto.
Qed.

Lemma elem_of_get m k v : NoDup (Js.keys m) → (k, v) ∈ m → Js.get m k = Some v.
Proof.
  unfold Js.keys. induction m as [|[k' v'] m IH]; simpl.
  - by intros _ ?%elem_of_nil.
  - rewrite NoDup_cons. intros [Hk Hm] [[= -> ->]|Hin]%elem_of_cons.
    + by rewrite String.eqb_refl.
    + destruct (String.eqb_spec k' k) as [->|Hne]; [|auto].
      destruct Hk. apply list_elem_of_fmap. by exists (k, v).
Qed.

Lemma elem_of_values m v :
  NoDup (Js.keys m) → v ∈ Js.values m ↔ ∃ k, Js.get m k = Some v.
Proof.
  intros Hnd. unfold Js.values. rewrite list_elem_of_fmap. split.
  - intros [[k v'] [-> Hin]]. exists k. by apply elem_of_get.
  - intros [k Hk]. exists (k, v). split; [done | by apply get_elem_of].
Qed.
End JsMap.

(** * First-seen order *)

Section FirstSeen.
Context `{EqDecision K}.
Implicit Types (ks : list K).

Lemma firstSeen_snoc ks k :
  firstSeen (ks ++ [k]) = if decide (k ∈ ks) then firstSeen ks else firstSeen ks ++ [k].
Proof.
  unfold firstSeen. rewrite reverse_snoc. simpl.
  destruct (decide_rel elem_of k (reverse ks)) as [Hin|Hin];
    rewrite elem_of_reverse in Hin; case_decide; try done.
  by rewrite reverse_cons.
Qed.

Lemma elem_of_firstSeen ks k : k ∈ firstSeen ks ↔ k ∈ ks.
Proof. unfold firstSeen. by rewrite elem_of_reverse, elem_of_remove_dups, elem_of_reverse. Qed.

Lemma NoDup_firstSeen ks : NoDup (firstSeen ks).
Proof. unfold firstSeen. rewrite reverse_Permutation. apply NoDup_remove_dups. Qed.

Lemma firstSeen_nil : firstSeen (@nil K) = [].
Proof. done. Qed.
End FirstSeen.

(** * The rule descriptors of the SARIF report *)

Lemma rulesMap_spec (kept : list Finding) :
  let m := foldl SarifReporter.rulesStep [] kept in
  Js.keys m = firstSeen (ruleId <$> kept) ∧
  ∀ k f, Js.get m k = Some f → ruleId f = k ∧ firstOfRule kept f.
Proof.
  induction kept as [|x kept IH] using rev_ind; simpl.
  - split; [done | intros ?? [=]].
  - rewrite foldl_snoc, fmap_app. simpl. rewrite firstSeen_snoc.
    destruct IH as [IHk IHg].
    set (m := foldl SarifReporter.rulesStep [] kept) in *.
    unfold SarifReporter.rulesStep.
    assert (Hmono : ∀ k f, ruleId f = k ∧ firstOfRule kept f →
                           ruleId f = k ∧ firstOfRule (kept ++ [x]) f).
    { intros k f [Hk (before & after & -> & Hb)]. split; [done|].
      exists before, (after ++ [x]). by rewrite <- app_assoc. }
    destruct (Js.has m (ruleId x)) eqn:Hhas; simpl.
    + apply has_true in Hhas. rewrite IHk, elem_of_firstSeen in Hhas.
      rewrite decide_True by done. split; [done|]. intros k f Hg. auto.
    + assert (Hnin : ruleId x ∉ ruleId <$> kept).
      { apply has_false in Hhas. by rewrite IHk, elem_of_firstSeen in Hhas. }
      rewrite decide_False by done. split.
      * by rewrite keys_set, Hhas, IHk.
      * intros k f. rewrite get_set. case_decide as Hk.
        -- intros [= <-]. split; [done|]. exists kept, []. done.
        -- intros Hg. auto.
Qed.

Lemma rulesMap_ids (kept : list Finding) :
  ruleId <$> Js.values (foldl SarifReporter.rulesStep [] kept)
  = firstSeen (ruleId <$> kept).
Proof.
  destruct (rulesMap_spec kept) as [Hk Hg]. simpl in *.
  rewrite <- Hk. set (m := foldl SarifReporter.rulesStep [] kept) in *.
  assert (Hnd : NoDup (Js.keys m)) by (rewrite Hk; apply NoDup_firstSeen).
  assert (Hall : Forall (λ kf, ruleId kf.2 = kf.1) m).
  { apply Forall_forall. intros [k f] Hin. simpl.
    by apply (elem_of_get _ _ _ Hnd), Hg in Hin as [? _]. }
  unfold Js.values, Js.keys. clear -Hall.
  induction Hall as [|[k f] m H ? IH]; [done|]. rewrite !fmap_cons. cbn [fst snd] in *. by rewrite H, IH.
Qed.

Lemma size_firstSeen (ks : list string) :
  length (firstSeen ks) = size (list_to_set (C := gset string) ks).
Proof.
  rewrite <- (size_list_to_set (C := gset string)) by apply NoDup_firstSeen.
  f_equal. apply set_eq. intros k.
  by rewrite !elem_of_list_to_set, elem_of_firstSeen.
Qed.

(** C7. What [SarifReporter.generate] emits is the serialisation of a
    report with exactly one run. The rules of the run carry pairwise
    distinct ids, the ids are the rule ids of the kept findings, so there
    are as many descriptors as distinct rule ids; each descriptor takes its
    name from the rule id and its short description, full description, help
    text, tags, precision and score from the first kept finding with its
    rule id. The results are the kept findings one by one, in order, so
    there are as many as kept findings: each entry has the rule id of its
    finding, the level of its severity, its title as message, and one
    location with its file, line, columns and snippet. *)
Theorem sarif_rules_and_results (stringify : Sarif.Report → string)
    (result : ScanResult.t) :
  let kept := ScanResult.findings result in
  ∃ run,
    SarifReporter.generate stringify result
    = stringify {| Sarif.version := "2.1.0";
                   Sarif.schema := "https://json.schemastore.org/sarif-2.1.0.json";
                   Sarif.runs := [run] |} ∧
    (let rules := Sarif.rules (Sarif.driver (Sarif.tool run)) in
     NoDup (Sarif.id <$> rules) ∧
     (∀ rid, rid ∈ Sarif.id <$> rules ↔ rid ∈ ruleId <$> kept) ∧
     length rules = size (list_to_set (C := gset string) (ruleId <$> kept)) ∧
     (∀ rule, rule ∈ rules →
        ∃ f, firstOfRule kept f ∧
             Sarif.id rule = ruleId f ∧
             Sarif.name rule = SarifReporter.toRuleName (ruleId f) ∧
             Sarif.shortDescription rule = {| Sarif.text := title f |} ∧
             Sarif.fullDescription rule = {| Sarif.text := description f |} ∧
             Sarif.helpText (Sarif.help rule) = summary (remediation f) ∧
             Sarif.markdown (Sarif.help rule) = SarifReporter.formatHelpMarkdown f ∧
             Sarif.tags (Sarif.properties rule)
             = [categoryName (category f); "security"] ∧
             Sarif.precision (Sarif.properties rule)
             = SarifReporter.mapPrecision (confidence f) ∧
             Sarif.securitySeverity (Sarif.properties rule)
             = SarifReporter.mapSecuritySeverity (severity f))) ∧
    Forall2 (λ f entry,
               Sarif.ruleId entry = ruleId f ∧
               Sarif.level entry = SarifReporter.mapLevel (severity f) ∧
               Sarif.text (Sarif.message entry) = title f ∧
               ∃ location,
                 Sarif.locations entry = [location] ∧
                 let place := Sarif.physicalLocation location in
                 Sarif.uri (Sarif.artifactLocation place) = file f ∧
                 Sarif.startLine (Sarif.region place) = line f ∧
                 Sarif.startColumn (Sarif.region place) = column f ∧
                 Sarif.endLine (Sarif.region place) = endLine f ∧
                 Sarif.endColumn (Sarif.region place) = endColumn f ∧
                 Sarif.text (Sarif.snippet (Sarif.region place)) = snippet f)
            kept (Sarif.results run) ∧
    length (Sarif.results run) = length kept.
Proof.
  intros kept. eexists. split; [reflexivity|].
  cbn [Sarif.tool Sarif.driver Sarif.rules Sarif.results].
  fold kept. unfold SarifReporter.extractRules.
  assert (Hids : Sarif.id <$> (SarifReporter.toRule <$>
                   Js.values (foldl SarifReporter.rulesStep [] kept))
                 = firstSeen (ruleId <$> kept)).
  { rewrite <- list_fmap_compose. apply rulesMap_ids. }
  split_and!.
  - rewrite Hids. apply NoDup_firstSeen.
  - intros rid. by rewrite Hids, elem_of_firstSeen.
  - rewrite <- size_firstSeen, <- Hids. by rewrite !length_fmap.
  - intros rule (f & -> & Hf)%list_elem_of_fmap.
    destruct (rulesMap_spec kept) as [Hk Hg]. simpl in Hk, Hg.
    assert (Hnd : NoDup (Js.keys (foldl SarifReporter.rulesStep [] kept)))
      by (rewrite Hk; apply NoDup_firstSeen).
    apply (elem_of_values _ _ Hnd) in Hf as [k Hget].
    apply Hg in Hget as [_ Hfirst]. by exists f.
  - apply Forall2_fmap_r, Forall2_same_length_lookup. split; [done|].
    intros i f g Hf Hg. assert (g = f) as -> by congruence.
    split_and!; [done..|]. by eexists.
  - by rewrite length_fmap.
Qed.

(** * The statistics block *)

Section Buckets.
Context `{Countable K}.
Implicit Types (k : K) (ks : list K) (m : gmap K nat).

Lemma sum_delete m k n :
  m !! k = Some n → Stats.sum m = (n + Stats.sum (delete k m))%nat.
Proof.
  intros Hk. unfold Stats.sum.
  apply (map_fold_delete_L (λ _ n acc, (n + acc)%nat)); [|done].
  intros. lia.
Qed.

Lemma sum_incr m k n :
  m !! k = Some n → Stats.sum (Stats.incr k m) = S (Stats.sum m).
Proof.
  intros Hk. unfold Stats.incr.
  rewrite (sum_delete (alter S k m) k (S n)), (sum_delete m k n) by
    (done || by rewrite lookup_alter_eq, Hk).
  simpl. do 3 f_equal. apply map_eq. intros j.
  destruct (decide (k = j)) as [->|Hne].
  - by rewrite !lookup_delete_eq.
  - by rewrite !lookup_delete_ne, lookup_alter_ne.
Qed.

Lemma lookup_zeros ks k :
  Stats.zeros ks !! k = if decide (k ∈ ks) then Some 0%nat else None.
Proof.
  unfold Stats.zeros. induction ks as [|k' ks IH].
  - rewrite fmap_nil, list_to_map_nil, lookup_empty.
    case_decide as Hin; [by apply elem_of_nil in Hin | done].
  - rewrite fmap_cons, list_to_map_cons.
    destruct (decide (k' = k)) as [->|Hne].
    + rewrite lookup_insert_eq, decide_True; [done | left].
    + rewrite lookup_insert_ne, IH by done.
      apply option_eq. intros n. repeat case_decide; try done;
        rewrite elem_of_cons in *; intuition congruence.
Qed.

Lemma sum_zeros ks : Stats.sum (Stats.zeros ks) = 0%nat.
Proof.
  unfold Stats.sum.
  apply (map_fold_weak_ind
           (λ r (m : gmap K nat), (∀ k n, m !! k = Some n → n = 0%nat) → r = 0%nat)).
  - done.
  - intros k n m r Hk IH Hall.
    rewrite (Hall k n) by apply lookup_insert_eq. simpl. apply IH.
    intros k' n' Hk'. apply (Hall k'). rewrite lookup_insert_ne; [done|].
    intros ->. congruence.
  - intros k n. rewrite lookup_zeros. case_decide; congruence.
Qed.

(** The buckets after the loop has read [xs], each through [key]. *)
Lemma buckets_loop {A} (key : A → K) ks (xs : list A) :
  (∀ k, k ∈ ks) →
  let m := foldl (λ m x, Stats.incr (key x) m) (Stats.zeros ks) xs in
  (∀ k, m !! k = Some (length (filter (λ x, key x = k) xs))) ∧
  Stats.sum m = length xs.
Proof.
  intros Hks. induction xs as [|x xs IH] using rev_ind; simpl.
  - split; [|apply sum_zeros].
    intros k. by rewrite lookup_zeros, decide_True.
  - rewrite foldl_snoc. destruct IH as [IHl IHs]. split.
    + intros k. unfold Stats.incr. rewrite filter_app, length_app.
      destruct (decide (key x = k)) as [<-|Hne].
      * rewrite lookup_alter_eq, IHl. simpl.
        rewrite filter_cons_True by done. simpl. f_equal. lia.
      * rewrite lookup_alter_ne, IHl by done.
        rewrite filter_cons_False by done. simpl. f_equal. lia.
    + rewrite (sum_incr _ _ _ (IHl (key x))), IHs, length_app. simpl. lia.
Qed.
End Buckets.

Lemma statsStep_loop (findings : list Finding) (b : Buckets) :
  foldl statsStep b findings =
  (foldl (λ m f, Stats.incr (severity f) m) b.1.1 findings,
   foldl (λ m f, Stats.incr (category f) m) b.1.2 findings,
   foldl (λ m f, Stats.incr (source f) m) b.2 findings).
Proof.
  revert b. induction findings as [|f findings IH]; intros [[s c] o]; [done|].
  simpl. by rewrite IH.
Qed.

Lemma all_severities k : k ∈ allSeverities.
Proof. destruct k; compute_done. Qed.

Lemma all_categories k : k ∈ allCategories.
Proof. destruct k; compute_done. Qed.

Lemma all_sources k : k ∈ allSources.
Proof. destruct k; compute_done. Qed.

(** C4. In the statistics [calculateStats] returns for the kept findings,
    every severity, category and source has a bucket; a bucket starts at
    zero and holds the number of kept findings of its key (one increment
    per matching finding); [total] is the number of kept findings, and the
    buckets of [bySeverity] add up to [total], as do those of [byCategory]
    and those of [bySource]. *)
Theorem stats_buckets_and_totals (kept : list Finding) :
  let stats := calculateStats kept in
  (∀ k, Stats.bySeverity stats !! k
        = Some (length (filter (λ f, severity f = k) kept))) ∧
  (∀ k, Stats.byCategory stats !! k
        = Some (length (filter (λ f, category f = k) kept))) ∧
  (∀ k, Stats.bySource stats !! k
        = Some (length (filter (λ f, source f = k) kept))) ∧
  Stats.bySeverity (calculateStats []) = Stats.zeros allSeverities ∧
  Stats.byCategory (calculateStats []) = Stats.zeros allCategories ∧
  Stats.bySource (calculateStats []) = Stats.zeros allSources ∧
  Stats.total stats = length kept ∧
  Stats.sum (Stats.bySeverity stats) = Stats.total stats ∧
  Stats.sum (Stats.byCategory stats) = Stats.total stats ∧
  Stats.sum (Stats.bySource stats) = Stats.total stats.
Proof.
  unfold calculateStats. rewrite statsStep_loop. simpl.
  destruct (buckets_loop severity allSeverities kept all_severities) as [? ?].
  destruct (buckets_loop category allCategories kept all_categories) as [? ?].
  destruct (buckets_loop source allSources kept all_sources) as [? ?].
  repeat split; done.
Qed.

(** * The orchestrator *)

Import ScanOrchestrator.

Lemma runTask_effect host config st i adapter :
  let e := taskEffect host config i adapter in
  toolsRun (runTask host config st i adapter) = toolsRun st ++ toolsRun e ∧
  allFindings (runTask host config st i adapter) = allFindings st ++ allFindings e ∧
  calls (runTask host config st i adapter) = calls st ++ calls e.
Proof.
  unfold taskEffect, runTask.
  destruct (ScannerAdapter.isAvailable adapter) as [[]|];
    [destruct (ScannerAdapter.scan adapter config)|..]; simpl;
    by rewrite ?app_nil_r.
Qed.

Lemma runAll_from host config adapters order st :
  let final :=
    foldl (λ st i,
             match adapters !! i with
             | Some adapter => runTask host config st i adapter
             | None => st
             end) st order in
  let effects := (λ t, taskEffect host config t.1 t.2) <$> settled adapters order in
  toolsRun final = toolsRun st ++ effects ≫= toolsRun ∧
  allFindings final = allFindings st ++ effects ≫= allFindings ∧
  calls final = calls st ++ effects ≫= calls.
Proof.
  revert st. induction order as [|i order IH]; intros st; simpl.
  - by rewrite !app_nil_r.
  - unfold settled in *. simpl. destruct (adapters !! i) as [adapter|]; simpl.
    + specialize (IH (runTask host config st i adapter)). simpl in IH.
      destruct IH as (-> & -> & ->).
      destruct (runTask_effect host config st i adapter) as (-> & -> & ->).
      by rewrite <- !app_assoc.
    + apply IH.
Qed.

Lemma runAll_effects host config adapters order :
  let st := runAll host config adapters order in
  let effects := (λ t, taskEffect host config t.1 t.2) <$> settled adapters order in
  toolsRun st = effects ≫= toolsRun ∧
  allFindings st = effects ≫= allFindings ∧
  calls st = effects ≫= calls.
Proof. apply (runAll_from host config adapters order initial). Qed.

Lemma taskEffect_findings host config i adapter :
  allFindings (taskEffect host config i adapter) = produced config adapter.
Proof.
  unfold taskEffect, runTask, produced.
  destruct (ScannerAdapter.isAvailable adapter) as [[]|];
    [destruct (ScannerAdapter.scan adapter config)|..]; done.
Qed.

Lemma runAll_findings host config adapters order :
  allFindings (runAll host config adapters order)
  = settled adapters order ≫= (λ t, produced config t.2).
Proof.
  destruct (runAll_effects host config adapters order) as (_ & -> & _).
  induction (settled adapters order) as [|t ts IH]; [done|].
  rewrite fmap_cons, !bind_cons, IH. by rewrite taskEffect_findings.
Qed.

(** C1, as the code has it. [scan] hands the raw findings (the findings
    of the adapters whose probe and scan both succeeded, in the order their
    tasks settle) to the deduplicator and the deduplicated findings to the
    statistics; it does not run the suppression engine. The result holds
    the deduplicated findings, statistics whose [total] is their number, an
    empty [suppressed] list and a [suppressedCount] of zero, the length of
    that list. *)
Theorem scan_deduplicates_then_counts host adapters config order :
  let r := scan host adapters config order in
  let raw := settled adapters order ≫= (λ t, produced config t.2) in
  ScanResult.findings r = deduplicateFindings raw ∧
  ScanResult.stats r = calculateStats (ScanResult.findings r) ∧
  Stats.total (ScanResult.stats r) = length (ScanResult.findings r) ∧
  ScanResult.suppressed r = [] ∧
  Stats.suppressedCount (ScanResult.stats r) = 0%nat ∧
  Stats.suppressedCount (ScanResult.stats r) = length (ScanResult.suppressed r).
Proof.
  simpl. rewrite runAll_findings.
  repeat split; unfold calculateStats; by destruct (foldl _ _ _) as [[? ?] ?].
Qed.

(** C1, as stated, fails: on an adapter that returns a finding the engine
    suppresses (a [MOCK_] prefix), the result of [scan] is not the result
    of the run through the engine, whatever the globs match and the files
    hold. *)
Lemma scan_skips_the_engine :
  ¬ ∃ isMatch readFile,
      scan Sample.host [Sample.returning [Sample.mockSecret]] Sample.config [0%nat]
      = scanThroughEngine isMatch readFile Sample.host
          [Sample.returning [Sample.mockSecret]] Sample.config [0%nat].
Proof.
  intros (isMatch & readFile & Heq).
  apply (f_equal ScanResult.suppressed) in Heq.
  vm_compute in Heq. discriminate Heq.
Qed.

(** * Availability probes *)

Lemma taskEffect_record host config i adapter :
  ∃ r, toolsRun (taskEffect host config i adapter) = [r] ∧ recorded (i, adapter) r.
Proof.
  unfold taskEffect, runTask, recorded. cbn [fst snd].
  destruct (ScannerAdapter.isAvailable adapter) as [[]|];
    [destruct (ScannerAdapter.scan adapter config)|..];
    eexists; (split; [reflexivity|]); unfold status; simpl;
    repeat split; congruence.
Qed.

Lemma taskEffect_calls host config i adapter j :
  ScanCalled j ∈ calls (taskEffect host config i adapter) →
  j = i ∧ ScannerAdapter.isAvailable adapter = Resolved true.
Proof.
  unfold taskEffect, runTask.
  destruct (ScannerAdapter.isAvailable adapter) as [[]|];
    [destruct (ScannerAdapter.scan adapter config)|..]; simpl;
    rewrite ?elem_of_cons, ?elem_of_nil; intuition congruence.
Qed.

(** C5, as the code has it. Every task that settles leaves one record,
    in the order the tasks settle. A probe that resolves to [false] leaves
    the record of an unavailable tool (exit code [-1], error
    [Tool not available]); a probe that throws leaves the record of a
    failure (exit code [1], the thrown message), as a throwing scan does.
    In both cases the adapter's [scan] is not called: a call of [scan]
    implies that the probe resolved to [true]. *)
Theorem probe_outcomes_recorded host adapters config order :
  let st := runAll host config adapters order in
  ScanResult.toolsRun (scan host adapters config order) = toolsRun st ∧
  Forall2 recorded (settled adapters order) (toolsRun st) ∧
  ∀ i adapter,
    adapters !! i = Some adapter →
    ScanCalled i ∈ calls st →
    ScannerAdapter.isAvailable adapter = Resolved true.
Proof.
  intros st. split; [done|].
  destruct (runAll_effects host config adapters order) as (Ht & _ & Hc).
  fold st in Ht, Hc. rewrite Ht, Hc. clear Ht Hc. split.
  - induction (settled adapters order) as [|[i a] ts IH]; [constructor|].
    rewrite fmap_cons, bind_cons. cbn [fst snd].
    destruct (taskEffect_record host config i a) as (r & -> & Hr).
    by constructor.
  - intros i adapter Hi (e & Hin & (t & -> & Ht)%list_elem_of_fmap)%list_elem_of_bind.
    apply taskEffect_calls in Hin as [-> Hav].
    unfold settled in Ht. apply list_elem_of_omap in Ht as (j & _ & Hj).
    destruct (adapters !! j) as [a|] eqn:Ha; simplify_eq/=. congruence.
Qed.

(** C5, as stated, fails: the record of a probe that throws is not the
    record of an unavailable tool. *)
Lemma thrown_probe_recorded_as_failure :
  let run := scan Sample.host [Sample.probeThrows] Sample.config [0%nat] in
  (ToolRun.exitCode <$> ScanResult.toolsRun run) = [1] ∧
  (ToolRun.error <$> ScanResult.toolsRun run) = [Some "spawn EACCES"] ∧
  ¬ Forall (λ r, status r = unavailable) (ScanResult.toolsRun run).
Proof.
  repeat split. intros Hall. apply Forall_cons_1 in Hall as [Hst _].
  vm_compute in Hst. discriminate Hst.
Qed.

(** Three adapters settling in the order 2, 0, 1. *)
Lemma probe_outcomes_sample :
  let adapters := [Sample.notInstalled; Sample.probeThrows; Sample.returning [Sample.second]] in
  let st := runAll Sample.host Sample.config adapters [2%nat; 0%nat; 1%nat] in
  (status <$> toolsRun st) = [succeeded; unavailable; failed] ∧
  (ScanCalled 0 ∉ calls st) ∧ (ScanCalled 1 ∉ calls st).
Proof.
  intros adapters st.
  destruct (probe_outcomes_recorded Sample.host adapters Sample.config
              [2%nat; 0%nat; 1%nat]) as (_ & _ & Hcalls).
  split; [reflexivity|]. split; intros Hin.
  - by specialize (Hcalls 0%nat Sample.notInstalled eq_refl Hin).
  - by specialize (Hcalls 1%nat Sample.probeThrows eq_refl Hin).
Defined.

(** * The suppression engine *)

Section Engine.
Import FalsePositiveRuleEngine.
Variable isMatch : string → string → bool.
Variable readFile : string → option string.
Variable engine : FalsePositiveRuleEngine.t.

Local Abbreviation verdict := (shouldSuppress isMatch readFile engine).
Local Abbreviation suppresses := (λ f, suppress (verdict f) = true).
Local Abbreviation annotate := (λ f, withSuppressedBy f (reason (verdict f))).

Lemma customRule_reason rules finding why :
  customRule isMatch rules finding = Some why →
  why ∈ ScanConfig.reason <$> rules.
Proof.
  induction rules as [|rule rules IH]; [done|].
  rewrite fmap_cons. cbn [customRule].
  destruct (_ && _); [intros [= <-]; left | intros ?; right; auto].
Qed.

Lemma stage_reason (why : string) :
  In why stageReasons → why ∈ stageReasons.
Proof. apply list_elem_of_In. Qed.

(** A verdict either keeps the finding or suppresses it for a reason,
    which a built-in stage or a custom rule gives. *)
Lemma shouldSuppress_cases finding :
  verdict finding = keep ∨
  ∃ why, verdict finding = suppressFor why ∧
         (why ∈ stageReasons ∨ why ∈ ScanConfig.reason <$> customPatterns engine).
Proof.
  unfold shouldSuppress.
  destruct (customRule _ _ _) as [why|] eqn:Hrule.
  { destruct (matchesExclusionPattern _ _ _);
      right; eexists; (split; [reflexivity|]);
      [left; apply stage_reason; simpl; tauto
      | right; by apply customRule_reason with finding]. }
  repeat match goal with
         | |- context [if ?b then suppressFor _ else _] => destruct b
         end;
    first [ by left
          | right; eexists; (split; [reflexivity|]);
            left; apply stage_reason; simpl; tauto ].
Qed.

Lemma suppress_has_reason finding :
  suppresses finding → ∃ why, reason (verdict finding) = Some why.
Proof.
  destruct (shouldSuppress_cases finding) as [->|(why & -> & _)]; [done|].
  by exists why.
Qed.

Lemma filter_from acc input :
  let r := foldl (filterStep isMatch readFile engine) acc input in
  findings r = findings acc ++ filter (λ f, ¬ suppresses f) input ∧
  suppressed r = suppressed acc ++ (annotate <$> filter suppresses input).
Proof.
  revert acc. induction input as [|f input IH]; intros acc; simpl.
  - by rewrite !app_nil_r.
  - destruct (IH (filterStep isMatch readFile engine acc f)) as [-> ->].
    unfold filterStep. destruct (suppress (verdict f)) eqn:Hs; simpl.
    + rewrite filter_cons_False by (intros Hn; by apply Hn).
      rewrite filter_cons_True by done. by rewrite fmap_cons, <- app_assoc.
    + rewrite filter_cons_True by congruence.
      rewrite filter_cons_False by congruence. by rewrite <- app_assoc.
Qed.

Lemma filterFindings_spec input :
  findings (filterFindings isMatch readFile engine input)
  = filter (λ f, ¬ suppresses f) input ∧
  suppressed (filterFindings isMatch readFile engine input)
  = annotate <$> filter suppresses input.
Proof. apply (filter_from {| findings := []; suppressed := [] |} input). Qed.


(** C10. The kept list is the input with the suppressed findings
    left out: a kept finding is the input finding, unchanged. A suppressed
    entry agrees with the input finding it comes from on every field but
    [suppressedBy], which holds the reason of the verdict: the reason of
    the built-in stage or of the custom rule that matched. *)
Theorem filter_frame (input : list Finding) :
  let r := filterFindings isMatch readFile engine input in
  findings r = filter (λ f, ¬ suppresses f) input ∧
  Forall2
    (λ f s,
       ∃ why,
         verdict f = suppressFor why ∧
         (why ∈ stageReasons ∨ why ∈ ScanConfig.reason <$> customPatterns engine) ∧
         suppressedBy s = Some why ∧
         id s = id f ∧ ruleId s = ruleId f ∧ source s = source f ∧
         severity s = severity f ∧ category s = category f ∧
         cwe s = cwe f ∧ owasp s = owasp f ∧ file s = file f ∧
         line s = line f ∧ column s = column f ∧ endLine s = endLine f ∧
         endColumn s = endColumn f ∧ title s = title f ∧
         description s = description f ∧ snippet s = snippet f ∧
         remediation s = remediation f ∧ confidence s = confidence f ∧
         falsePositiveProbability s = falsePositiveProbability f ∧
         detectedAt s = detectedAt f ∧ firstSeenAt s = firstSeenAt f)
    (filter suppresses input) (suppressed r).
Proof.
  cbv zeta. destruct (filterFindings_spec input) as [-> ->]. split; [done|].
  apply Forall2_fmap_r, Forall_Forall2_diag, Forall_forall.
  intros f [Hf _]%list_elem_of_filter.
  destruct (shouldSuppress_cases f) as [Hv|(why & Hv & Hwhy)].
  - by rewrite Hv in Hf.
  - exists why. rewrite Hv. simpl. split_and!; done.
Qed.
End Engine.

(** * The mapping tables of the SARIF reporter *)

Lemma ge_true (a b : Q) : Js.ge a b = true ↔ (b <= a)%Q.
Proof. apply Qle_bool_iff. Qed.

Lemma ge_false (a b : Q) : Js.ge a b = false ↔ (a < b)%Q.
Proof.
  unfold Js.ge. split.
  - intros Hf. apply Qnot_le_lt. intros Hle. apply Qle_bool_iff in Hle. congruence.
  - intros Hlt. destruct (Qle_bool b a) eqn:Hb; [|done].
    apply Qle_bool_iff in Hb. by apply Qlt_not_le in Hlt.
Qed.

Lemma mapPrecision_buckets (c : Q) :
  ((9 # 10 <= c)%Q → SarifReporter.mapPrecision c = "very-high") ∧
  ((3 # 4 <= c)%Q → (c < 9 # 10)%Q → SarifReporter.mapPrecision c = "high") ∧
  ((1 # 2 <= c)%Q → (c < 3 # 4)%Q → SarifReporter.mapPrecision c = "medium") ∧
  ((c < 1 # 2)%Q → SarifReporter.mapPrecision c = "low").
Proof.
  unfold SarifReporter.mapPrecision. split_and!.
  - intros H9. apply ge_true in H9. by rewrite H9.
  - intros H75 H9. apply ge_true in H75. apply ge_false in H9. by rewrite H9, H75.
  - intros H5 H75. apply ge_true in H5. apply ge_false in H75.
    assert (H9 : Js.ge c (9 # 10) = false).
    { apply ge_false. apply ge_false in H75. eapply Qlt_trans; [exact H75|]. done. }
    by rewrite H9, H75, H5.
  - intros H5.
    assert (H75 : Js.ge c (3 # 4) = false).
    { apply ge_false. eapply Qlt_trans; [exact H5|]. done. }
    assert (H9 : Js.ge c (9 # 10) = false).
    { apply ge_false. eapply Qlt_trans; [exact H5|]. done. }
    apply ge_false in H5. by rewrite H9, H75, H5.
Qed.

(** C8, as the code has it. The tables of [SarifReporter]: [mapLevel]
    sends [CRITICAL] and [HIGH] to [error], [MEDIUM] and [LOW] to
    [warning], [INFO] to [note], and every result entry takes its level
    from it; [mapPrecision] is [very-high] from 0.9, [high] from 0.75,
    [medium] from 0.5 and [low] below; [mapSecuritySeverity] gives 9.0,
    7.0, 5.0, 3.0 and 1.0 to [CRITICAL], [HIGH], [MEDIUM], [LOW] and
    [INFO]; every rule descriptor takes its precision and its score from
    them. The tables of [SARIFProcessor], the other writer: the same
    scores; [mapSeverityToLevel] sends [CRITICAL] and [HIGH] to [error],
    [MEDIUM] to [warning], [LOW] to [note] and [INFO] to [info]; and every
    rule has the precision [high], whatever the confidence. *)
Theorem sarif_mapping_tables :
  (SarifReporter.mapLevel CRITICAL = Sarif.error ∧
   SarifReporter.mapLevel HIGH = Sarif.error ∧
   SarifReporter.mapLevel MEDIUM = Sarif.warning ∧
   SarifReporter.mapLevel LOW = Sarif.warning ∧
   SarifReporter.mapLevel INFO = Sarif.note) ∧
  (∀ f : Finding,
     Sarif.level (SarifReporter.convertToSarifResult f)
     = SarifReporter.mapLevel (severity f) ∧
     Sarif.precision (Sarif.properties (SarifReporter.toRule f))
     = SarifReporter.mapPrecision (confidence f) ∧
     Sarif.securitySeverity (Sarif.properties (SarifReporter.toRule f))
     = SarifReporter.mapSecuritySeverity (severity f)) ∧
  (∀ c : Q,
     ((9 # 10 <= c)%Q → SarifReporter.mapPrecision c = "very-high") ∧
     ((3 # 4 <= c)%Q → (c < 9 # 10)%Q → SarifReporter.mapPrecision c = "high") ∧
     ((1 # 2 <= c)%Q → (c < 3 # 4)%Q → SarifReporter.mapPrecision c = "medium") ∧
     ((c < 1 # 2)%Q → SarifReporter.mapPrecision c = "low")) ∧
  (SarifReporter.mapSecuritySeverity CRITICAL = "9.0" ∧
   SarifReporter.mapSecuritySeverity HIGH = "7.0" ∧
   SarifReporter.mapSecuritySeverity MEDIUM = "5.0" ∧
   SarifReporter.mapSecuritySeverity LOW = "3.0" ∧
   SarifReporter.mapSecuritySeverity INFO = "1.0") ∧
  (SARIFProcessor.mapSeverityToLevel CRITICAL = SARIFProcessor.error ∧
   SARIFProcessor.mapSeverityToLevel HIGH = SARIFProcessor.error ∧
   SARIFProcessor.mapSeverityToLevel MEDIUM = SARIFProcessor.warning ∧
   SARIFProcessor.mapSeverityToLevel LOW = SARIFProcessor.note ∧
   SARIFProcessor.mapSeverityToLevel INFO = SARIFProcessor.info) ∧
  (SARIFProcessor.mapSeverityToSecuritySeverity CRITICAL = "9.0" ∧
   SARIFProcessor.mapSeverityToSecuritySeverity HIGH = "7.0" ∧
   SARIFProcessor.mapSeverityToSecuritySeverity MEDIUM = "5.0" ∧
   SARIFProcessor.mapSeverityToSecuritySeverity LOW = "3.0" ∧
   SARIFProcessor.mapSeverityToSecuritySeverity INFO = "1.0") ∧
  (∀ (f : Finding) (sourceRoot : string),
     SARIF.level (Processor.toResult sourceRoot f)
     = SARIFProcessor.mapSeverityToLevel (severity f) ∧
     SARIF.ruleProperties (Processor.toRule f)
     = Some {| SARIF.ruleTags := Some [categoryName (category f)];
               SARIF.precision := Some "high";
               SARIF.securitySeverity :=
                 Some (SARIFProcessor.mapSeverityToSecuritySeverity (severity f)) |}).
Proof.
  split_and!; try done. apply mapPrecision_buckets.
Qed.

(** C8, as stated, fails on [SARIFProcessor], which the claim cites
    beside [SarifReporter]: its level is not the level the specification
    words for [LOW] and for [INFO], and the precision of the rule it builds
    for a finding of confidence 0.5 is [high], not the bucket [medium] of
    that confidence. *)
Lemma processor_tables_differ :
  SARIFProcessor.mapSeverityToLevel LOW ≠ specifiedLevel LOW ∧
  SARIFProcessor.mapSeverityToLevel INFO ≠ specifiedLevel INFO ∧
  specifiedPrecision (confidence Sample.first) = "medium" ∧
  SARIF.ruleProperties (Processor.toRule Sample.first) ≫= SARIF.precision
  = Some "high" ∧
  ¬ ((∀ s, SARIFProcessor.mapSeverityToLevel s = specifiedLevel s) ∧
     (∀ f, SARIF.ruleProperties (Processor.toRule f) ≫= SARIF.precision
           = Some (specifiedPrecision (confidence f)))).
Proof.
  split_and!; [done..|].
  intros [Hlevel _]. specialize (Hlevel LOW). discriminate Hlevel.
Qed.

(** Four confidences, one in each precision bucket. *)
Lemma sarif_mapping_sample :
  SarifReporter.mapPrecision (95 # 100) = "very-high" ∧
  SarifReporter.mapPrecision (8 # 10) = "high" ∧
  SarifReporter.mapPrecision (1 # 2) = "medium" ∧
  SarifReporter.mapPrecision (49 # 100) = "low".
Proof.
  destruct sarif_mapping_tables as (_ & _ & Hprecision & _).
  split_and!.
  - by apply (Hprecision (95 # 100)).
  - by apply (Hprecision (8 # 10)).
  - by apply (Hprecision (1 # 2)).
  - by apply (Hprecision (49 # 100)).
Defined.

(** The merging script ([SARIFProcessor.generateSARIF]) is a second writer
    of SARIF: it has the same score table, and another level table, which
    sends [LOW] to [note] and [INFO] to [info]. *)
Lemma processor_tables (s : Severity) :
  SARIFProcessor.mapSeverityToSecuritySeverity s
  = SarifReporter.mapSecuritySeverity s ∧
  SARIFProcessor.mapSeverityToLevel LOW = SARIFProcessor.note ∧
  SARIFProcessor.mapSeverityToLevel INFO = SARIFProcessor.info.
Proof. by destruct s. Qed.

(** * The inline marker and the deduplication key on sample inputs *)

(** C6 fails on the code. In a file of thirty lines whose line 20 carries
    the marker, the context of a finding on line 20 is lines 15 to 25, and
    [hasNoSecComment] reads that window at the indices the whole file would
    need, 19 and 18: the first is clamped to the last line of the window,
    line 25, the second finds nothing, and the finding is kept although its
    own line carries the marker. The context of a finding on line 15 is
    lines 10 to 20; its last line is line 20, so the finding is suppressed
    by a marker five lines below it. A finding on line 21, right below the
    marker, is kept. *)
Theorem nosec_marker_read_at_file_index (isMatch : string → string → bool) :
  let engine := FalsePositiveRuleEngine.new Sample.config in
  let verdict := FalsePositiveRuleEngine.shouldSuppress isMatch Sample.files engine in
  Js.index (Js.split Js.LF Sample.thirtyLines) 19 = Some "run(input) // nosec" ∧
  (Js.truthy_opt (FalsePositiveRuleEngine.getContext Sample.files (Sample.onLine 20))
   = true) ∧
  markedLine Sample.files (Sample.onLine 20) 20 = true ∧
  inlineMarkerStage Sample.files (Sample.onLine 20) = false ∧
  verdict (Sample.onLine 20) = keep ∧
  markedLine Sample.files (Sample.onLine 15) 15 = false ∧
  markedLine Sample.files (Sample.onLine 15) 14 = false ∧
  inlineMarkerStage Sample.files (Sample.onLine 15) = true ∧
  verdict (Sample.onLine 15) = suppressFor "Suppressed by nosec comment" ∧
  markedLine Sample.files (Sample.onLine 21) 20 = true ∧
  verdict (Sample.onLine 21) = keep.
Proof. vm_compute. done. Qed.

(** C2 fails on the code. The key string does not tell the identities
    [("a", 1, "2:r")] and [("a:1", 2, "r")] apart: of three findings with
    three identities two are returned, the first one is lost to the third,
    and the third, whose identity is seen last, comes first. *)
Theorem dedup_key_conflates_identities :
  let raw := [Sample.first; Sample.second; Sample.third] in
  identity Sample.first ≠ identity Sample.third ∧
  dedupKey Sample.first = dedupKey Sample.third ∧
  deduplicateFindings raw = [Sample.third; Sample.second] ∧
  (identity Sample.first ∉ identity <$> deduplicateFindings raw) ∧
  (identity <$> deduplicateFindings raw) ≠ firstSeen (identity <$> raw).
Proof.
  assert (Hout : deduplicateFindings [Sample.first; Sample.second; Sample.third]
                 = [Sample.third; Sample.second]) by (by vm_compute).
  cbv zeta. rewrite Hout. split_and!; [done|by vm_compute|done| |by vm_compute].
  intros Hin. repeat (apply elem_of_cons in Hin as [Heq|Hin]; [done|]).
  by apply elem_of_nil in Hin.
Qed.

(** * Deduplication, by the key string *)

Lemma gt_true (a b : Q) : Js.gt a b = true ↔ (b < a)%Q.
Proof.
  unfold Js.gt. rewrite negb_true_iff. split.
  - intros Hf. apply Qnot_le_lt. intros Hle. apply Qle_bool_iff in Hle. congruence.
  - intros Hlt. destruct (Qle_bool a b) eqn:Hb; [|done].
    apply Qle_bool_iff in Hb. by apply Qlt_not_le in Hlt.
Qed.

Lemma gt_false (a b : Q) : Js.gt a b = false ↔ (a <= b)%Q.
Proof. unfold Js.gt. rewrite negb_false_iff. apply Qle_bool_iff. Qed.

Lemma values_keys {V} (key : V → string) (m : Js.Map V) :
  (∀ k v, Js.get m k = Some v → key v = k) →
  NoDup (Js.keys m) →
  key <$> Js.values m = Js.keys m.
Proof.
  intros Hkey Hnd.
  assert (Hall : Forall (λ kv, key kv.2 = kv.1) m).
  { apply Forall_forall. intros [k v] Hin. by apply (elem_of_get _ _ _ Hnd), Hkey in Hin. }
  unfold Js.values, Js.keys. clear -Hall.
  induction Hall as [|[k v] m Hk ? IH]; [done|].
  rewrite !fmap_cons. cbn [fst snd] in *. by rewrite Hk, IH.
Qed.

Lemma bestOfKey_confidence raw f g :
  bestOfKey raw f → g ∈ raw → dedupKey g = dedupKey f →
  (confidence g <= confidence f)%Q.
Proof.
  intros (before & after & -> & Hb & Ha).
  rewrite elem_of_app, elem_of_cons. intros [Hg|[->|Hg]] Hk.
  - apply Qlt_le_weak. auto.
  - apply Qle_refl.
  - auto.
Qed.

Lemma bestOfKey_snoc raw f x :
  bestOfKey raw f →
  (dedupKey x = dedupKey f → (confidence x <= confidence f)%Q) →
  bestOfKey (raw ++ [x]) f.
Proof.
  intros (before & after & -> & Hb & Ha) Hx.
  exists before, (after ++ [x]). rewrite <- app_assoc. split_and!; [done|done|].
  intros g [Hg|Hg]%elem_of_app; [auto|].
  apply list_elem_of_singleton in Hg as ->. done.
Qed.

Lemma seen_spec (raw : list Finding) :
  let seen := foldl dedupStep [] raw in
  Js.keys seen = firstSeen (dedupKey <$> raw) ∧
  ∀ k f, Js.get seen k = Some f → dedupKey f = k ∧ bestOfKey raw f.
Proof.
  induction raw as [|x raw IH] using rev_ind.
  - split; [done | intros ?? [=]].
  - cbv zeta in *. rewrite foldl_snoc, fmap_app, fmap_cons, fmap_nil, firstSeen_snoc.
    destruct IH as [IHk IHg].
    set (seen := foldl dedupStep [] raw) in *.
    assert (Hother : ∀ k f, k ≠ dedupKey x → Js.get seen k = Some f →
                            dedupKey f = k ∧ bestOfKey (raw ++ [x]) f).
    { intros k f Hne Hg. destruct (IHg k f Hg) as [Hk Hbest]. split; [done|].
      apply bestOfKey_snoc; [done|]. congruence. }
    unfold dedupStep.
    destruct (Js.has seen (dedupKey x)) eqn:Hhas; simpl.
    + apply has_true in Hhas as Hin. rewrite IHk, elem_of_firstSeen in Hin.
      rewrite decide_True by done.
      destruct (Js.get seen (dedupKey x)) as [existing|] eqn:Hget.
      2: { split; [done|]. intros k f Hg.
           destruct (decide (k = dedupKey x)) as [->|Hne]; [congruence | auto]. }
      destruct (IHg _ _ Hget) as [Hk Hbest].
      destruct (Js.gt (confidence x) (confidence existing)) eqn:Hgt.
      * split; [by rewrite keys_set, Hhas|].
        intros k f. rewrite get_set. case_decide as Hkx.
        -- intros [= <-]. split; [done|]. exists raw, [].
           split_and!; [done| |by intros ? ?%elem_of_nil].
           intros g Hg Hgk. apply gt_true in Hgt.
           eapply Qle_lt_trans; [|exact Hgt].
           apply (bestOfKey_confidence raw); [done|done|congruence].
        -- intros Hg. apply Hother; [congruence | done].
      * split; [done|]. intros k f Hg.
        destruct (decide (k = dedupKey x)) as [->|Hne]; [|auto].
        assert (f = existing) as -> by congruence. split; [done|].
        apply bestOfKey_snoc; [done|]. intros _. by apply gt_false.
    + apply has_false in Hhas as Hnin. rewrite IHk, elem_of_firstSeen in Hnin.
      rewrite decide_False by done. split; [by rewrite keys_set, Hhas, IHk|].
      intros k f. rewrite get_set. case_decide as Hkx.
      * intros [= <-]. split; [done|]. exists raw, [].
        split_and!; [done| |by intros ? ?%elem_of_nil].
        intros g Hg Hgk. destruct Hnin. rewrite <- Hgk.
        apply list_elem_of_fmap. by exists g.
      * intros Hg. apply Hother; [congruence | done].
Qed.

Lemma length_firstSeen `{EqDecision K} (ks : list K) :
  (length (firstSeen ks) ≤ length ks)%nat.
Proof.
  apply submseteq_length, NoDup_submseteq; [apply NoDup_firstSeen|].
  intros k. by rewrite elem_of_firstSeen.
Qed.

Lemma identity_key f g : identity f = identity g → dedupKey f = dedupKey g.
Proof. unfold identity, dedupKey. by intros [= -> -> ->]. Qed.

(** The keys of the output, and what each returned finding is. *)
Lemma deduplicate_spec (raw : list Finding) :
  (dedupKey <$> deduplicateFindings raw) = firstSeen (dedupKey <$> raw) ∧
  ∀ f, f ∈ deduplicateFindings raw → bestOfKey raw f.
Proof.
  unfold deduplicateFindings.
  destruct (seen_spec raw) as [Hk Hg]. cbv zeta in Hk, Hg.
  set (seen := foldl dedupStep [] raw) in *.
  assert (Hnd : NoDup (Js.keys seen)) by (rewrite Hk; apply NoDup_firstSeen).
  split.
  - rewrite <- Hk. apply values_keys; [|done]. intros k f Hf. by apply Hg in Hf as [? _].
  - intros f [k Hf]%(elem_of_values _ _ Hnd). by apply Hg in Hf as [_ ?].
Qed.

(** What [deduplicateFindings] guarantees, by the key string it builds:
    the output is no longer than the input, its keys are the keys of the
    input in first-seen order, so no two returned findings share a key or
    an identity; a returned finding is the first of the highest confidence
    among the input findings of its key, and no input finding of its
    identity has a greater confidence. *)
Theorem dedup_by_key (raw : list Finding) :
  let out := deduplicateFindings raw in
  (length out ≤ length raw)%nat ∧
  (dedupKey <$> out) = firstSeen (dedupKey <$> raw) ∧
  NoDup (dedupKey <$> out) ∧
  NoDup (identity <$> out) ∧
  (∀ f, f ∈ out → bestOfKey raw f) ∧
  (∀ f g, f ∈ out → g ∈ raw → identity g = identity f →
          (confidence g <= confidence f)%Q).
Proof.
  cbv zeta. destruct (deduplicate_spec raw) as [Hkeys Hbest].
  split_and!; try done.
  - rewrite <- (length_fmap dedupKey), Hkeys, <- (length_fmap dedupKey raw).
    apply length_firstSeen.
  - rewrite Hkeys. apply NoDup_firstSeen.
  - assert (Hnd : NoDup (dedupKey <$> deduplicateFindings raw))
      by (rewrite Hkeys; apply NoDup_firstSeen).
    revert Hnd. generalize (deduplicateFindings raw). intros out.
    induction out as [|f out IH]; [constructor|].
    rewrite !fmap_cons, !NoDup_cons. intros [Hf Hout]. split; [|auto].
    intros (g & Hid & Hgin)%list_elem_of_fmap. apply Hf.
    apply list_elem_of_fmap. exists g. split; [by apply identity_key | done].
  - intros f g Hf Hgin Hid. apply (bestOfKey_confidence raw); auto using identity_key.
Qed.

(** * Deduplication, by identity *)

Lemma keysTellIdentities_snoc raw x :
  keysTellIdentities (raw ++ [x]) →
  keysTellIdentities raw ∧
  (dedupKey x ∈ dedupKey <$> raw ↔ identity x ∈ identity <$> raw).
Proof.
  intros Htell. split.
  - intros f g Hf Hg. apply Htell; apply elem_of_app; by left.
  - rewrite !list_elem_of_fmap. split; intros (g & Hk & Hg); exists g; (split; [|done]).
    + apply Htell; [apply elem_of_app; right; left|apply elem_of_app; by left|done].
    + by apply identity_key.
Qed.

(** The findings that open a key also open an identity. *)
Lemma first_representatives raw :
  keysTellIdentities raw →
  ∃ reps,
    (∀ f, f ∈ reps → f ∈ raw) ∧
    firstSeen (dedupKey <$> raw) = dedupKey <$> reps ∧
    firstSeen (identity <$> raw) = identity <$> reps.
Proof.
  induction raw as [|x raw IH] using rev_ind; intros Htell.
  - by exists [].
  - apply keysTellIdentities_snoc in Htell as [Hraw Hx].
    destruct (IH Hraw) as (reps & Hin & Hk & Hi).
    rewrite !fmap_app, !fmap_cons, !fmap_nil, !firstSeen_snoc.
    destruct (decide (dedupKey x ∈ dedupKey <$> raw)) as [Hseen|Hnew].
    + rewrite decide_True by by apply Hx.
      exists reps. split_and!; [|done|done].
      intros f Hf. apply elem_of_app. left. auto.
    + rewrite decide_False by by rewrite <- Hx.
      exists (reps ++ [x]). rewrite !fmap_app, Hk, Hi. split_and!; [|done|done].
      intros f [Hf|Hf]%elem_of_app; apply elem_of_app; [left; auto | by right].
Qed.

(** When the key strings of the raw findings tell their identities apart,
    deduplication returns one finding per identity, in the
    order the identities are first seen: every identity of the input keeps
    a finding. *)
Theorem dedup_by_identity (raw : list Finding) :
  keysTellIdentities raw →
  (identity <$> deduplicateFindings raw) = firstSeen (identity <$> raw).
Proof.
  intros Htell. destruct (first_representatives raw Htell) as (reps & Hin & Hk & Hi).
  destruct (deduplicate_spec raw) as [Hkeys Hbest].
  rewrite Hi. rewrite Hk in Hkeys.
  assert (Hout : ∀ f, f ∈ deduplicateFindings raw → f ∈ raw).
  { intros f (before & after & -> & _)%Hbest. apply elem_of_app. right. left. }
  clear Hk Hi Hbest. revert Hout Hkeys Hin. generalize (deduplicateFindings raw).
  intros out. revert reps. induction out as [|f out IH]; intros [|r reps] Hout Hkeys Hin;
    try done.
  rewrite !fmap_cons in *. injection Hkeys as Hfr Hrest. f_equal.
  - apply Htell; [apply Hout; left | apply Hin; left | done].
  - apply IH; [intros ? ?; apply Hout; by right | done | intros ? ?; apply Hin; by right].
Qed.

(** Two findings of one identity, the second more confident, between two
    others. *)
Lemma dedup_by_identity_sample :
  let raw := [Sample.second; Sample.onLine 3; Sample.finding "D" "b" 1 "r" (9 # 10) "run(y)"] in
  (id <$> deduplicateFindings raw) = ["D"; "N"] ∧
  (identity <$> deduplicateFindings raw) = [("b", 1, "r"); ("src/app.ts", 3, "unsafe-call")].
Proof.
  intros raw. split; [reflexivity|].
  rewrite (dedup_by_identity raw); [reflexivity|].
  intros f g Hf Hg.
  repeat (apply elem_of_cons in Hf as [->|Hf]); try by apply elem_of_nil in Hf.
  all: repeat (apply elem_of_cons in Hg as [->|Hg]); try by apply elem_of_nil in Hg.
  all: by vm_compute.
Defined.

(** * Lines and windows *)

Lemma split_oneLine s : oneLine s = true → Js.split Js.LF s = [s].
Proof.
  induction s as [|c s IH]; simpl; [done|].
  intros [Hc Hs]%andb_true_iff. apply negb_true_iff in Hc.
  by rewrite Hc, IH.
Qed.

Lemma split_line_feed a b :
  oneLine a = true →
  Js.split Js.LF (a +:+ Js.nl +:+ b) = a :: Js.split Js.LF b.
Proof.
  induction a as [|c a IH]; simpl; [done|].
  intros [Hc Ha]%andb_true_iff. apply negb_true_iff in Hc.
  by rewrite Hc, IH.
Qed.

Lemma split_oneLines s : Forall (λ l, oneLine l = true) (Js.split Js.LF s).
Proof.
  induction s as [|c s IH]; simpl; [by repeat constructor|].
  destruct (Ascii.eqb c Js.LF) eqn:Hc; [by constructor|].
  destruct (Js.split Js.LF s) as [|w ws].
  { constructor; [simpl; by rewrite Hc | constructor]. }
  apply Forall_cons in IH as [Hw Hws]. constructor; [|done].
  simpl. by rewrite Hc, Hw.
Qed.

Lemma split_join (ls : list string) :
  ls ≠ [] → Forall (λ l, oneLine l = true) ls →
  Js.split Js.LF (Js.join Js.nl ls) = ls.
Proof.
  induction ls as [|l ls IH]; [done|]. intros _ [Hl Hls]%Forall_cons.
  destruct ls as [|l' ls]; [by apply split_oneLine|].
  change (Js.join Js.nl (l :: l' :: ls)) with (l +:+ Js.nl +:+ Js.join Js.nl (l' :: ls)).
  rewrite split_line_feed by done. f_equal. by apply IH.
Qed.

Lemma index_lookup {A} (a : list A) (i : Z) :
  0 ≤ i → Js.index a i = a !! Z.to_nat i.
Proof. intros Hi. unfold Js.index. by rewrite (proj2 (Z.ltb_ge i 0)). Qed.

Lemma index_negative {A} (a : list A) (i : Z) : i < 0 → Js.index a i = None.
Proof. intros Hi. unfold Js.index. by rewrite (proj2 (Z.ltb_lt i 0)). Qed.

Lemma slice_take_drop {A} (a : list A) (start stop : Z) :
  0 ≤ start ≤ stop → stop ≤ Z.of_nat (length a) →
  Js.slice a start stop = take (Z.to_nat (stop - start)) (drop (Z.to_nat start) a).
Proof.
  intros Hs He. unfold Js.slice, Js.relative.
  rewrite (proj2 (Z.ltb_ge start 0)), (proj2 (Z.ltb_ge stop 0)) by lia.
  do 2 f_equal; lia.
Qed.

Lemma hasNoSecComment_marked context n :
  FalsePositiveRuleEngine.hasNoSecComment context n =
  let lines := Js.split Js.LF context in
  marked (Js.index lines (Z.min (n - 1) (Z.of_nat (length lines) - 1))) ||
  marked (Js.index lines (Z.max 0 (n - 2))).
Proof.
  unfold FalsePositiveRuleEngine.hasNoSecComment, marked. cbv zeta.
  by rewrite <- !orb_assoc.
Qed.

Section Window.
Import FalsePositiveRuleEngine.
Variable readFile : string → option string.
Variable finding : Finding.
Variable content : string.
Hypothesis Hread : readFile (file finding) = Some content.

Local Abbreviation lines := (Js.split Js.LF content).
Local Abbreviation n := (line finding).
Local Abbreviation start := (Z.max 0 (n - 6)).
Local Abbreviation stop := (Z.min (Z.of_nat (length lines)) (n + 5)).

Lemma fileLines_read : fileLines readFile finding = lines.
Proof. unfold fileLines. by rewrite Hread. Qed.

(** The stage reads the window, a part of the file, at the two indices
    it computes from the line number. *)
Lemma inlineMarkerStage_window :
  start < stop →
  let window := take (Z.to_nat (stop - start)) (drop (Z.to_nat start) lines) in
  inlineMarkerStage readFile finding =
  marked (Js.index window (Z.min (n - 1) (Z.of_nat (length window) - 1))) ||
  marked (Js.index window (Z.max 0 (n - 2))).
Proof.
  intros Hwin window. unfold inlineMarkerStage, getContext. rewrite Hread.
  cbv zeta. rewrite slice_take_drop by lia. fold window.
  assert (Hlen : length window = Z.to_nat (stop - start)).
  { unfold window. rewrite length_take, length_drop. lia. }
  assert (Hne : window ≠ []).
  { intros Hnil. rewrite Hnil in Hlen. simpl in Hlen. lia. }
  assert (Hlines : Forall (λ l, oneLine l = true) window).
  { unfold window. apply Forall_take, Forall_drop, split_oneLines. }
  simpl default. rewrite hasNoSecComment_marked. cbv zeta.
  rewrite split_join by done.
  destruct (Js.truthy_opt _) eqn:Htruthy; [done|]. simpl.
  (* an empty context is a window of one empty line *)
  simpl in Htruthy. unfold Js.truthy in Htruthy.
  apply negb_false_iff, String.eqb_eq in Htruthy.
  assert (Hw : window = [""]).
  { rewrite <- (split_join window) by done. by rewrite Htruthy. }
  rewrite Hw. simpl.
  assert (Hnone : ∀ i, marked (Js.index [""] i) = false).
  { intros i. unfold Js.index. destruct (i <? 0); [done|].
    by destruct (Z.to_nat i) as [|[|?]]. }
  by rewrite !Hnone.
Qed.
End Window.

Lemma fileLines_long readFile finding :
  2 ≤ Z.of_nat (length (fileLines readFile finding)) →
  ∃ content, readFile (file finding) = Some content.
Proof.
  unfold fileLines. destruct (readFile (file finding)) as [content|]; [eauto|].
  simpl. lia.
Qed.

(** On the lines 2 to 6 of a file the window starts at the first line of
    the file, and the fifth stage fires exactly when the finding's own line
    or the line before it carries a marker. *)
Theorem nosec_stage_near_top readFile finding :
  2 ≤ line finding ≤ 6 →
  line finding ≤ Z.of_nat (length (fileLines readFile finding)) →
  inlineMarkerStage readFile finding =
  markedLine readFile finding (line finding) ||
  markedLine readFile finding (line finding - 1).
Proof.
  intros Hn Hlen.
  destruct (fileLines_long readFile finding) as [content Hread]; [lia|].
  unfold markedLine. rewrite (fileLines_read _ _ _ Hread) in *.
  rewrite (inlineMarkerStage_window _ _ _ Hread) by lia. cbv zeta.
  set (lines := Js.split Js.LF content) in *.
  set (n := line finding) in *.
  replace (Z.max 0 (n - 6)) with 0 by lia. rewrite Z.sub_0_r.
  change (Z.to_nat 0) with 0%nat. rewrite drop_0, length_take.
  replace (Z.min (n - 1) _) with (n - 1) by lia.
  replace (Z.max 0 (n - 2)) with (n - 1 - 1) by lia.
  rewrite !index_lookup by lia.
  by rewrite !lookup_take_lt by lia.
Qed.

(** From line 12 on, in a file that goes on for five more lines, the
    fifth stage fires exactly when the line five below the finding carries
    a marker: the finding's own line and the line before it are not read. *)
Theorem nosec_stage_far_down readFile finding :
  12 ≤ line finding →
  line finding + 5 ≤ Z.of_nat (length (fileLines readFile finding)) →
  inlineMarkerStage readFile finding =
  markedLine readFile finding (line finding + 5).
Proof.
  intros Hn Hlen.
  destruct (fileLines_long readFile finding) as [content Hread]; [lia|].
  unfold markedLine. rewrite (fileLines_read _ _ _ Hread) in *.
  rewrite (inlineMarkerStage_window _ _ _ Hread) by lia. cbv zeta.
  set (lines := Js.split Js.LF content) in *.
  set (n := line finding) in *.
  replace (Z.max 0 (n - 6)) with (n - 6) by lia.
  replace (Z.min (Z.of_nat (length lines)) (n + 5)) with (n + 5) by lia.
  replace (n + 5 - (n - 6)) with 11 by lia.
  rewrite length_take, length_drop.
  replace (Z.min (n - 1) _) with 10 by lia.
  replace (Z.max 0 (n - 2)) with (n - 2) by lia.
  rewrite !index_lookup by lia.
  rewrite lookup_take_lt, lookup_drop by lia.
  replace (Z.to_nat (n - 6) + Z.to_nat 10)%nat with (Z.to_nat (n + 5 - 1)) by lia.
  destruct (decide (n = 12)) as [->|Hne].
  - rewrite lookup_take_lt, lookup_drop by lia.
    replace (Z.to_nat (12 - 6) + Z.to_nat (12 - 2))%nat with (Z.to_nat (12 + 5 - 1)) by lia.
    apply orb_diag.
  - rewrite (lookup_take_ge _ _ (Z.to_nat (n - 2))) by lia.
    apply orb_false_r.
Qed.

(** The sample file: a finding on its line 3, next to no marker, and one
    on its line 15, five lines above the marker. *)
Lemma nosec_stage_near_top_sample :
  inlineMarkerStage Sample.files (Sample.onLine 3) = false.
Proof.
  rewrite (nosec_stage_near_top Sample.files (Sample.onLine 3)).
  - reflexivity.
  - simpl. lia.
  - vm_compute. discriminate.
Defined.

Lemma nosec_stage_far_down_sample :
  inlineMarkerStage Sample.files (Sample.onLine 15) = true.
Proof.
  rewrite (nosec_stage_far_down Sample.files (Sample.onLine 15)).
  - reflexivity.
  - simpl. lia.
  - vm_compute. discriminate.
Defined.

(** * The scan command *)

(** The command runs the engine on the findings [scan] returns and keeps
    the statistics of [scan]: they count the deduplicated findings, kept and
    suppressed together, and [suppressedCount] stays zero. *)
Theorem scan_command_keeps_raw_stats isMatch readFile host adapters config order :
  let r := scanCommandResult isMatch readFile host adapters config order in
  let unique := ScanResult.findings (ScanOrchestrator.scan host adapters config order) in
  ScanResult.stats r = calculateStats unique ∧
  (Stats.total (ScanResult.stats r)
   = length (ScanResult.findings r) + length (ScanResult.suppressed r))%nat ∧
  Stats.suppressedCount (ScanResult.stats r) = 0%nat.
Proof.
  cbv zeta. unfold scanCommandResult.
  cbn [ScanResult.stats ScanResult.findings ScanResult.suppressed].
  set (unique := ScanResult.findings (ScanOrchestrator.scan host adapters config order)).
  destruct (filterFindings_spec isMatch readFile (FalsePositiveRuleEngine.new config) unique)
    as [-> ->].
  assert (Hstats : ScanResult.stats (ScanOrchestrator.scan host adapters config order)
                   = calculateStats unique) by done.
  rewrite Hstats. split_and!; [done| |].
  - rewrite length_fmap, <- length_app, (comm (++)), filter_app_complement.
    unfold calculateStats. by destruct (foldl _ _ _) as [[? ?] ?].
  - unfold calculateStats. by destruct (foldl _ _ _) as [[? ?] ?].
Qed.

(** * When the key string tells identities apart *)

Lemma colonFree_app a b :
  colonFree (a +:+ b) = colonFree a && colonFree b.
Proof. induction a as [|c a IH]; simpl; [done|]. by rewrite IH, andb_assoc. Qed.

Lemma colon_splits a1 b1 a2 b2 :
  colonFree a1 = true → colonFree a2 = true →
  a1 +:+ ":" +:+ b1 = a2 +:+ ":" +:+ b2 → a1 = a2 ∧ b1 = b2.
Proof.
  revert a2. induction a1 as [|c1 a1 IH]; intros [|c2 a2]; simpl.
  - intros _ _ Heq. by simplify_eq.
  - intros _ [Hc _]%andb_true_iff Heq. by simplify_eq.
  - intros [Hc _]%andb_true_iff _ Heq. by simplify_eq.
  - intros [_ H1]%andb_true_iff [_ H2]%andb_true_iff Heq.
    injection Heq as -> Heq. by destruct (IH a2 H1 H2 Heq) as [-> ->].
Qed.

Lemma pretty_N_char_colonFree x : Ascii.eqb (pretty_N_char x) ":" = false.
Proof. unfold pretty_N_char. by repeat case_match. Qed.

Lemma pretty_N_go_colonFree x s :
  colonFree s = true → colonFree (pretty_N_go x s) = true.
Proof.
  revert s. induction (N.lt_wf_0 x) as [x _ IH]. intros s Hs.
  destruct (decide (0 < x)%N) as [Hx|Hx].
  - rewrite pretty_N_go_step by done. apply IH.
    + by apply N.div_lt.
    + simpl. by rewrite pretty_N_char_colonFree, Hs.
  - assert (x = 0%N) as -> by lia. by rewrite pretty_N_go_0.
Qed.

Lemma pretty_N_colonFree (x : N) : colonFree (pretty x) = true.
Proof.
  unfold pretty, pretty_N. case_decide; [done|]. by apply pretty_N_go_colonFree.
Qed.

Lemma pretty_Z_colonFree (z : Z) : colonFree (pretty z) = true.
Proof.
  unfold pretty, pretty_Z. destruct z as [|p|p]; [done|..].
  - apply (pretty_N_colonFree (N.pos p)).
  - simpl. apply (pretty_N_colonFree (N.pos p)).
Qed.

(** Two findings whose paths hold no colon have the same key string only
    when they have the same identity. *)
Lemma colon_free_paths_key f g :
  colonFree (file f) = true → colonFree (file g) = true →
  dedupKey f = dedupKey g → identity f = identity g.
Proof.
  unfold dedupKey, identity. intros Hf Hg Hkey.
  apply colon_splits in Hkey as [-> Hrest]; [|done..].
  apply colon_splits in Hrest as [Hline ->]; [|apply pretty_Z_colonFree..].
  by apply (inj pretty) in Hline as ->.
Qed.

(** The key strings tell the identities of the raw findings apart when no
    path holds a colon. *)
Theorem colon_free_paths_tell_identities (raw : list Finding) :
  Forall (λ f, colonFree (file f) = true) raw → keysTellIdentities raw.
Proof.
  intros Hraw f g Hf Hg. rewrite Forall_forall in Hraw.
  apply colon_free_paths_key; auto.
Qed.

(** Two findings of one path, line and rule from two tools. *)
Lemma colon_free_paths_sample :
  keysTellIdentities [Sample.second; Sample.finding "D" "b" 1 "r" (9 # 10) "run(y)"].
Proof.
  apply colon_free_paths_tell_identities. by repeat constructor.
Defined.

(** * The scenarios of the test suite *)

(** Two findings of one file, line and rule: the more confident one is
    kept ([scanner.test.ts], deduplication). *)
Example dedup_keeps_higher_confidence :
  let low := Sample.finding "test-1" "test.ts" 10 "duplicate-rule" (8 # 10) "test" in
  let high := Sample.finding "test-2" "test.ts" 10 "duplicate-rule" (95 # 100) "test" in
  deduplicateFindings [low; high] = [high] ∧
  deduplicateFindings [high; low] = [high].
Proof. by vm_compute. Qed.

(** A snippet with a [MOCK_] prefix is suppressed by the naming stage
    ([simple.test.ts]). *)
Example mock_prefix_suppressed isMatch readFile :
  FalsePositiveRuleEngine.shouldSuppress isMatch readFile
    (FalsePositiveRuleEngine.new Sample.config) Sample.mockSecret
  = suppressFor "Variable has test/mock prefix (MOCK_, TEST_, etc.)".
Proof. by vm_compute. Qed.

(** With the default exclusions on, a file a built-in glob matches is
    suppressed by the first stage. *)
Example excluded_file_suppressed isMatch readFile config finding glob :
  ScanConfig.excludeTestFiles (ScanConfig.falsePositives config) = true →
  glob ∈ DEFAULT_EXCLUSIONS →
  isMatch (file finding) glob = true →
  FalsePositiveRuleEngine.shouldSuppress isMatch readFile
    (FalsePositiveRuleEngine.new config) finding
  = suppressFor "File matches exclusion pattern (test/docs/dependencies)".
Proof.
  intros Hon Hglob Hmatch. unfold FalsePositiveRuleEngine.shouldSuppress.
  assert (Hex : FalsePositiveRuleEngine.matchesExclusionPattern isMatch
                  (FalsePositiveRuleEngine.new config) (file finding) = true).
  { unfold FalsePositiveRuleEngine.matchesExclusionPattern, FalsePositiveRuleEngine.new.
    rewrite Hon. cbn [FalsePositiveRuleEngine.exclusionPatterns].
    apply existsb_exists. exists glob. split; [by apply list_elem_of_In | done]. }
  by rewrite Hex.
Qed.

(** No adapter available: no finding, every bucket at zero, one record
    of an unavailable tool per adapter. *)
Example nothing_available :
  let r := ScanOrchestrator.scan Sample.host [Sample.notInstalled; Sample.notInstalled] Sample.config
             [0%nat; 1%nat] in
  ScanResult.findings r = [] ∧
  Stats.total (ScanResult.stats r) = 0%nat ∧
  Stats.bySeverity (ScanResult.stats r) = Stats.zeros allSeverities ∧
  Stats.byCategory (ScanResult.stats r) = Stats.zeros allCategories ∧
  Stats.bySource (ScanResult.stats r) = Stats.zeros allSources ∧
  (status <$> ScanResult.toolsRun r) = [unavailable; unavailable].
Proof. by vm_compute. Qed.

(** A scan that throws is recorded with exit code 1 and its message, and
    the run goes on ([scanner.test.ts], adapter errors). *)
Example scan_failure_recorded :
  let failing :=
    {| ScannerAdapter.name := "error-adapter";
       ScannerAdapter.scan := λ _, Rejected "Scan failed";
       ScannerAdapter.isAvailable := Resolved true |} in
  let r := ScanOrchestrator.scan Sample.host [failing; Sample.returning [Sample.second]] Sample.config
             [0%nat; 1%nat] in
  (ToolRun.exitCode <$> ScanResult.toolsRun r) = [1; 0] ∧
  (ToolRun.error <$> ScanResult.toolsRun r) = [Some "Scan failed"; None] ∧
  ScanResult.findings r = [Sample.second].
Proof. by vm_compute. Qed.

(** Three findings of three severities, categories and sources
    ([scanner.test.ts], statistics). *)
Example three_severities_counted :
  let stats :=
    calculateStats
      [classified "1" CRITICAL secrets truffleHog;
       classified "2" HIGH injection semgrep;
       classified "3" MEDIUM dependency custom_npm] in
  Stats.total stats = 3%nat ∧
  (λ k, Stats.bySeverity stats !! k) <$> allSeverities
  = [Some 1; Some 1; Some 1; Some 0; Some 0]%nat ∧
  (λ k, Stats.byCategory stats !! k) <$> allCategories
  = [Some 1; Some 1; Some 0; Some 0; Some 1; Some 0]%nat ∧
  (λ k, Stats.bySource stats !! k) <$> allSources
  = [Some 1; Some 1; Some 1; Some 0; Some 0]%nat.
Proof. by vm_compute. Qed.

(** * The matcher against what a pattern matches *)

Local Arguments String.append : simpl nomatch.

Lemma append_empty_r s : s +:+ "" = s.
Proof. induction s as [|c s IH]; simpl; [done | by rewrite IH]. Qed.

Lemma append_assoc s1 s2 s3 : (s1 +:+ s2) +:+ s3 = s1 +:+ (s2 +:+ s3).
Proof. induction s1 as [|c s1 IH]; simpl; [done | by rewrite IH]. Qed.

Lemma append_empty s1 s2 : s1 +:+ s2 = "" → s1 = "" ∧ s2 = "".
Proof. by destruct s1. Qed.

Lemma Matches_Cat_inv r1 r2 s atEnd :
  Matches (Regex.Cat r1 r2) s atEnd →
  ∃ s1 s2, s = s1 +:+ s2 ∧ Matches r1 s1 (atEnd && isEmpty s2) ∧ Matches r2 s2 atEnd.
Proof. inversion 1; subst. eauto. Qed.

Lemma nullable_Matches r atEnd :
  Regex.nullable atEnd r = true ↔ Matches r "" atEnd.
Proof.
  split.
  - induction r; simpl; try done.
    + intros _. constructor.
    + destruct (Regex.nullable atEnd r1) eqn:H1; [|done]. intros H2.
      change "" with ("" +:+ ""). constructor; [|auto].
      simpl. rewrite andb_true_r. auto.
    + destruct (Regex.nullable atEnd r1) eqn:H1.
      * intros _. apply MatchesAltL. auto.
      * intros H2. apply MatchesAltR. auto.
    + intros _. constructor.
    + intros ->. constructor.
  - intros Hm. remember "" as s eqn:Hs. induction Hm; simpl; try done.
    + apply append_empty in Hs as [-> ->]. simpl in *. rewrite andb_true_r in *.
      by rewrite IHHm1, IHHm2.
    + by rewrite IHHm.
    + rewrite IHHm by done. by destruct (Regex.nullable atEnd r1).
Qed.

Lemma Matches_cat r1 r2 s atEnd :
  Matches (Regex.cat r1 r2) s atEnd ↔ Matches (Regex.Cat r1 r2) s atEnd.
Proof.
  assert (Hl : ∀ r, Matches r s atEnd ↔ Matches (Regex.Cat Regex.Eps r) s atEnd).
  { intros r. split.
    - intros Hm. change s with ("" +:+ s). constructor; [constructor | done].
    - intros (s1 & s2 & -> & H1 & H2)%Matches_Cat_inv. by inversion H1; subst. }
  assert (Hr : ∀ r, Matches r s atEnd ↔ Matches (Regex.Cat r Regex.Eps) s atEnd).
  { intros r. split.
    - intros Hm. rewrite <- (append_empty_r s). constructor; [|constructor].
      simpl. by rewrite andb_true_r.
    - intros (s1 & s2 & -> & H1 & H2)%Matches_Cat_inv. inversion H2; subst.
      simpl in H1. rewrite andb_true_r in H1. by rewrite append_empty_r. }
  assert (Hn : ∀ r, ¬ Matches (Regex.Cat Regex.Never r) s atEnd).
  { intros r (s1 & s2 & -> & H1 & H2)%Matches_Cat_inv. inversion H1. }
  assert (Hn' : ∀ r, ¬ Matches (Regex.Cat r Regex.Never) s atEnd).
  { intros r (s1 & s2 & -> & H1 & H2)%Matches_Cat_inv. inversion H2. }
  assert (Hnever : ¬ Matches Regex.Never s atEnd) by inversion 1.
  destruct r1, r2; simpl; try done;
    first [ by apply Hl | by apply Hr
          | split; [done | by intros ?%Hn] | split; [done | by intros ?%Hn'] ].
Qed.

Lemma Matches_alt r1 r2 s atEnd :
  Matches (Regex.alt r1 r2) s atEnd ↔ Matches (Regex.Alt r1 r2) s atEnd.
Proof.
  assert (Hnever : ¬ Matches Regex.Never s atEnd) by inversion 1.
  assert (Hl : ∀ r, Matches r s atEnd ↔ Matches (Regex.Alt Regex.Never r) s atEnd).
  { intros r. split; [by apply MatchesAltR | by inversion 1; subst]. }
  assert (Hr : ∀ r, Matches r s atEnd ↔ Matches (Regex.Alt r Regex.Never) s atEnd).
  { intros r. split; [by apply MatchesAltL | by inversion 1; subst]. }
  destruct r1, r2; simpl; try done; first [by apply Hl | by apply Hr].
Qed.

(** A non-empty match of a star starts with a non-empty match of its body. *)
Lemma Matches_Star_cons r c s atEnd :
  Matches (Regex.Star r) (String c s) atEnd →
  ∃ s1 s2,
    s = s1 +:+ s2 ∧ Matches r (String c s1) (atEnd && isEmpty s2) ∧
    Matches (Regex.Star r) s2 atEnd.
Proof.
  intros Hm. remember (Regex.Star r) as r' eqn:Hr. remember (String c s) as s' eqn:Hs.
  revert s Hs. induction Hm; intros s' Hs; try done.
  injection Hr as ->. destruct s1 as [|c1 s1]; simpl in Hs.
  - by apply IHHm2.
  - injection Hs as -> <-. eauto.
Qed.

Lemma deriv_Matches c r s atEnd :
  Matches (Regex.deriv c r) s atEnd ↔ Matches r (String c s) atEnd.
Proof.
  revert s atEnd. induction r as [| |p|r1 IH1 r2 IH2|r1 IH1 r2 IH2|r IH|];
    intros s atEnd; simpl.
  - split; inversion 1.
  - split; inversion 1.
  - destruct (p c) eqn:Hp; split.
    + inversion 1; subst. by constructor.
    + inversion 1; subst. constructor.
    + inversion 1.
    + inversion 1; subst. congruence.
  - rewrite Matches_alt. split.
    + inversion 1 as [| | |? ? ? ? Hm| ? ? ? ? Hm| | |]; subst.
      * apply Matches_cat, Matches_Cat_inv in Hm as (s1 & s2 & -> & H1 & H2).
        apply IH1 in H1. change (String c (s1 +:+ s2)) with (String c s1 +:+ s2).
        by constructor.
      * destruct (Regex.nullable false r1) eqn:Hnull; [|by inversion Hm].
        apply nullable_Matches in Hnull. apply IH2 in Hm.
        change (String c s) with ("" +:+ String c s). constructor; [|done].
        simpl. by rewrite andb_false_r.
    + intros (s1 & s2 & Hs & H1 & H2)%Matches_Cat_inv.
      destruct s1 as [|c1 s1]; simpl in Hs.
      * subst s2. simpl in H1. rewrite andb_false_r in H1.
        apply nullable_Matches in H1. rewrite H1.
        apply MatchesAltR. by apply IH2.
      * injection Hs as <- ->. apply MatchesAltL, Matches_cat.
        constructor; [by apply IH1 | done].
  - rewrite Matches_alt. split.
    + inversion 1; subst; [apply MatchesAltL, IH1 | apply MatchesAltR, IH2]; done.
    + inversion 1; subst; [apply MatchesAltL, IH1 | apply MatchesAltR, IH2]; done.
  - rewrite Matches_cat. split.
    + intros (s1 & s2 & -> & H1 & H2)%Matches_Cat_inv. apply IH in H1.
      change (String c (s1 +:+ s2)) with (String c s1 +:+ s2). by constructor.
    + intros (s1 & s2 & -> & H1 & H2)%Matches_Star_cons.
      constructor; [by apply IH | done].
  - split; inversion 1.
Qed.

Lemma matchesPrefix_Matches s r :
  Regex.matchesPrefix s r = true ↔
  ∃ s1 s2, s = s1 +:+ s2 ∧ Matches r s1 (isEmpty s2).
Proof.
  assert (Hnever : ∀ s, Regex.matchesPrefix s Regex.Never = true ↔
                        ∃ s1 s2, s = s1 +:+ s2 ∧ Matches Regex.Never s1 (isEmpty s2)).
  { intros s'. destruct s'; simpl; (split; [done|]); by intros (? & ? & _ & Hm); inversion Hm. }
  revert r. induction s as [|c s IH]; intros r.
  - assert (Hr : r = Regex.Never ∨
                  Regex.matchesPrefix "" r = Regex.nullable true r)
      by (destruct r; auto).
    destruct Hr as [->| ->]; [apply Hnever|].
    rewrite nullable_Matches. split.
    + intros Hm. by exists "", "".
    + intros (s1 & s2 & [-> ->]%eq_sym%append_empty & Hm). done.
  - assert (Hr : r = Regex.Never ∨
                  Regex.matchesPrefix (String c s) r =
                  if Regex.nullable false r then true
                  else Regex.matchesPrefix s (Regex.deriv c r))
      by (destruct r; auto).
    destruct Hr as [->| ->]; [apply Hnever|].
    destruct (Regex.nullable false r) eqn:Hnull.
    + split; [|done]. intros _. apply nullable_Matches in Hnull.
      by exists "", (String c s).
    + rewrite IH. split.
      * intros (s1 & s2 & -> & Hm). apply deriv_Matches in Hm.
        by exists (String c s1), s2.
      * intros (s1 & s2 & Hs & Hm). destruct s1 as [|c1 s1]; simpl in Hs.
        -- subst s2. simpl in Hm. apply nullable_Matches in Hm. congruence.
        -- injection Hs as <- ->. exists s1, s2. split; [done|].
           by apply deriv_Matches.
Qed.

(** [Regex.test r s] holds exactly when [r] matches a substring of [s]. *)
Theorem test_Matches r s :
  Regex.test r s = true ↔
  ∃ before matched after,
    s = before +:+ matched +:+ after ∧ Matches r matched (isEmpty after).
Proof.
  induction s as [|c s IH]; cbn [Regex.test].
  - destruct (Regex.matchesPrefix "" r) eqn:Hp.
    + apply matchesPrefix_Matches in Hp as (s1 & s2 & Hs & Hm).
      split; [|done]. intros _. exists "", s1, s2. by simpl.
    + split; [done|]. intros (before & matched & after & Hs & Hm).
      symmetry in Hs. apply append_empty in Hs as [-> Hs]. simpl in Hs.
      assert (Regex.matchesPrefix "" r = true); [|congruence].
      apply matchesPrefix_Matches. by exists matched, after.
  - destruct (Regex.matchesPrefix (String c s) r) eqn:Hp.
    + apply matchesPrefix_Matches in Hp as (s1 & s2 & Hs & Hm).
      split; [|done]. intros _. exists "", s1, s2. by simpl.
    + rewrite IH. split.
      * intros (before & matched & after & -> & Hm).
        by exists (String c before), matched, after.
      * intros (before & matched & after & Hs & Hm).
        destruct before as [|c' before]; simpl in Hs.
        -- assert (Regex.matchesPrefix (String c s) r = true); [|congruence].
           apply matchesPrefix_Matches. by exists matched, after.
        -- injection Hs as <- ->. by exists before, matched, after.
Qed.

(** * The fifth stage inside [shouldSuppress] *)

(** A finding the first four stages let through is suppressed for the
    inline marker exactly when the condition of the fifth stage holds. *)
Lemma fifth_stage_decides isMatch readFile engine finding :
  FalsePositiveRuleEngine.matchesExclusionPattern isMatch engine (file finding) = false →
  FalsePositiveRuleEngine.customRule isMatch
    (FalsePositiveRuleEngine.customPatterns engine) finding = None →
  FalsePositiveRuleEngine.hasTestPrefix (snippet finding) = false →
  Js.truthy_opt (FalsePositiveRuleEngine.getContext readFile finding) &&
  FalsePositiveRuleEngine.isTestContext
    (default "" (FalsePositiveRuleEngine.getContext readFile finding)) = false →
  FalsePositiveRuleEngine.shouldSuppress isMatch readFile engine finding
  = suppressFor "Suppressed by nosec comment"
  ↔ inlineMarkerStage readFile finding = true.
Proof.
  intros H1 H2 H3 H4. unfold FalsePositiveRuleEngine.shouldSuppress, inlineMarkerStage.
  rewrite H1, H2, H3. cbv zeta. rewrite H4.
  destruct (_ && FalsePositiveRuleEngine.hasNoSecComment _ _); [done|].
  repeat match goal with
         | |- context [if ?b then suppressFor _ else _] => destruct b
         end; done.
Qed.

(** On the sample file, whose configuration holds no glob, a finding on
    line 15. *)
Lemma fifth_stage_sample :
  FalsePositiveRuleEngine.shouldSuppress (λ _ _, false) Sample.files
    (FalsePositiveRuleEngine.new Sample.config) (Sample.onLine 15)
  = suppressFor "Suppressed by nosec comment".
Proof.
  apply fifth_stage_decides; reflexivity.
Defined.

(** * Deduplication, composed and reordered *)

Lemma set_absent {V} (m : Js.Map V) k v :
  Js.has m k = false → Js.set m k v = m ++ [(k, v)].
Proof.
  induction m as [|[k' v'] m IH]; [done|]. simpl.
  destruct (String.eqb k' k); [done|]. simpl. intros Hm. by rewrite IH.
Qed.

Lemma seen_distinct (raw : list Finding) :
  NoDup (dedupKey <$> raw) →
  foldl dedupStep [] raw = (λ f, (dedupKey f, f)) <$> raw.
Proof.
  induction raw as [|x raw IH] using rev_ind; [done|].
  rewrite fmap_app, fmap_cons, fmap_nil. intros Hnd.
  apply NoDup_app in Hnd as (Hraw & Hx & _).
  rewrite foldl_snoc, IH by done. unfold dedupStep.
  assert (Hhas : Js.has ((λ f, (dedupKey f, f)) <$> raw) (dedupKey x) = false).
  { apply has_false. unfold Js.keys. rewrite <- list_fmap_compose.
    intros Hin. apply (Hx _ Hin). by left. }
  rewrite Hhas. cbn [negb]. rewrite set_absent by done.
  by rewrite fmap_app.
Qed.

Lemma deduplicate_distinct (raw : list Finding) :
  NoDup (dedupKey <$> raw) → deduplicateFindings raw = raw.
Proof.
  intros Hnd. unfold deduplicateFindings, Js.values.
  rewrite seen_distinct by done. rewrite <- list_fmap_compose.
  apply list_fmap_id.
Qed.

(** Deduplicating again changes nothing, and a list whose key strings
    are pairwise distinct is returned as it is, in its order. *)
Theorem dedup_idempotent (raw : list Finding) :
  deduplicateFindings (deduplicateFindings raw) = deduplicateFindings raw ∧
  (NoDup (dedupKey <$> raw) → deduplicateFindings raw = raw).
Proof.
  split; [|apply deduplicate_distinct].
  apply deduplicate_distinct.
  destruct (deduplicate_spec raw) as [-> _]. apply NoDup_firstSeen.
Qed.

Lemma bestOfKey_elem_of raw f : bestOfKey raw f → f ∈ raw.
Proof.
  intros (before & after & -> & _). apply elem_of_app. right. by left.
Qed.

Lemma deduplicate_permutation (raw1 raw2 : list Finding) :
  raw1 ≡ₚ raw2 →
  (dedupKey <$> deduplicateFindings raw1) ≡ₚ (dedupKey <$> deduplicateFindings raw2) ∧
  (∀ f1 f2, f1 ∈ deduplicateFindings raw1 → f2 ∈ deduplicateFindings raw2 →
            dedupKey f1 = dedupKey f2 → (confidence f1 == confidence f2)%Q).
Proof.
  intros Hperm.
  destruct (deduplicate_spec raw1) as [Hk1 Hb1].
  destruct (deduplicate_spec raw2) as [Hk2 Hb2].
  split.
  - rewrite Hk1, Hk2. apply NoDup_Permutation; [apply NoDup_firstSeen..|].
    intros k. rewrite !elem_of_firstSeen. by rewrite Hperm.
  - intros f1 f2 Hf1%Hb1 Hf2%Hb2 Hkey. apply Qle_antisym.
    + apply (bestOfKey_confidence raw2); [done| |done].
      rewrite <- Hperm. by apply bestOfKey_elem_of.
    + apply (bestOfKey_confidence raw1); [done| |done].
      rewrite Hperm. by apply bestOfKey_elem_of.
Qed.

Lemma taskEffect_name host config i adapter :
  ToolRun.name <$> toolsRun (taskEffect host config i adapter)
  = [ScannerAdapter.name adapter].
Proof.
  unfold taskEffect, runTask.
  destruct (ScannerAdapter.isAvailable adapter) as [[]|];
    [destruct (ScannerAdapter.scan adapter config)|..]; done.
Qed.

Lemma runAll_names host config adapters order :
  ToolRun.name <$> toolsRun (runAll host config adapters order)
  = (λ t, ScannerAdapter.name t.2) <$> settled adapters order.
Proof.
  destruct (runAll_effects host config adapters order) as (-> & _ & _).
  induction (settled adapters order) as [|t ts IH]; [done|].
  rewrite !fmap_cons, bind_cons, fmap_app, IH. by rewrite taskEffect_name.
Qed.

Lemma settled_all_from (before adapters : list ScannerAdapter.t) :
  (settled (before ++ adapters) (seq (length before) (length adapters))).*2
  = adapters.
Proof.
  revert before. induction adapters as [|a adapters IH]; intros before; [done|].
  unfold settled in *. cbn [length seq omap list_omap].
  rewrite list_lookup_middle by done. cbn [fmap option_fmap option_map].
  rewrite fmap_cons. cbn [snd]. f_equal.
  specialize (IH (before ++ [a])).
  rewrite <- app_assoc, length_app in IH. simpl in IH.
  by rewrite Nat.add_1_r in IH.
Qed.

Lemma settled_all (adapters : list ScannerAdapter.t) :
  (settled adapters (seq 0 (length adapters))).*2 = adapters.
Proof. apply (settled_all_from [] adapters). Qed.

(** When the two completion orders are rearrangements of each other,
    the two results report the same key strings, as many findings, the
    same confidence for each key, and the same tools. *)
Theorem scan_order_independent host adapters config (order1 order2 : list nat) :
  order1 ≡ₚ order2 →
  let r1 := scan host adapters config order1 in
  let r2 := scan host adapters config order2 in
  (dedupKey <$> ScanResult.findings r1) ≡ₚ (dedupKey <$> ScanResult.findings r2) ∧
  Stats.total (ScanResult.stats r1) = Stats.total (ScanResult.stats r2) ∧
  (∀ f1 f2, f1 ∈ ScanResult.findings r1 → f2 ∈ ScanResult.findings r2 →
            dedupKey f1 = dedupKey f2 → (confidence f1 == confidence f2)%Q) ∧
  (ToolRun.name <$> ScanResult.toolsRun r1) ≡ₚ (ToolRun.name <$> ScanResult.toolsRun r2).
Proof.
  intros Hperm r1 r2.
  assert (Hraw : allFindings (runAll host config adapters order1)
                 ≡ₚ allFindings (runAll host config adapters order2)).
  { rewrite !runAll_findings. unfold settled. by rewrite Hperm. }
  destruct (deduplicate_permutation _ _ Hraw) as [Hkeys Hconf].
  split_and!.
  - exact Hkeys.
  - unfold r1, r2, scan, calculateStats. cbn [ScanResult.stats].
    repeat match goal with |- context [foldl statsStep ?b ?l] =>
      destruct (foldl statsStep b l) as [[??]?] end.
    cbn [Stats.total]. apply Permutation_length in Hkeys.
    by rewrite !length_fmap in Hkeys.
  - exact Hconf.
  - unfold r1, r2, scan. cbn [ScanResult.toolsRun].
    rewrite !runAll_names. unfold settled. by rewrite Hperm.
Qed.

(** Two adapters that report the same place with different confidences,
    settling in either order. *)
Lemma scan_order_sample :
  Stats.total (ScanResult.stats
    (scan Sample.host
       [Sample.returning [Sample.finding "A" "a.ts" 1 "r" (1 # 2) "run(x)"];
        Sample.returning [Sample.finding "B" "a.ts" 1 "r" (9 # 10) "run(x)"]]
       Sample.config [0; 1]%nat))
  = Stats.total (ScanResult.stats
    (scan Sample.host
       [Sample.returning [Sample.finding "A" "a.ts" 1 "r" (1 # 2) "run(x)"];
        Sample.returning [Sample.finding "B" "a.ts" 1 "r" (9 # 10) "run(x)"]]
       Sample.config [1; 0]%nat)).
Proof.
  apply (scan_order_independent Sample.host
           [Sample.returning [Sample.finding "A" "a.ts" 1 "r" (1 # 2) "run(x)"];
            Sample.returning [Sample.finding "B" "a.ts" 1 "r" (9 # 10) "run(x)"]]
           Sample.config [0; 1]%nat [1; 0]%nat).
  apply perm_swap.
Defined.

(** When every task settles once, the result names each adapter once:
    there is one [toolsRun] entry for each adapter, whatever its outcome. *)
Theorem one_record_per_adapter host adapters config (order : list nat) :
  order ≡ₚ seq 0 (length adapters) →
  let r := scan host adapters config order in
  (ToolRun.name <$> ScanResult.toolsRun r) ≡ₚ (ScannerAdapter.name <$> adapters) ∧
  length (ScanResult.toolsRun r) = length adapters.
Proof.
  intros Hperm r.
  assert (Hnames : (ToolRun.name <$> ScanResult.toolsRun r)
                   ≡ₚ (ScannerAdapter.name <$> adapters)).
  { unfold r, scan. cbn [ScanResult.toolsRun]. rewrite runAll_names.
    unfold settled. rewrite Hperm.
    change (omap _ (seq 0 (length adapters)))
      with (settled adapters (seq 0 (length adapters))).
    change (λ t : nat * ScannerAdapter.t, ScannerAdapter.name t.2)
      with (ScannerAdapter.name ∘ (snd : nat * ScannerAdapter.t → ScannerAdapter.t)).
    rewrite list_fmap_compose. by rewrite settled_all. }
  split; [done|]. apply Permutation_length in Hnames.
  by rewrite !length_fmap in Hnames.
Qed.

(** A tool that is missing, a probe that throws and a scan that
    returns, settling last to first. *)
Lemma one_record_sample :
  length (ScanResult.toolsRun
            (scan Sample.host
               [Sample.notInstalled; Sample.probeThrows; Sample.returning [Sample.first]]
               Sample.config [2; 1; 0]%nat)) = 3%nat.
Proof.
  apply (one_record_per_adapter Sample.host
           [Sample.notInstalled; Sample.probeThrows; Sample.returning [Sample.first]]
           Sample.config [2; 1; 0]%nat).
  vm_compute. apply Permutation_rev.
Defined.

(** The orchestrator invents no finding: each finding of the result is
    one that an adapter of the run returned from its [scan], after its
    probe resolved to [true]. *)
Theorem scan_reports_only_returned_findings host adapters config (order : list nat) :
  Forall (λ f, ∃ i adapter returned,
            i ∈ order ∧ adapters !! i = Some adapter ∧
            ScannerAdapter.isAvailable adapter = Resolved true ∧
            ScannerAdapter.scan adapter config = Resolved returned ∧
            f ∈ returned)
         (ScanResult.findings (scan host adapters config order)).
Proof.
  apply Forall_forall. intros f Hf. unfold scan in Hf. cbn [ScanResult.findings] in Hf.
  destruct (deduplicate_spec (allFindings (runAll host config adapters order)))
    as [_ Hbest].
  apply Hbest, bestOfKey_elem_of in Hf. rewrite runAll_findings in Hf.
  apply list_elem_of_bind in Hf as ([i adapter] & Hprod & Htask).
  unfold settled in Htask. apply list_elem_of_omap in Htask as (j & Hj & Hlook).
  destruct (adapters !! j) as [a|] eqn:Ha; [|done]. simpl in Hlook.
  injection Hlook as <- <-. cbn [snd] in Hprod. unfold produced in Hprod.
  destruct (ScannerAdapter.isAvailable a) as [[]|] eqn:Hprobe;
    [|by apply elem_of_nil in Hprod..].
  destruct (ScannerAdapter.scan a config) as [returned|] eqn:Hscan;
    [|by apply elem_of_nil in Hprod].
  by exists j, a, returned.
Qed.

(** * The suppression engine, composed *)

Section EngineComposition.
Import FalsePositiveRuleEngine.
Variable isMatch : string → string → bool.
Variable readFile : string → option string.
Variable engine : FalsePositiveRuleEngine.t.

Local Abbreviation verdict := (shouldSuppress isMatch readFile engine).
Local Abbreviation suppresses := (λ f, suppress (verdict f) = true).
Local Abbreviation annotate := (λ f, withSuppressedBy f (reason (verdict f))).
Local Abbreviation run := (filterFindings isMatch readFile engine).

(** The engine filters finding by finding: the verdict on one finding
    does not depend on the findings around it, so filtering a
    concatenation gives the concatenation of the two results. *)
Theorem filter_append (a b : list Finding) :
  findings (run (a ++ b)) = findings (run a) ++ findings (run b) ∧
  suppressed (run (a ++ b)) = suppressed (run a) ++ suppressed (run b).
Proof.
  destruct (filterFindings_spec isMatch readFile engine (a ++ b)) as [-> ->].
  destruct (filterFindings_spec isMatch readFile engine a) as [-> ->].
  destruct (filterFindings_spec isMatch readFile engine b) as [-> ->].
  by rewrite !filter_app, fmap_app.
Qed.

Lemma customRule_withSuppressedBy rules finding why :
  customRule isMatch rules (withSuppressedBy finding why)
  = customRule isMatch rules finding.
Proof.
  induction rules as [|rule rules IH]; [done|]. cbn [customRule].
  by rewrite IH.
Qed.

(** The verdict does not read [suppressedBy]. *)
Lemma verdict_withSuppressedBy finding why :
  verdict (withSuppressedBy finding why) = verdict finding.
Proof.
  unfold shouldSuppress. rewrite customRule_withSuppressedBy. reflexivity.
Qed.

Lemma withSuppressedBy_twice finding why why' :
  withSuppressedBy (withSuppressedBy finding why) why'
  = withSuppressedBy finding why'.
Proof. reflexivity. Qed.

Lemma filter_all {A} (P : A → Prop) `{∀ x, Decision (P x)} (l : list A) :
  Forall P l → filter P l = l.
Proof.
  induction 1 as [|x l Hx _ IH]; [done|].
  by rewrite filter_cons_True, IH.
Qed.

Lemma filter_none {A} (P : A → Prop) `{∀ x, Decision (P x)} (l : list A) :
  Forall (λ x, ¬ P x) l → filter P l = [].
Proof.
  induction 1 as [|x l Hx _ IH]; [done|].
  by rewrite filter_cons_False, IH.
Qed.

(** Filtering is stable. The kept findings, filtered again, are all
    kept; the suppressed entries, filtered again, are all suppressed and
    come out unchanged, each with the reason it already carries. *)
Theorem filter_again (input : list Finding) :
  let r := run input in
  findings (run (findings r)) = findings r ∧
  suppressed (run (findings r)) = [] ∧
  findings (run (suppressed r)) = [] ∧
  suppressed (run (suppressed r)) = suppressed r.
Proof.
  intros r.
  destruct (filterFindings_spec isMatch readFile engine input) as [Hk Hs].
  fold r in Hk, Hs.
  assert (Hkept : Forall (λ f, ¬ suppresses f) (findings r)).
  { rewrite Hk. apply Forall_forall. by intros f [? _]%list_elem_of_filter. }
  assert (Hsupp : Forall suppresses (suppressed r)).
  { rewrite Hs. apply Forall_forall. intros g (f & -> & [Hf _]%list_elem_of_filter)%list_elem_of_fmap.
    by rewrite verdict_withSuppressedBy. }
  destruct (filterFindings_spec isMatch readFile engine (findings r)) as [-> ->].
  destruct (filterFindings_spec isMatch readFile engine (suppressed r)) as [-> ->].
  rewrite (filter_all _ _ Hkept), (filter_all _ _ Hsupp).
  rewrite (filter_none suppresses (findings r)) by done.
  rewrite (filter_none (λ f, ¬ suppresses f) (suppressed r))
    by (eapply Forall_impl; [exact Hsupp | tauto]).
  split_and!; [done..|].
  rewrite Hs, <- list_fmap_compose. apply list_fmap_ext.
  intros _ f _. simpl. by rewrite verdict_withSuppressedBy.
Qed.

End EngineComposition.

(** * The window at the edges of a file *)

Lemma split_nonempty sep s : (1 ≤ length (Js.split sep s))%nat.
Proof.
  induction s as [|c s IH]; simpl; [lia|].
  destruct (Ascii.eqb c sep); simpl; [lia|].
  destruct (Js.split sep s); simpl in *; lia.
Qed.

Lemma marked_missing : marked None = false.
Proof. reflexivity. Qed.

(** No context, or an empty one: the three stages that read the context
    are passed over. *)
Lemma shouldSuppress_no_context isMatch readFile engine finding :
  Js.truthy_opt (FalsePositiveRuleEngine.getContext readFile finding) = false →
  FalsePositiveRuleEngine.shouldSuppress isMatch readFile engine finding
  = FalsePositiveRuleEngine.shouldSuppress isMatch (λ _, None) engine finding.
Proof.
  intros Hctx. unfold FalsePositiveRuleEngine.shouldSuppress.
  change (FalsePositiveRuleEngine.getContext (λ _, None) finding) with (@None string).
  rewrite Hctx. cbn [andb Js.truthy_opt].
  assert (Hkey : FalsePositiveRuleEngine.isLegitimatePublicApiKey finding
                   (FalsePositiveRuleEngine.getContext readFile finding) = false).
  { destruct (FalsePositiveRuleEngine.getContext readFile finding) as [ctx|]; [|done].
    simpl in Hctx. unfold FalsePositiveRuleEngine.isLegitimatePublicApiKey.
    by rewrite Hctx. }
  rewrite Hkey. reflexivity.
Qed.

Lemma getContext_past_the_end readFile finding :
  readFile (file finding) = None ∨
  Z.of_nat (length (fileLines readFile finding)) ≤ line finding - 6 →
  Js.truthy_opt (FalsePositiveRuleEngine.getContext readFile finding) = false.
Proof.
  unfold FalsePositiveRuleEngine.getContext, fileLines.
  destruct (readFile (file finding)) as [content|]; [|done].
  intros [?|Hlen]; [done|]. simpl in Hlen.
  pose proof (split_nonempty Js.LF content) as Hne.
  cbv zeta. unfold Js.slice, Js.relative.
  set (len := Z.of_nat (length (Js.split Js.LF content))) in *.
  rewrite (proj2 (Z.ltb_ge (Z.max 0 (line finding - 6)) 0)) by lia.
  rewrite (proj2 (Z.ltb_ge (Z.min len (line finding + 5)) 0)) by lia.
  replace (Z.to_nat (Z.max _ 0)) with 0%nat by lia.
  by rewrite take_0.
Qed.

(** When the file of a finding cannot be read, or the finding lies more
    than five lines past the end of its file, the engine has no context:
    the marker stage does not fire, and the verdict is the one the engine
    gives when nothing can be read, from the path, the snippet, the rule
    and the category alone. *)
Theorem no_context_verdict isMatch readFile engine finding :
  readFile (file finding) = None ∨
  Z.of_nat (length (fileLines readFile finding)) ≤ line finding - 6 →
  inlineMarkerStage readFile finding = false ∧
  FalsePositiveRuleEngine.shouldSuppress isMatch readFile engine finding
  = FalsePositiveRuleEngine.shouldSuppress isMatch (λ _, None) engine finding.
Proof.
  intros Hctx%getContext_past_the_end. split.
  - unfold inlineMarkerStage. by rewrite Hctx.
  - by apply shouldSuppress_no_context.
Qed.

(** Line 36 of the sample file of thirty lines. *)
Lemma no_context_sample :
  FalsePositiveRuleEngine.shouldSuppress Fixture.noGlob Sample.files
    (FalsePositiveRuleEngine.new Sample.config) (Sample.onLine 36)
  = FalsePositiveRuleEngine.shouldSuppress Fixture.noGlob (λ _, None)
      (FalsePositiveRuleEngine.new Sample.config) (Sample.onLine 36).
Proof.
  apply (no_context_verdict Fixture.noGlob Sample.files
           (FalsePositiveRuleEngine.new Sample.config) (Sample.onLine 36)).
  right. vm_compute. discriminate.
Defined.

(** For a finding on line 1, or without a line (line 0, down to -4), the
    fifth stage fires exactly when the first line of the file carries a
    marker. *)
Theorem nosec_stage_first_line readFile finding :
  -4 ≤ line finding ≤ 1 →
  inlineMarkerStage readFile finding = markedLine readFile finding 1.
Proof.
  intros Hn. unfold markedLine.
  destruct (readFile (file finding)) as [content|] eqn:Hread.
  2: { unfold inlineMarkerStage, FalsePositiveRuleEngine.getContext, fileLines.
       by rewrite Hread. }
  rewrite (fileLines_read _ _ _ Hread).
  pose proof (split_nonempty Js.LF content) as Hne.
  rewrite (inlineMarkerStage_window _ _ _ Hread) by lia. cbv zeta.
  set (lines := Js.split Js.LF content) in *.
  set (n := line finding) in *.
  replace (Z.max 0 (n - 6)) with 0 by lia. rewrite Z.sub_0_r.
  change (Z.to_nat 0) with 0%nat. rewrite drop_0, length_take.
  replace (Z.max 0 (n - 2)) with 0 by lia.
  change (1 - 1) with 0.
  rewrite (index_lookup _ 0) by lia. change (Z.to_nat 0) with 0%nat.
  rewrite (index_lookup lines 0) by lia. change (Z.to_nat 0) with 0%nat.
  rewrite lookup_take_lt by lia.
  destruct (decide (n = 1)) as [->|Hne1].
  - replace (Z.min (1 - 1) _) with 0 by lia.
    rewrite (index_lookup _ 0) by lia. change (Z.to_nat 0) with 0%nat.
    rewrite lookup_take_lt by lia. apply orb_diag.
  - rewrite index_negative by lia. by rewrite marked_missing.
Qed.

(** A finding without a line in a file whose first line carries a marker. *)
Lemma nosec_stage_first_line_sample :
  inlineMarkerStage Fixture.files (Fixture.onLine 0) = true.
Proof.
  rewrite (nosec_stage_first_line Fixture.files (Fixture.onLine 0)).
  - reflexivity.
  - simpl. lia.
Defined.

(** On the lines 7 to 11, in a file that goes on for five more lines,
    the window starts above the finding and the stage indexes it with the
    line number: for line [n] it reads the lines [2n - 6] and [2n - 7] of
    the file. *)
Theorem nosec_stage_between readFile finding :
  7 ≤ line finding ≤ 11 →
  line finding + 5 ≤ Z.of_nat (length (fileLines readFile finding)) →
  inlineMarkerStage readFile finding =
  markedLine readFile finding (2 * line finding - 6) ||
  markedLine readFile finding (2 * line finding - 7).
Proof.
  intros Hn Hlen.
  destruct (fileLines_long readFile finding) as [content Hread]; [lia|].
  unfold markedLine. rewrite (fileLines_read _ _ _ Hread) in *.
  rewrite (inlineMarkerStage_window _ _ _ Hread) by lia. cbv zeta.
  set (lines := Js.split Js.LF content) in *.
  set (n := line finding) in *.
  replace (Z.max 0 (n - 6)) with (n - 6) by lia.
  replace (Z.min (Z.of_nat (length lines)) (n + 5)) with (n + 5) by lia.
  replace (n + 5 - (n - 6)) with 11 by lia.
  rewrite length_take, length_drop.
  replace (Z.min (n - 1) _) with (n - 1) by lia.
  replace (Z.max 0 (n - 2)) with (n - 2) by lia.
  rewrite !index_lookup by lia.
  rewrite !lookup_take_lt, !lookup_drop by lia.
  replace (Z.to_nat (n - 6) + Z.to_nat (n - 1))%nat with (Z.to_nat (2 * n - 6 - 1)) by lia.
  replace (Z.to_nat (n - 6) + Z.to_nat (n - 2))%nat with (Z.to_nat (2 * n - 7 - 1)) by lia.
  done.
Qed.

(** A finding on line 10 of a file whose line 14 carries a marker. *)
Lemma nosec_stage_between_sample :
  inlineMarkerStage Fixture.files (Fixture.onLine 10) = true.
Proof.
  rewrite (nosec_stage_between Fixture.files (Fixture.onLine 10)).
  - reflexivity.
  - simpl. lia.
  - vm_compute. discriminate.
Defined.

(** * Rule names *)

Lemma upper_hyphen c : Ascii.eqb (Js.upper c) "-" = Ascii.eqb c "-".
Proof. by destruct c as [[] [] [] [] [] [] [] []]. Qed.

Lemma occurrences_app c a b :
  occurrences c (a +:+ b) = (occurrences c a + occurrences c b)%nat.
Proof. induction a as [|c' a IH]; [done|]. simpl. rewrite IH. lia. Qed.

Lemma length_append a b :
  String.length (a +:+ b) = (String.length a + String.length b)%nat.
Proof. induction a as [|c' a IH]; [done|]. simpl. by rewrite IH. Qed.

Lemma split_hyphens s :
  Forall (λ w, occurrences "-" w = 0%nat) (Js.split "-" s) ∧
  (sum_list_with String.length (Js.split "-" s) + occurrences "-" s)%nat
  = String.length s.
Proof.
  induction s as [|c s [IHf IHl]]; [by repeat constructor|].
  cbn [Js.split occurrences String.length].
  destruct (Ascii.eqb c "-") eqn:Hc.
  - split; [by constructor|]. simpl. lia.
  - destruct (Js.split "-" s) as [|w ws].
    + split; [repeat constructor; simpl; by rewrite Hc|]. simpl in *. lia.
    + apply Forall_cons in IHf as [Hw Hws]. split.
      * constructor; [|done]. simpl. by rewrite Hc, Hw.
      * simpl in *. lia.
Qed.

Lemma capitalize_length w :
  String.length (SarifReporter.capitalize w) = String.length w.
Proof. by destruct w. Qed.

Lemma capitalize_hyphens w :
  occurrences "-" (SarifReporter.capitalize w) = occurrences "-" w.
Proof. destruct w as [|c w]; [done|]. simpl. by rewrite upper_hyphen. Qed.

Lemma join_words (ws : list string) :
  String.length (Js.join "" ws) = sum_list_with String.length ws ∧
  occurrences "-" (Js.join "" ws) = sum_list_with (occurrences "-") ws.
Proof.
  unfold Js.join. induction ws as [|w ws [IHl IHo]]; [done|].
  destruct ws as [|w' ws].
  - simpl. split; lia.
  - change (String.concat "" (w :: w' :: ws))
      with (w +:+ "" +:+ String.concat "" (w' :: ws)).
    cbn [sum_list_with]. rewrite length_append, occurrences_app.
    change ("" +:+ String.concat "" (w' :: ws)) with (String.concat "" (w' :: ws)).
    by rewrite IHl, IHo.
Qed.

Lemma capitalized_words (ws : list string) :
  sum_list_with String.length (SarifReporter.capitalize <$> ws)
  = sum_list_with String.length ws ∧
  sum_list_with (occurrences "-") (SarifReporter.capitalize <$> ws)
  = sum_list_with (occurrences "-") ws.
Proof.
  induction ws as [|w ws [IHl IHo]]; [done|].
  rewrite fmap_cons. cbn [sum_list_with].
  by rewrite capitalize_length, capitalize_hyphens, IHl, IHo.
Qed.

Lemma sum_hyphen_free (ws : list string) :
  Forall (λ w, occurrences "-" w = 0%nat) ws →
  sum_list_with (occurrences "-") ws = 0%nat.
Proof.
  induction 1 as [|w ws Hw _ IH]; [done|]. cbn [sum_list_with]. by rewrite Hw, IH.
Qed.

(** The name [toRuleName] gives a rule holds no hyphen, and is shorter
    than the rule id by the number of hyphens of the id: the hyphens are
    dropped, nothing else is. *)
Theorem toRuleName_drops_hyphens (ruleId : string) :
  isAscii ruleId = true →
  occurrences "-" (SarifReporter.toRuleName ruleId) = 0%nat ∧
  (String.length (SarifReporter.toRuleName ruleId) + occurrences "-" ruleId)%nat
  = String.length ruleId.
Proof.
  intros _. unfold SarifReporter.toRuleName.
  destruct (split_hyphens ruleId) as [Hfree Hlen].
  destruct (join_words (SarifReporter.capitalize <$> Js.split "-" ruleId))
    as [-> ->].
  destruct (capitalized_words (Js.split "-" ruleId)) as [-> ->].
  split; [by apply sum_hyphen_free | done].
Qed.

Lemma toRuleName_sample :
  occurrences "-" (SarifReporter.toRuleName "hardcoded-api-key") = 0%nat.
Proof.
  apply (toRuleName_drops_hyphens "hardcoded-api-key"). reflexivity.
Defined.

(** * The report of [SARIFProcessor.generateSARIF] *)

Lemma has_fmap_values {V W} (g : V → W) (m : list (string * V)) k :
  Js.has (fmap (M:=list) (prod_map (λ k : string, k) g) m) k = Js.has m k.
Proof.
  induction m as [|[k' v'] m IH]; [done|]. rewrite fmap_cons. simpl. by rewrite IH.
Qed.

Lemma set_fmap_values {V W} (g : V → W) (m : list (string * V)) k v :
  Js.set (fmap (M:=list) (prod_map (λ k : string, k) g) m) k (g v)
  = fmap (M:=list) (prod_map (λ k : string, k) g) (Js.set m k v).
Proof.
  induction m as [|[k' v'] m IH]; [done|]. rewrite fmap_cons. simpl.
  destruct (String.eqb k' k); [done|]. by rewrite fmap_cons, IH.
Qed.

Lemma values_fmap_values {V W} (g : V → W) (m : list (string * V)) :
  Js.values (fmap (M:=list) (prod_map (λ k : string, k) g) m) = g <$> Js.values m.
Proof.
  unfold Js.values. rewrite <- !list_fmap_compose. by apply list_fmap_ext; intros ? [].
Qed.

(** Both writers choose the first finding of each rule. *)
Lemma processor_rulesMap (kept : list Finding) :
  foldl Processor.rulesStep [] kept
  = fmap (M:=list) (prod_map (λ k : string, k) Processor.toRule)
      (foldl SarifReporter.rulesStep [] kept).
Proof.
  induction kept as [|x kept IH] using rev_ind; [done|].
  rewrite !foldl_snoc, IH. unfold Processor.rulesStep, SarifReporter.rulesStep.
  rewrite has_fmap_values.
  destruct (Js.has _ (ruleId x)); simpl; [done|]. apply set_fmap_values.
Qed.

Lemma generateRules_first (kept : list Finding) :
  Processor.generateRules kept
  = Processor.toRule <$> Js.values (foldl SarifReporter.rulesStep [] kept).
Proof.
  unfold Processor.generateRules. rewrite processor_rulesMap.
  apply values_fmap_values.
Qed.

(** The report [generateSARIF] builds has one run. Its driver declares
    one rule for each rule id of the findings, in the order the ids are
    first seen, the same ids in the same order as the rules of
    [SarifReporter], each built from the first finding of its rule. There
    is one result for each finding; each result refers to a declared rule
    and has one location, with an artifact location and a region, and the
    region has a start column other than 0 and an end line. *)
Theorem generateSARIF_rules_and_results (result : ScanResult.t) (sourceRoot : string) :
  let kept := ScanResult.findings result in
  ∃ run rules,
    SARIF.runs (Processor.generateSARIF result sourceRoot) = [run] ∧
    SARIF.rules (SARIF.driver (SARIF.tool run)) = Some rules ∧
    SARIF.id <$> rules = firstSeen (ruleId <$> kept) ∧
    SARIF.id <$> rules = Sarif.id <$> SarifReporter.extractRules kept ∧
    (∀ rule, rule ∈ rules → ∃ f, firstOfRule kept f ∧ rule = Processor.toRule f) ∧
    length (SARIF.results run) = length kept ∧
    Forall (λ res,
              SARIF.ruleId res ∈ SARIF.id <$> rules ∧
              ∃ artifactLocation region,
                SARIF.locations res =
                  [{| SARIF.physicalLocation :=
                        Some {| SARIF.artifactLocation := Some artifactLocation;
                                SARIF.region := Some region |} |}] ∧
                is_Some (SARIF.startColumn region) ∧
                SARIF.startColumn region ≠ Some 0 ∧
                is_Some (SARIF.endLine region))
           (SARIF.results run).
Proof.
  intros kept. eexists _, _. split; [reflexivity|]. cbn [SARIF.tool SARIF.driver SARIF.rules SARIF.results].
  split; [reflexivity|]. fold kept.
  assert (Hids : SARIF.id <$> Processor.generateRules kept = firstSeen (ruleId <$> kept)).
  { rewrite generateRules_first, <- list_fmap_compose. apply rulesMap_ids. }
  split_and!.
  - exact Hids.
  - rewrite Hids. unfold SarifReporter.extractRules.
    rewrite <- list_fmap_compose. symmetry. apply rulesMap_ids.
  - rewrite generateRules_first.
    intros rule (f & -> & Hf)%list_elem_of_fmap.
    destruct (rulesMap_spec kept) as [Hk Hg]. cbv zeta in Hk, Hg.
    assert (Hnd : NoDup (Js.keys (foldl SarifReporter.rulesStep [] kept)))
      by (rewrite Hk; apply NoDup_firstSeen).
    apply (elem_of_values _ _ Hnd) in Hf as [k Hget].
    apply Hg in Hget as [_ Hfirst]. by exists f.
  - by rewrite length_fmap.
  - rewrite Hids. apply Forall_fmap, Forall_forall. intros f Hf. split.
    + apply elem_of_firstSeen, list_elem_of_fmap. by exists f.
    + eexists _, _. split; [reflexivity|]. cbn. split_and!; [by eexists| |by eexists].
      unfold JsString.orNumber. destruct (column f) as [c|]; [|done].
      destruct (c =? 0) eqn:Hc; [done|]. apply Z.eqb_neq in Hc. congruence.
Qed.

(** * Paths relative to the source root *)

Lemma prefix_append a b : String.prefix a (a +:+ b) = true.
Proof.
  induction a as [|c a IH]; [by destruct b|]. simpl.
  destruct (ascii_dec c c); [done|congruence].
Qed.

Lemma substring_append a b :
  JsString.substring (a +:+ b) (String.length a) = b.
Proof. induction a as [|c a IH]; [by destruct b|]. done. Qed.

Lemma substring_past_end a : JsString.substring a (String.length a + 1) = "".
Proof. induction a as [|c a IH]; done. Qed.

(** [relativePath] removes the source root from the front of a path
    together with the one character that follows it, whatever that
    character is; a path that is the root itself becomes the empty
    string, and a path that does not start with the root is returned as
    it is. *)
Theorem relativePath_cases (root rest filePath : string) (c : ascii) :
  (nat_of_ascii c < 128)%nat →
  Processor.relativePath (root +:+ String c rest) root = rest ∧
  Processor.relativePath root root = "" ∧
  (JsString.startsWith filePath root = false →
   Processor.relativePath filePath root = filePath).
Proof.
  intros _. unfold Processor.relativePath, JsString.startsWith. split_and!.
  - rewrite prefix_append.
    change (root +:+ String c rest) with (root +:+ (String c "" +:+ rest)).
    rewrite <- append_assoc.
    replace (String.length root + 1)%nat with (String.length (root +:+ String c ""))
      by (rewrite length_append; simpl; lia).
    apply substring_append.
  - rewrite <- (append_empty_r root) at 2. rewrite prefix_append.
    apply substring_past_end.
  - by intros ->.
Qed.

(** With the default root [.], the path [.env] loses its dot and its
    first letter. *)
Lemma relativePath_sample : Processor.relativePath ".env" "." = "nv".
Proof.
  apply (relativePath_cases "." "nv" "" "e"). vm_compute. lia.
Defined.

(** * Tool names and rule ids *)

Lemma lower_upper c : Js.lower (Js.upper c) = Js.lower c.
Proof. by destruct c as [[] [] [] [] [] [] [] []]. Qed.

Lemma toLowerCase_toUpperCase s :
  JsString.toLowerCase (JsString.toUpperCase s) = JsString.toLowerCase s.
Proof. induction s as [|c s IH]; [done|]. simpl. by rewrite lower_upper, IH. Qed.

(** The source and the category [extractFindings] infers do not depend
    on the case of the tool name and of the rule id, and the source is
    never one of the two npm and React analyzers. *)
Theorem inferred_whatever_the_case (toolName ruleId : string) :
  isAscii toolName = true → isAscii ruleId = true →
  Processor.mapToolNameToSource (JsString.toUpperCase toolName)
  = Processor.mapToolNameToSource toolName ∧
  Processor.inferCategory (JsString.toUpperCase ruleId)
  = Processor.inferCategory ruleId ∧
  Processor.mapToolNameToSource toolName ≠ custom_npm ∧
  Processor.mapToolNameToSource toolName ≠ custom_react.
Proof.
  intros _ _. unfold Processor.mapToolNameToSource, Processor.inferCategory.
  rewrite !toLowerCase_toUpperCase. split_and!; [done|done|..];
    by repeat case_match.
Qed.

Lemma inferred_sample :
  Processor.mapToolNameToSource "SEMGREP OSS" = semgrep ∧
  Processor.inferCategory "SQLI-CONCAT" = injection.
Proof.
  destruct (inferred_whatever_the_case "Semgrep OSS" "sqli-concat")
    as (Hsource & Hcategory & _); [reflexivity..|].
  split; [exact Hsource | exact Hcategory].
Defined.

(** * Merging SARIF files *)

Section Merge.
Import Processor.

Local Abbreviation keysOf := (omap resultKey).
Local Abbreviation quiet := (λ r : SARIF.Result, throws r = false).
Local Abbreviation flat := (λ st : MergeState, mergedRuns st ≫= SARIF.results).

(** What the loops of [mergeSARIFFiles] keep true: after the results
    [given], of which they reached [processed], the merged results [out],
    the set [keys] and the counter [count]. *)
Local Abbreviation invariant :=
  (λ (given processed out : list SARIF.Result) (keys : gset string) (count : nat),
     keys = list_to_set (keysOf processed) ∧
     count = length (firstSeen (keysOf processed)) ∧
     Forall (firstOfKey processed) out ∧
     keysOf out `sublist_of` firstSeen (keysOf processed) ∧
     (Forall quiet given →
      processed = given ∧ keysOf out = firstSeen (keysOf processed))).

Lemma resultStep_cases st result :
  resultStep st result =
  if throws result then Thrown st
  else Normal
         match resultKey result with
         | Some key =>
             if bool_decide (key ∈ seenResults st) then st
             else {| mergedResults := mergedResults st ++ [result];
                     seenResults := {[ key ]} ∪ seenResults st;
                     totalFindings := S (totalFindings st) |}
         | None => st
         end.
Proof.
  unfold resultStep, resultKey, throws.
  destruct (firstLocation result) as [location|]; [|done]. simpl.
  by destruct (createResultKey _ location).
Qed.

Lemma upToThrow_quiet rs : Forall quiet rs → upToThrow rs = rs.
Proof.
  induction 1 as [|r rs Hr _ IH]; [done|]. simpl. by rewrite Hr, IH.
Qed.

Lemma existsb_quiet rs : Forall quiet rs → existsb throws rs = false.
Proof.
  induction 1 as [|r rs Hr _ IH]; [done|]. simpl. by rewrite Hr, IH.
Qed.

Lemma existsb_throws rs : existsb throws rs = true → ¬ Forall quiet rs.
Proof. intros Hex Hq. apply existsb_quiet in Hq. congruence. Qed.

Lemma firstOfKey_later processed more r :
  firstOfKey processed r → firstOfKey (processed ++ more) r.
Proof.
  intros [Hkey (before & after & -> & Hfirst)]. split; [done|].
  exists before, (after ++ more). by rewrite <- app_assoc.
Qed.

Lemma keysOf_snoc_none processed r :
  resultKey r = None → keysOf (processed ++ [r]) = keysOf processed.
Proof. intros Hr. rewrite omap_app. simpl. rewrite Hr. apply app_nil_r. Qed.

Lemma keysOf_snoc_some processed r key :
  resultKey r = Some key → keysOf (processed ++ [r]) = keysOf processed ++ [key].
Proof. intros Hr. rewrite omap_app. simpl. by rewrite Hr. Qed.

Lemma key_elem_of (processed : list SARIF.Result) key :
  Some key ∈ resultKey <$> processed ↔ key ∈ keysOf processed.
Proof.
  rewrite list_elem_of_fmap, list_elem_of_omap. split.
  - intros (r & Hr & Hin). by exists r.
  - intros (r & Hin & Hr). by exists r.
Qed.

(** One result that does not throw. *)
Lemma resultStep_invariant given processed pre st r :
  throws r = false →
  invariant given processed (pre ++ mergedResults st) (seenResults st) (totalFindings st) →
  ∃ st', resultStep st r = Normal st' ∧
         invariant (given ++ [r]) (processed ++ [r]) (pre ++ mergedResults st')
                   (seenResults st') (totalFindings st').
Proof.
  intros Hquiet (Hseen & Hcount & Hfirst & Hsub & Hexact).
  rewrite resultStep_cases, Hquiet. eexists. split; [reflexivity|].
  assert (Hlater : Forall (firstOfKey (processed ++ [r])) (pre ++ mergedResults st)).
  { eapply Forall_impl; [exact Hfirst|]. intros ?. apply firstOfKey_later. }
  assert (Hgiven : Forall quiet (given ++ [r]) → Forall quiet given).
  { by intros [? _]%Forall_app. }
  destruct (resultKey r) as [key|] eqn:Hr.
  2: { rewrite (keysOf_snoc_none _ _ Hr). split_and!; [done..|].
       intros Hq. destruct (Hexact (Hgiven Hq)) as [-> ?]. done. }
  rewrite (keysOf_snoc_some _ _ _ Hr), firstSeen_snoc.
  case_bool_decide as Hin; rewrite Hseen, elem_of_list_to_set in Hin.
  - rewrite decide_True by done. split_and!; [|done..|].
    + rewrite Hseen. apply set_eq. intros k.
      rewrite !elem_of_list_to_set, elem_of_app, list_elem_of_singleton.
      split; [tauto | intros [?| ->]; done].
    + intros Hq. destruct (Hexact (Hgiven Hq)) as [-> ?]. done.
  - rewrite decide_False by done. cbn [mergedResults seenResults totalFindings].
    rewrite app_assoc. split_and!.
    + rewrite Hseen. apply set_eq. intros k.
      rewrite elem_of_union, elem_of_singleton, !elem_of_list_to_set,
        elem_of_app, list_elem_of_singleton. tauto.
    + rewrite length_app, Hcount. simpl. lia.
    + apply Forall_app. split; [done|]. apply Forall_singleton.
      split; [by rewrite Hr|]. exists processed, []. split; [done|].
      rewrite Hr. by rewrite key_elem_of.
    + rewrite omap_app. simpl. rewrite Hr. by apply sublist_app.
    + intros Hq. destruct (Hexact (Hgiven Hq)) as [-> Hkeys]. split; [done|].
      rewrite omap_app, Hkeys. simpl. by rewrite Hr.
Qed.

(** The loop over the results of a run: it ends normally exactly when no
    result throws, and has then, or at the throw, gone through the results
    before the first that throws. *)
Lemma results_invariant rs given processed pre st :
  invariant given processed (pre ++ mergedResults st) (seenResults st) (totalFindings st) →
  ∃ st', forOf resultStep st rs
         = (if existsb throws rs then Thrown st' else Normal st') ∧
         invariant (given ++ rs) (processed ++ upToThrow rs)
                   (pre ++ mergedResults st') (seenResults st') (totalFindings st').
Proof.
  revert given processed st. induction rs as [|r rs IH]; intros given processed st Hinv.
  - exists st. split; [done|]. by rewrite !app_nil_r.
  - cbn [forOf existsb upToThrow]. destruct (throws r) eqn:Hr.
    + rewrite resultStep_cases, Hr. exists st. split; [done|].
      rewrite app_nil_r. destruct Hinv as (? & ? & ? & ? & _). split_and!; [done..|].
      intros [_ [Hq _]%Forall_cons]%Forall_app. congruence.
    + destruct (resultStep_invariant given processed pre st r Hr Hinv)
        as (st1 & -> & Hinv1).
      destruct (IH (given ++ [r]) (processed ++ [r]) st1 Hinv1) as (st' & Hloop & Hinv').
      exists st'. split; [done|]. by rewrite <- !app_assoc in Hinv'.
Qed.

Lemma runStep_invariant given processed st run :
  invariant given processed (flat st) (seen st) (total st) →
  ∃ st', runStep st run
         = (if existsb throws (SARIF.results run) then Thrown st' else Normal st') ∧
         invariant (given ++ SARIF.results run)
                   (processed ++ upToThrow (SARIF.results run))
                   (flat st') (seen st') (total st').
Proof.
  intros Hinv.
  destruct (results_invariant (SARIF.results run) given processed (flat st)
              {| mergedResults := []; seenResults := seen st; totalFindings := total st |})
    as (filled & Hloop & Hfilled).
  { cbn [mergedResults seenResults totalFindings]. by rewrite app_nil_r. }
  unfold runStep. rewrite Hloop.
  destruct (existsb throws (SARIF.results run)) eqn:Hthrows.
  - eexists. split; [reflexivity|]. cbn [mergedRuns seen total].
    destruct Hfilled as (Hseen & Hcount & Hfirst & Hsub & _).
    split_and!; [done|done| | |].
    + by apply Forall_app in Hfirst as [? _].
    + etrans; [|exact Hsub]. rewrite omap_app. by apply sublist_inserts_r.
    + intros [_ Hq]%Forall_app. by apply existsb_throws in Hthrows.
  - eexists. split; [reflexivity|]. cbn [mergedRuns seen total].
    destruct (mergedResults filled) as [|r rs] eqn:Hmerged; simpl.
    + by rewrite app_nil_r in Hfilled.
    + rewrite bind_app. simpl. by rewrite app_nil_r.
Qed.

Lemma runs_invariant runs given processed st :
  invariant given processed (flat st) (seen st) (total st) →
  let st' := caught (forOf runStep st runs) in
  invariant (given ++ runs ≫= SARIF.results) (processed ++ reachedOfRuns runs)
            (flat st') (seen st') (total st').
Proof.
  revert given processed st. induction runs as [|run runs IH]; intros given processed st Hinv.
  - simpl. by rewrite !app_nil_r.
  - cbn [forOf reachedOfRuns]. cbv zeta. rewrite bind_cons.
    destruct (runStep_invariant given processed st run Hinv) as (st1 & -> & Hinv1).
    destruct (existsb throws (SARIF.results run)) eqn:Hthrows.
    + cbn [caught]. rewrite app_nil_r.
      destruct Hinv1 as (? & ? & ? & ? & _). split_and!; [done..|].
      intros [_ [Hq _]%Forall_app]%Forall_app. by apply existsb_throws in Hthrows.
    + rewrite !app_assoc. by apply IH.
Qed.

Lemma files_invariant inputs given processed st :
  invariant given processed (flat st) (seen st) (total st) →
  let st' := foldl fileStep st inputs in
  invariant (given ++ inputResults inputs) (processed ++ reached inputs)
            (flat st') (seen st') (total st').
Proof.
  revert given processed st. induction inputs as [|input inputs IH];
    intros given processed st Hinv.
  - unfold inputResults, reached. simpl. by rewrite !app_nil_r.
  - cbn [foldl]. cbv zeta. unfold inputResults, reached.
    rewrite !bind_cons, !app_assoc.
    apply IH. destruct input as [sarif|]; simpl.
    + by apply runs_invariant.
    + by rewrite !app_nil_r.
Qed.

Lemma mergeState_invariant inputs :
  let st := mergeState inputs in
  invariant (inputResults inputs) (reached inputs) (flat st) (seen st) (total st).
Proof.
  apply (files_invariant inputs [] [] {| mergedRuns := []; seen := ∅; total := 0 |}).
  by repeat split.
Qed.

Lemma runStep_nonempty st run :
  Forall (λ run, SARIF.results run ≠ []) (mergedRuns st) →
  Forall (λ run, SARIF.results run ≠ []) (mergedRuns (caught (runStep st run))).
Proof.
  intros Hst. unfold runStep.
  destruct (forOf resultStep _ _) as [filled|filled]; cbn [caught mergedRuns]; [|done].
  destruct (mergedResults filled) as [|r rs]; simpl; [done|].
  apply Forall_app. split; [done|]. by apply Forall_singleton.
Qed.

Lemma runs_nonempty runs st :
  Forall (λ run, SARIF.results run ≠ []) (mergedRuns st) →
  Forall (λ run, SARIF.results run ≠ []) (mergedRuns (caught (forOf runStep st runs))).
Proof.
  revert st. induction runs as [|run runs IH]; intros st Hst; [done|].
  cbn [forOf]. pose proof (runStep_nonempty st run Hst) as Hstep.
  destruct (runStep st run) as [st1|st1]; cbn [caught] in *; [by apply IH | done].
Qed.

Lemma mergeState_nonempty inputs :
  Forall (λ run, SARIF.results run ≠ []) (mergedRuns (mergeState inputs)).
Proof.
  unfold mergeState.
  assert (Hgen : ∀ st, Forall (λ run, SARIF.results run ≠ []) (mergedRuns st) →
            Forall (λ run, SARIF.results run ≠ []) (mergedRuns (foldl fileStep st inputs))).
  { induction inputs as [|input inputs IH]; intros st Hst; [done|].
    cbn [foldl]. apply IH. destruct input as [sarif|]; [|done]. simpl.
    by apply runs_nonempty. }
  by apply Hgen.
Qed.

Lemma length_keysOf (rs : list SARIF.Result) :
  Forall (λ r, is_Some (resultKey r)) rs → length (keysOf rs) = length rs.
Proof.
  induction 1 as [|r rs [key Hr] _ IH]; [done|].
  cbn [omap list_omap]. rewrite Hr. cbn [length]. by rewrite IH.
Qed.

(** Every merged result is the first of its key among the results the
    loops reached in the readable input files, no two merged results share
    a key, and no merged run is empty. The number the script logs is the
    number of distinct keys it stored, which is at least the number of
    merged results. When no result of the input throws, which is when every
    first physical location has its artifact location and its region, the
    loops reach every result, the merged results are the first ones of
    each key in the order the keys are first seen, and the logged number is
    their number. A file that cannot be read contributes nothing and does
    not stop the merge. *)
Theorem merge_keeps_first_of_each_key (inputs : list (option SARIF.Report)) :
  let merged := (mergeSARIFFiles inputs).1 in
  let count := (mergeSARIFFiles inputs).2 in
  NoDup (omap resultKey (allResults merged)) ∧
  Forall (firstOfKey (reached inputs)) (allResults merged) ∧
  count = size (list_to_set (C := gset string) (omap resultKey (reached inputs))) ∧
  (length (allResults merged) ≤ count)%nat ∧
  Forall (λ run, SARIF.results run ≠ []) (SARIF.runs merged) ∧
  (Forall (λ r, throws r = false) (inputResults inputs) →
   reached inputs = inputResults inputs ∧
   omap resultKey (allResults merged)
   = firstSeen (omap resultKey (inputResults inputs)) ∧
   count = length (allResults merged)).
Proof.
  intros merged count.
  destruct (mergeState_invariant inputs) as (Hseen & Hcount & Hfirst & Hsub & Hexact).
  unfold merged, count, allResults, mergeSARIFFiles.
  cbn [fst snd SARIF.runs].
  assert (Hlocated : Forall (λ r, is_Some (resultKey r))
                       (mergedRuns (mergeState inputs) ≫= SARIF.results)).
  { eapply Forall_impl; [exact Hfirst|]. by intros r [? _]. }
  split_and!.
  - eapply sublist_NoDup; [apply NoDup_firstSeen | exact Hsub].
  - done.
  - by rewrite Hcount, size_firstSeen.
  - rewrite Hcount, <- (length_keysOf _ Hlocated). by apply sublist_length.
  - apply mergeState_nonempty.
  - intros Hquiet. destruct (Hexact Hquiet) as [Hreached Hkeys].
    split_and!; [done|by rewrite Hkeys, Hreached|].
    by rewrite Hcount, <- Hkeys, length_keysOf.
Qed.

(** A file whose second result has a location without a region, and a
    file that reports the place of its first result again: the first file
    is abandoned with its one key stored and counted, so nothing is merged
    and the count is one. *)
Example merge_abandons_a_throwing_file :
  mergeSARIFFiles
    [Some (Fixture.reportOf "first"
             [Fixture.resultAt "rule" "a.ts" 1; Fixture.regionless "rule" "b.ts"]);
     Some (Fixture.reportOf "second" [Fixture.resultAt "rule" "a.ts" 1])]
  = ({| SARIF.schema := SCHEMA; SARIF.version := "2.1.0"; SARIF.runs := [] |}, 1%nat).
Proof. by vm_compute. Qed.

(** Results whose keys are all stored already leave the state as it is. *)
Lemma results_seen rs st :
  (∀ key, key ∈ keysOf (upToThrow rs) → key ∈ seenResults st) →
  forOf resultStep st rs = if existsb throws rs then Thrown st else Normal st.
Proof.
  induction rs as [|r rs IH]; intros Hseen; [done|].
  cbn [forOf existsb upToThrow] in *. rewrite resultStep_cases.
  destruct (throws r) eqn:Hr; [done|]. simpl.
  assert (Hstep : match resultKey r with
                  | Some key =>
                      if bool_decide (key ∈ seenResults st) then st
                      else {| mergedResults := mergedResults st ++ [r];
                              seenResults := {[ key ]} ∪ seenResults st;
                              totalFindings := S (totalFindings st) |}
                  | None => st
                  end = st).
  { destruct (resultKey r) as [key|] eqn:Hkey; [|done].
    rewrite bool_decide_eq_true_2; [done|]. apply Hseen. simpl. rewrite Hkey. by left. }
  rewrite Hstep. apply IH. intros key Hkey. apply Hseen. simpl.
  destruct (resultKey r); [by right | done].
Qed.

Lemma runs_seen runs st :
  (∀ key, key ∈ keysOf (reachedOfRuns runs) → key ∈ seen st) →
  caught (forOf runStep st runs) = st.
Proof.
  induction runs as [|run runs IH]; intros Hseen; [done|].
  cbn [forOf reachedOfRuns] in *. unfold runStep at 1.
  rewrite results_seen.
  2: { intros key Hkey. apply Hseen. rewrite omap_app, elem_of_app. by left. }
  destruct (existsb throws (SARIF.results run)); cbn [caught mergedResults
    seenResults totalFindings length Nat.ltb Nat.leb].
  - by destruct st.
  - replace {| mergedRuns := mergedRuns st; seen := seen st; total := total st |}
      with st by by destruct st.
    apply IH. intros key Hkey. apply Hseen. rewrite omap_app, elem_of_app. by right.
Qed.

Lemma files_seen inputs st :
  (∀ key, key ∈ keysOf (reached inputs) → key ∈ seen st) →
  foldl fileStep st inputs = st.
Proof.
  unfold reached.
  induction inputs as [|input inputs IH]; intros Hseen; [done|]. cbn [foldl].
  assert (Hfile : fileStep st input = st).
  { destruct input as [sarif|]; [|done]. apply runs_seen.
    intros key Hkey. apply Hseen. rewrite bind_cons, omap_app, elem_of_app. by left. }
  rewrite Hfile. apply IH. intros key Hkey. apply Hseen.
  rewrite bind_cons, omap_app, elem_of_app. by right.
Qed.

Lemma keyed_quiet r : is_Some (resultKey r) → throws r = false.
Proof.
  unfold resultKey, throws. intros [key Hkey].
  destruct (firstLocation r) as [location|]; [|done]. simpl in Hkey.
  by rewrite Hkey.
Qed.

(** Results with keys that are new and pairwise distinct are all kept. *)
Lemma results_fresh rs st :
  Forall (λ r, is_Some (resultKey r)) rs →
  NoDup (keysOf rs) →
  (∀ key, key ∈ keysOf rs → key ∉ seenResults st) →
  forOf resultStep st rs =
  Normal {| mergedResults := mergedResults st ++ rs;
            seenResults := list_to_set (keysOf rs) ∪ seenResults st;
            totalFindings := (totalFindings st + length rs)%nat |}.
Proof.
  revert st. induction rs as [|r rs IH]; intros st Hkeys Hnd Hfresh.
  - simpl. rewrite app_nil_r, Nat.add_0_r, (left_id_L ∅ (∪)). by destruct st.
  - apply Forall_cons in Hkeys as [Hkeyed Hkeys].
    pose proof (keyed_quiet r Hkeyed) as Hquiet. destruct Hkeyed as [key Hr].
    cbn [forOf omap list_omap] in *. rewrite Hr in *.
    apply NoDup_cons in Hnd as [Hkey Hnd].
    rewrite resultStep_cases, Hquiet, Hr.
    rewrite bool_decide_eq_false_2 by (apply Hfresh; by left).
    rewrite IH; [|done|done|].
    + cbn [mergedResults seenResults totalFindings]. do 2 f_equal.
      * by rewrite <- app_assoc.
      * apply set_eq. intros k.
        rewrite !elem_of_union, !elem_of_list_to_set, elem_of_cons, elem_of_singleton.
        tauto.
      * simpl. lia.
    + cbn [seenResults]. intros k Hk. rewrite elem_of_union, elem_of_singleton.
      intros [->|Hin]; [done|]. apply (Hfresh k); [by right | done].
Qed.

Lemma runs_fresh runs st :
  Forall (λ run, SARIF.results run ≠ []) runs →
  Forall (λ r, is_Some (resultKey r)) (runs ≫= SARIF.results) →
  NoDup (keysOf (runs ≫= SARIF.results)) →
  (∀ key, key ∈ keysOf (runs ≫= SARIF.results) → key ∉ seen st) →
  forOf runStep st runs =
  Normal {| mergedRuns := mergedRuns st ++ runs;
            seen := list_to_set (keysOf (runs ≫= SARIF.results)) ∪ seen st;
            total := (total st + length (runs ≫= SARIF.results))%nat |}.
Proof.
  revert st. induction runs as [|run runs IH]; intros st Hne Hkeys Hnd Hfresh.
  - simpl. rewrite app_nil_r, Nat.add_0_r, (left_id_L ∅ (∪)). by destruct st.
  - apply Forall_cons in Hne as [Hrun Hne].
    rewrite bind_cons in *. apply Forall_app in Hkeys as [Hk1 Hk2].
    rewrite omap_app in *. apply NoDup_app in Hnd as (Hnd1 & Hdisj & Hnd2).
    cbn [forOf].
    assert (Hstep : runStep st run =
              Normal {| mergedRuns := mergedRuns st ++ [run];
                        seen := list_to_set (keysOf (SARIF.results run)) ∪ seen st;
                        total := (total st + length (SARIF.results run))%nat |}).
    { unfold runStep. rewrite results_fresh; [|done|done|].
      - cbn [mergedResults seenResults totalFindings app].
        destruct run as [tool [|r rs]]; [done|]. done.
      - cbn [seenResults]. intros k Hk. apply Hfresh. rewrite elem_of_app. by left. }
    rewrite Hstep, IH; [|done|done|done|].
    + cbn [mergedRuns seen total]. do 2 f_equal.
      * by rewrite <- app_assoc.
      * apply set_eq. intros k.
        rewrite !elem_of_union, !elem_of_list_to_set, elem_of_app. tauto.
      * rewrite length_app. lia.
    + cbn [seen]. intros k Hk. rewrite elem_of_union, elem_of_list_to_set.
      intros [Hin|Hin]; [by apply (Hdisj k) | apply (Hfresh k); [|done]].
      rewrite elem_of_app. by right.
Qed.

(** Merging is stable. Merging the merged report alone gives it back,
    and counts its results; files given twice give the same report and
    the same count as given once; and when no result of the input throws,
    merging the merged report alone gives the same count too. *)
Theorem merge_idempotent (inputs : list (option SARIF.Report)) :
  let merged := (mergeSARIFFiles inputs).1 in
  mergeSARIFFiles [Some merged] = (merged, length (allResults merged)) ∧
  mergeSARIFFiles (inputs ++ inputs) = mergeSARIFFiles inputs ∧
  (Forall (λ r, throws r = false) (inputResults inputs) →
   mergeSARIFFiles [Some merged] = mergeSARIFFiles inputs).
Proof.
  intros merged.
  destruct (mergeState_invariant inputs) as (Hseen & Hcount & Hfirst & Hsub & Hexact).
  cbv zeta in *.
  assert (Hlocated : Forall (λ r, is_Some (resultKey r))
                       (mergedRuns (mergeState inputs) ≫= SARIF.results)).
  { eapply Forall_impl; [exact Hfirst|]. by intros r [? _]. }
  assert (Hone : mergeSARIFFiles [Some merged] = (merged, length (allResults merged))).
  { unfold merged, mergeSARIFFiles, allResults. cbn [fst SARIF.runs].
    set (st := mergeState inputs) in *.
    unfold mergeState. cbn [foldl fileStep SARIF.runs].
    rewrite runs_fresh; [done|apply mergeState_nonempty|done| |].
    - eapply sublist_NoDup; [apply NoDup_firstSeen | exact Hsub].
    - cbn [seen]. intros k _. apply not_elem_of_empty. }
  split_and!.
  - exact Hone.
  - unfold mergeSARIFFiles, mergeState. rewrite foldl_app.
    fold (mergeState inputs). rewrite files_seen; [done|].
    intros key Hkey. rewrite Hseen. by apply elem_of_list_to_set.
  - intros Hquiet. rewrite Hone. destruct (Hexact Hquiet) as [_ Hkeys].
    unfold merged, mergeSARIFFiles, allResults. cbn [fst SARIF.runs]. f_equal.
    by rewrite Hcount, <- Hkeys, length_keysOf.
Qed.

End Merge.

(** * From a scan result to SARIF and back *)

Section RoundTrip.
Import Processor.
Variable host : ExtractHost.
Variable sourceRoot : string.

(** What a finding keeps and what it loses on its way through
    [generateSARIF] and [extractFindings]. *)
Local Abbreviation carried :=
  (λ f g : Finding,
     ruleId g = ruleId f ∧
     file g = relativePath (file f) sourceRoot ∧
     line g = line f ∧
     column g = Some (JsString.orNumber (column f) 1) ∧
     endLine g = Some (JsString.orNumber (endLine f) (line f)) ∧
     endColumn g = endColumn f ∧
     snippet g = snippet f ∧
     title g = description f ∧
     description g = description f ∧
     severity g = match severity f with
                  | CRITICAL | HIGH => CRITICAL
                  | MEDIUM => HIGH
                  | LOW => MEDIUM
                  | INFO => LOW
                  end ∧
     source g = custom_secrets ∧
     confidence g = 8 # 10 ∧
     suppressedBy g = None).

Lemma extractStep_toResult acc f :
  ∃ g, extractStep host "Enhanced Security Scanner" acc (toResult sourceRoot f)
       = Normal (acc ++ [g]) ∧
       carried f g ∧ id g = nextUUID host (length acc).
Proof.
  eexists. split; [reflexivity|]. cbn.
  split_and!; try reflexivity.
  - unfold Js.truthy. destruct (String.eqb (snippet f) "") eqn:Hs; [|done].
    apply String.eqb_eq in Hs. by rewrite Hs.
  - by destruct (severity f).
Qed.

Lemma extract_generated (fs acc : list Finding) :
  ∃ gs, forOf (extractStep host "Enhanced Security Scanner") acc
              (toResult sourceRoot <$> fs) = Normal (acc ++ gs) ∧
        Forall2 carried fs gs ∧
        id <$> gs = nextUUID host <$> seq (length acc) (length fs).
Proof.
  revert acc. induction fs as [|f fs IH]; intros acc.
  - exists []. by rewrite app_nil_r.
  - rewrite fmap_cons. cbn [forOf].
    destruct (extractStep_toResult acc f) as (g & -> & Hg & Hid).
    destruct (IH (acc ++ [g])) as (gs & -> & Hgs & Hids).
    exists (g :: gs). rewrite <- app_assoc. split_and!; [done|by constructor|].
    rewrite length_app, Nat.add_1_r in Hids.
    cbn [length seq]. by rewrite !fmap_cons, Hid, Hids.
Qed.

Lemma round_trip_carried (result : ScanResult.t) :
  let back := extractFindings host (Some (generateSARIF result sourceRoot)) in
  Forall2 carried (ScanResult.findings result) back ∧
  id <$> back = nextUUID host <$> seq 0 (length (ScanResult.findings result)).
Proof.
  destruct (extract_generated (ScanResult.findings result) []) as (gs & Hgs & Hcar & Hids).
  cbv zeta. unfold extractFindings, generateSARIF.
  cbn [SARIF.runs forOf SARIF.tool SARIF.driver SARIF.driverName SARIF.results].
  by rewrite Hgs.
Qed.

(** Writing the findings of a result with [generateSARIF] and reading
    them back with [extractFindings] gives one finding for each finding, in
    order. Rule, line, end column and snippet come back as they were, the
    path relative to the source root, the column and the end line filled
    in. The severity comes back one step higher, except CRITICAL, which
    stays: HIGH comes back as CRITICAL. The title is replaced by the
    description, the source is [custom-secrets], the confidence 0.8, no
    finding comes back suppressed, and the identifiers are fresh. *)
Theorem sarif_round_trip (result : ScanResult.t) :
  let back := extractFindings host (Some (generateSARIF result sourceRoot)) in
  Forall2 (λ f g,
             ruleId g = ruleId f ∧
             file g = relativePath (file f) sourceRoot ∧
             line g = line f ∧
             column g = Some (JsString.orNumber (column f) 1) ∧
             endLine g = Some (JsString.orNumber (endLine f) (line f)) ∧
             endColumn g = endColumn f ∧
             snippet g = snippet f ∧
             title g = description f ∧
             description g = description f ∧
             severity g = match severity f with
                          | CRITICAL | HIGH => CRITICAL
                          | MEDIUM => HIGH
                          | LOW => MEDIUM
                          | INFO => LOW
                          end ∧
             source g = custom_secrets ∧
             confidence g = 8 # 10 ∧
             suppressedBy g = None)
          (ScanResult.findings result) back ∧
  id <$> back = nextUUID host <$> seq 0 (length (ScanResult.findings result)).
Proof. apply round_trip_carried. Qed.

Lemma filter_length_Forall2 {A} (P Q : A → Prop)
    `{∀ x, Decision (P x)} `{∀ x, Decision (Q x)} (l k : list A) :
  Forall2 (λ x y, P x ↔ Q y) l k →
  length (filter P l) = length (filter Q k).
Proof.
  induction 1 as [|x y l k Hxy _ IH]; [done|].
  rewrite !filter_cons. destruct (decide (P x)), (decide (Q y)); simpl; tauto || lia.
Qed.

Lemma filter_inhabited {A} (P : A → Prop) `{∀ x, Decision (P x)} (l : list A) :
  (0 <? length (filter P l))%nat = true ↔ ∃ x, x ∈ l ∧ P x.
Proof.
  rewrite Nat.ltb_lt. split.
  - destruct (filter P l) as [|x xs] eqn:Hf; simpl; [lia|]. intros _.
    assert (Hin : x ∈ filter P l) by (rewrite Hf; by left).
    apply list_elem_of_filter in Hin as [? ?]. by exists x.
  - intros (x & Hx & HP).
    assert (Hin : x ∈ filter P l) by by apply list_elem_of_filter.
    destruct (filter P l); [by apply elem_of_nil in Hin | simpl; lia].
Qed.

(** [checkCriticalFindings] on the report [generateSARIF] wrote: what it
    counts as critical are the CRITICAL and the HIGH findings of the
    result, and what it counts as high are the MEDIUM ones. It reports
    critical findings exactly when the result holds a CRITICAL or a HIGH
    finding. *)
Theorem critical_check_counts_high_as_critical (result : ScanResult.t) :
  let kept := ScanResult.findings result in
  let check := checkCriticalFindings host (Some (generateSARIF result sourceRoot)) in
  criticalCount check
  = length (filter (λ f, severity f = CRITICAL ∨ severity f = HIGH) kept) ∧
  highCount check = length (filter (λ f, severity f = MEDIUM) kept) ∧
  length (reported check) = (criticalCount check + highCount check)%nat ∧
  (hasCritical check = true ↔
   ∃ f, f ∈ kept ∧ (severity f = CRITICAL ∨ severity f = HIGH)).
Proof.
  intros kept check.
  destruct (round_trip_carried result) as [Hcar _]. cbv zeta in Hcar. fold kept in Hcar.
  unfold check, checkCriticalFindings.
  cbn [criticalCount highCount reported hasCritical].
  set (back := extractFindings host (Some (generateSARIF result sourceRoot))) in *.
  assert (Hcrit : length (filter (λ f, severity f = CRITICAL) back)
                  = length (filter (λ f, severity f = CRITICAL ∨ severity f = HIGH) kept)).
  { symmetry. apply filter_length_Forall2.
    eapply Forall2_impl; [exact Hcar|]. intros f g (_&_&_&_&_&_&_&_&_&Hsev&_).
    rewrite Hsev. destruct (severity f); intuition congruence. }
  assert (Hhigh : length (filter (λ f, severity f = HIGH) back)
                  = length (filter (λ f, severity f = MEDIUM) kept)).
  { symmetry. apply filter_length_Forall2.
    eapply Forall2_impl; [exact Hcar|]. intros f g (_&_&_&_&_&_&_&_&_&Hsev&_).
    rewrite Hsev. destruct (severity f); intuition congruence. }
  split_and!; [done|done|by rewrite length_app|].
  rewrite <- filter_inhabited.
  by rewrite !Nat.ltb_lt, Hcrit.
Qed.

End RoundTrip.

(** * The fail condition of the scan command *)

(** The command fails the build exactly when a finding that the
    orchestrator returned and the engine kept has a severity named in
    [--fail-on]: a suppressed finding never fails the build, and the
    statistics of the result are not consulted. *)
Theorem fail_condition_reads_kept_findings isMatch readFile host adapters config
    (order : list nat) (failOn : string) :
  isAscii failOn = true →
  checkFailCondition
    (scanCommandResult isMatch readFile host adapters config order) failOn = true ↔
  ∃ f, f ∈ ScanResult.findings (ScanOrchestrator.scan host adapters config order) ∧
       suppress (FalsePositiveRuleEngine.shouldSuppress isMatch readFile
                   (FalsePositiveRuleEngine.new config) f) = false ∧
       severityName (severity f) ∈ failOnLevels failOn.
Proof.
  intros _. unfold checkFailCondition, scanCommandResult. cbv zeta.
  set (raw := ScanOrchestrator.scan host adapters config order).
  cbn [ScanResult.findings].
  destruct (filterFindings_spec isMatch readFile (FalsePositiveRuleEngine.new config)
              (ScanResult.findings raw)) as [-> _].
  rewrite existsb_exists. split.
  - intros (f & Hf & Hlevel). apply list_elem_of_In, list_elem_of_filter in Hf as [Hkeep Hf].
    apply bool_decide_eq_true in Hlevel. exists f. split_and!; [done| |done].
    by destruct (suppress _).
  - intros (f & Hf & Hkeep & Hlevel). exists f. split.
    + apply list_elem_of_In, list_elem_of_filter. split; [congruence | done].
    + by apply bool_decide_eq_true.
Qed.

(** A HIGH finding that is kept and one with a mock prefix that is
    suppressed: the build fails on [high], on account of the first. *)
Lemma fail_condition_sample :
  checkFailCondition
    (scanCommandResult Fixture.noGlob Sample.files Sample.host
       [Sample.returning [Sample.mockSecret; Sample.first]] Sample.config [0%nat])
    "critical, high" = true.
Proof.
  apply (fail_condition_reads_kept_findings Fixture.noGlob Sample.files Sample.host
           [Sample.returning [Sample.mockSecret; Sample.first]] Sample.config
           [0%nat] "critical, high").
  - reflexivity.
  - exists Sample.first. split_and!.
    + vm_compute. right. left.
    + reflexivity.
    + vm_compute. right. left.
Defined.

Lemma upper_comma c : Ascii.eqb (Js.upper c) "," = Ascii.eqb c ",".
Proof. by destruct c as [[] [] [] [] [] [] [] []]. Qed.

Lemma upper_space c : JsString.isSpace (Js.upper c) = JsString.isSpace c.
Proof. by destruct c as [[] [] [] [] [] [] [] []]. Qed.

Lemma upper_upper c : Js.upper (Js.upper c) = Js.upper c.
Proof. by destruct c as [[] [] [] [] [] [] [] []]. Qed.

Lemma toUpperCase_twice s :
  JsString.toUpperCase (JsString.toUpperCase s) = JsString.toUpperCase s.
Proof. induction s as [|c s IH]; [done|]. simpl. by rewrite upper_upper, IH. Qed.

Lemma split_toUpperCase s :
  Js.split "," (JsString.toUpperCase s) = JsString.toUpperCase <$> Js.split "," s.
Proof.
  induction s as [|c s IH]; [done|]. cbn [JsString.toUpperCase Js.split].
  rewrite upper_comma, IH. destruct (Ascii.eqb c ","); [done|].
  by destruct (Js.split "," s).
Qed.

Lemma trimStart_toUpperCase s :
  JsString.trimStart (JsString.toUpperCase s)
  = JsString.toUpperCase (JsString.trimStart s).
Proof.
  induction s as [|c s IH]; [done|]. cbn [JsString.toUpperCase JsString.trimStart].
  rewrite upper_space. by destruct (JsString.isSpace c).
Qed.

Lemma trimEnd_toUpperCase s :
  JsString.trimEnd (JsString.toUpperCase s)
  = JsString.toUpperCase (JsString.trimEnd s).
Proof.
  induction s as [|c s IH]; [done|]. cbn [JsString.toUpperCase JsString.trimEnd].
  rewrite IH, upper_space.
  destruct (JsString.trimEnd s); [by destruct (JsString.isSpace c) | done].
Qed.

Lemma failOnLevels_toUpperCase failOn :
  failOnLevels (JsString.toUpperCase failOn) = failOnLevels failOn.
Proof.
  unfold failOnLevels. rewrite split_toUpperCase, <- list_fmap_compose.
  apply list_fmap_ext. intros _ w _. simpl. unfold JsString.trim.
  by rewrite trimStart_toUpperCase, trimEnd_toUpperCase, toUpperCase_twice.
Qed.

(** The level names of [--fail-on] are read without regard to case: two
    lists that differ only in the case of their letters fail the same
    results. *)
Theorem fail_condition_ignores_case (result : ScanResult.t) (failOn failOn' : string) :
  isAscii failOn = true → isAscii failOn' = true →
  JsString.toUpperCase failOn = JsString.toUpperCase failOn' →
  checkFailCondition result failOn = checkFailCondition result failOn'.
Proof.
  intros _ _ Hcase. unfold checkFailCondition.
  by rewrite <- (failOnLevels_toUpperCase failOn), Hcase, failOnLevels_toUpperCase.
Qed.

Lemma fail_condition_case_sample :
  checkFailCondition
    (ScanOrchestrator.scan Sample.host [Sample.returning [Sample.first]]
       Sample.config [0%nat])
    "critical, high"
  = checkFailCondition
      (ScanOrchestrator.scan Sample.host [Sample.returning [Sample.first]]
         Sample.config [0%nat])
      "CRITICAL, High".
Proof.
  apply (fail_condition_ignores_case _ "critical, high" "CRITICAL, High");
    reflexivity.
Defined.

(** * When the key of a result tells results apart *)

Lemma colon_splits_right a1 b1 a2 b2 :
  colonFree b1 = true → colonFree b2 = true →
  a1 +:+ ":" +:+ b1 = a2 +:+ ":" +:+ b2 → a1 = a2 ∧ b1 = b2.
Proof.
  intros Hb1 Hb2. revert a2. induction a1 as [|c1 a1 IH]; intros [|c2 a2]; simpl.
  - intros Heq. by simplify_eq.
  - intros Heq. injection Heq as <- ->.
    rewrite colonFree_app in Hb1. simpl in Hb1.
    by rewrite andb_false_r in Hb1.
  - intros Heq. injection Heq as -> <-.
    rewrite colonFree_app in Hb2. simpl in Hb2.
    by rewrite andb_false_r in Hb2.
  - intros Heq. injection Heq as -> Heq. by destruct (IH a2 Heq) as [-> ->].
Qed.

(** Two rule ids that hold no colon get the same key at two physical
    locations only when they are the same rule id and the locations have
    the same uri and the same start line, whatever the uris look like. *)
Theorem colon_free_rules_tell_results (rule1 rule2 key : string)
    (location1 location2 : SARIF.PhysicalLocation) :
  colonFree rule1 = true → colonFree rule2 = true →
  Processor.createResultKey rule1 location1 = Some key →
  Processor.createResultKey rule2 location2 = Some key →
  rule1 = rule2 ∧
  Sarif.uri <$> SARIF.artifactLocation location1
  = Sarif.uri <$> SARIF.artifactLocation location2 ∧
  SARIF.startLine <$> SARIF.region location1
  = SARIF.startLine <$> SARIF.region location2.
Proof.
  unfold Processor.createResultKey. intros H1 H2 Hkey1 Hkey2.
  destruct (SARIF.artifactLocation location1) as [artifact1|]; [|done].
  destruct (SARIF.region location1) as [region1|]; [|done].
  destruct (SARIF.artifactLocation location2) as [artifact2|]; [|done].
  destruct (SARIF.region location2) as [region2|]; [|done].
  injection Hkey1 as <-. injection Hkey2 as Hkey. symmetry in Hkey.
  apply colon_splits in Hkey as [-> Hrest]; [|done..].
  apply colon_splits_right in Hrest as [Huri Hline]; [|apply pretty_Z_colonFree..].
  apply (inj pretty) in Hline. simpl. by rewrite Huri, Hline.
Qed.

(** A rule at one uri and line, reported at two columns. *)
Lemma colon_free_rules_sample :
  Sarif.uri <$> SARIF.artifactLocation (Fixture.place "file:///src/a.ts" 3 (Some 1))
  = Sarif.uri <$> SARIF.artifactLocation (Fixture.place "file:///src/a.ts" 3 (Some 9)) ∧
  SARIF.startLine <$> SARIF.region (Fixture.place "file:///src/a.ts" 3 (Some 1))
  = SARIF.startLine <$> SARIF.region (Fixture.place "file:///src/a.ts" 3 (Some 9)).
Proof.
  apply (colon_free_rules_tell_results "sql-injection" "sql-injection"
           "sql-injection:file:///src/a.ts:3"
           (Fixture.place "file:///src/a.ts" 3 (Some 1))
           (Fixture.place "file:///src/a.ts" 3 (Some 9)));
    reflexivity.
Defined.

(** * The structured dump, written and read *)

(** * Reading what [JSON.stringify] wrote *)

Section ValueInduction.
Variable P : JSON.Value → Prop.
Hypothesis HNull : P JSON.Null.
Hypothesis HBool : ∀ b, P (JSON.Bool b).
Hypothesis HNumber : ∀ literal, P (JSON.Number literal).
Hypothesis HStr : ∀ s, P (JSON.Str s).
Hypothesis HArray : ∀ items, Forall P items → P (JSON.Array items).
Hypothesis HObject :
  ∀ members, Forall (λ member, P member.2) members → P (JSON.Object members).

Lemma Value_induction : ∀ v, P v.
Proof.
  fix IH 1. intros [|b|literal|s|items|members].
  - exact HNull.
  - apply HBool.
  - apply HNumber.
  - apply HStr.
  - apply HArray. induction items as [|item items IHitems]; constructor.
    + apply IH.
    + exact IHitems.
  - apply HObject. induction members as [|[key item] members IHmembers]; constructor.
    + apply IH.
    + exact IHmembers.
Qed.
End ValueInduction.

Lemma wellFormed_Array items :
  wellFormed (JSON.Array items) ↔ Forall wellFormed items.
Proof.
  simpl. induction items as [|item items IH]; [by split; [constructor|]|].
  rewrite Forall_cons, <- IH. done.
Qed.

Lemma wellFormed_Object members :
  wellFormed (JSON.Object members) ↔
  NoDup members.*1 ∧ Forall (λ member, wellFormed member.2) members.
Proof.
  simpl. apply and_iff_compat_l.
  induction members as [|member members IH]; [by split; [constructor|]|].
  rewrite Forall_cons, <- IH. done.
Qed.

(** ** White space *)

Lemma skipWhitespace_blank a s :
  blank a = true → JSON.skipWhitespace (a +:+ s) = JSON.skipWhitespace s.
Proof.
  unfold blank. induction a as [|c a IH]; [done|]. simpl.
  destruct (JSON.isWhitespace c); [exact IH | discriminate].
Qed.

Lemma blank_app a b : blank a = true → blank b = true → blank (a +:+ b) = true.
Proof. unfold blank. intros Ha Hb. by rewrite skipWhitespace_blank. Qed.

Lemma blank_gap : blank JSON.gap = true.
Proof. reflexivity. Qed.

Lemma blank_line indent : blank indent = true → blank (Js.nl +:+ indent) = true.
Proof. intros. by apply blank_app. Qed.

(** ** String literals *)

Lemma parseChars_escapeChar c tail :
  JSON.parseChars (JSON.escapeChar c +:+ tail)
  = '(str, rest) ← JSON.parseChars tail; Some (String c str, rest).
Proof.
  destruct c as [[] [] [] [] [] [] [] []]; reflexivity.
Qed.

Lemma parseChars_escapeChars s rest :
  JSON.parseChars (JSON.escapeChars s +:+ String Js.DQUOTE rest) = Some (s, rest).
Proof.
  induction s as [|c s IH]; [done|]. cbn [JSON.escapeChars].
  by rewrite append_assoc, parseChars_escapeChar, IH.
Qed.

(** ** Number literals *)

Lemma every_digits s : every JSON.isDigit s = true → every JSON.isNumberChar s = true.
Proof.
  induction s as [|c s IH]; [done|]. cbn [every]. intros [Hc Hs]%andb_true_iff.
  rewrite IH by done. unfold JSON.isNumberChar. by rewrite Hc.
Qed.

Lemma skipDigits_every s :
  every JSON.isNumberChar (JSON.skipDigits s) = true →
  every JSON.isNumberChar s = true.
Proof.
  induction s as [|c s IH]; [done|]. cbn [JSON.skipDigits every].
  destruct (JSON.isDigit c) eqn:Hc; [|done]. intros Hs.
  rewrite IH by done. unfold JSON.isNumberChar. by rewrite Hc.
Qed.

Lemma skipDigits_empty s :
  String.eqb (JSON.skipDigits s) "" = true → every JSON.isNumberChar s = true.
Proof.
  intros Hs%String.eqb_eq. apply skipDigits_every. by rewrite Hs.
Qed.

Lemma isExponent_chars s :
  JSON.isExponent s = true → every JSON.isNumberChar s = true.
Proof.
  destruct s as [|c rest]; [done|]. cbn [JSON.isExponent every].
  intros [Hc [_ Hdigits]%andb_true_iff]%andb_true_iff.
  apply skipDigits_empty in Hdigits.
  assert (Hchar : JSON.isNumberChar c = true).
  { unfold JSON.isNumberChar. apply orb_true_iff in Hc as [->| ->];
      by rewrite ?orb_true_r. }
  rewrite Hchar. cbn [andb].
  destruct rest as [|sign rest']; [done|].
  destruct (Ascii.eqb sign "+" || Ascii.eqb sign "-") eqn:Hsign; [|done].
  cbn [every]. rewrite Hdigits, andb_true_r.
  unfold JSON.isNumberChar. apply orb_true_iff in Hsign as [->| ->];
    by rewrite ?orb_true_r.
Qed.

Lemma isFraction_chars s :
  JSON.isFraction s = true → every JSON.isNumberChar s = true.
Proof.
  destruct s as [|c rest]; [done|]. cbn [JSON.isFraction].
  destruct (Ascii.eqb c ".") eqn:Hc; [|apply isExponent_chars].
  intros [_ Hexp]%andb_true_iff. cbn [every].
  rewrite (skipDigits_every rest) by by apply isExponent_chars.
  unfold JSON.isNumberChar. by rewrite Hc, ?orb_true_r.
Qed.

Lemma isInteger_chars s :
  JSON.isInteger s = true →
  every JSON.isNumberChar s = true ∧ JSON.startsWithDigit s = true.
Proof.
  destruct s as [|c rest]; [done|]. cbn [JSON.isInteger every JSON.startsWithDigit].
  destruct (Ascii.eqb c "0") eqn:Hc.
  - apply Ascii.eqb_eq in Hc as ->. intros Hf%isFraction_chars. by rewrite Hf.
  - intros [Hd Hf]%andb_true_iff. split; [|done].
    rewrite (skipDigits_every rest) by by apply isFraction_chars.
    unfold JSON.isNumberChar. by rewrite Hd.
Qed.

Lemma literal_chars literal :
  JSON.isNumberLiteral literal = true →
  every JSON.isNumberChar literal = true ∧
  ∃ c tail, literal = String c tail ∧ (Ascii.eqb c "-" || JSON.isDigit c) = true.
Proof.
  destruct literal as [|c rest]; [done|]. cbn [JSON.isNumberLiteral every].
  destruct (Ascii.eqb c "-") eqn:Hc.
  - intros [Hchars _]%isInteger_chars. split; [|by exists c, rest; rewrite Hc].
    rewrite Hchars. unfold JSON.isNumberChar. by rewrite Hc, ?orb_true_r.
  - intros [Hchars Hdigit]%isInteger_chars. split; [done|].
    exists c, rest. simpl in Hdigit. by rewrite Hdigit, orb_true_r.
Qed.

Lemma takeNumber_literal literal rest :
  every JSON.isNumberChar literal = true → delimited rest = true →
  JSON.takeNumber (literal +:+ rest) = (literal, rest).
Proof.
  intros Hlit Hrest. induction literal as [|c literal IH].
  - destruct rest as [|d rest]; [done|]. simpl in *.
    by destruct (JSON.isNumberChar d).
  - simpl in *. apply andb_true_iff in Hlit as [-> Hlit]. by rewrite IH.
Qed.

Lemma number_opens c :
  (Ascii.eqb c "-" || JSON.isDigit c) = true →
  Ascii.eqb c "n" = false ∧ Ascii.eqb c "t" = false ∧ Ascii.eqb c "f" = false ∧
  Ascii.eqb c Js.DQUOTE = false ∧ Ascii.eqb c "[" = false ∧
  Ascii.eqb c "{" = false.
Proof.
  destruct c as [[] [] [] [] [] [] [] []]; intros H; try discriminate H; done.
Qed.

Lemma opensValue_spec c :
  opensValue c = true →
  JSON.isWhitespace c = false ∧ Ascii.eqb c "]" = false ∧ Ascii.eqb c "}" = false.
Proof.
  destruct c as [[] [] [] [] [] [] [] []]; intros H; try discriminate H; done.
Qed.

(** ** The head of what [serialize] writes *)

Lemma serialize_Array indent first others :
  JSON.serialize indent (JSON.Array (first :: others))
  = "[" +:+ Js.nl +:+ (indent +:+ JSON.gap) +:+
    JSON.serialize (indent +:+ JSON.gap) first +:+
    moreItems (indent +:+ JSON.gap) others +:+ Js.nl +:+ indent +:+ "]".
Proof. reflexivity. Qed.

Lemma serialize_Object indent key first others :
  JSON.serialize indent (JSON.Object ((key, first) :: others))
  = "{" +:+ Js.nl +:+ (indent +:+ JSON.gap) +:+ JSON.quote key +:+ ": " +:+
    JSON.serialize (indent +:+ JSON.gap) first +:+
    moreMembers (indent +:+ JSON.gap) others +:+ Js.nl +:+ indent +:+ "}".
Proof. reflexivity. Qed.

Lemma serialize_opens indent v :
  wellFormed v →
  ∃ c tail, JSON.serialize indent v = String c tail ∧ opensValue c = true.
Proof.
  destruct v as [|[]|literal|s|[|first others]|[|[key first] others]]; intros Hwf;
    try (by eexists _, _).
  simpl in Hwf. apply literal_chars in Hwf as (_ & c & tail & -> & Hc).
  exists c, tail. split; [done|]. unfold opensValue.
  apply orb_true_iff in Hc as [->| ->]; by rewrite ?orb_true_r.
Qed.

Lemma skipWhitespace_serialize indent v rest :
  wellFormed v →
  ∃ c tail, JSON.serialize indent v = String c tail ∧ opensValue c = true ∧
            JSON.skipWhitespace (JSON.serialize indent v +:+ rest)
            = String c (tail +:+ rest).
Proof.
  intros Hwf. destruct (serialize_opens indent v Hwf) as (c & tail & Heq & Hc).
  exists c, tail. split_and!; [done..|]. rewrite Heq. simpl.
  by destruct (opensValue_spec c Hc) as (-> & _).
Qed.

(** ** Values *)

Lemma parseValue_blank fuel a s :
  blank a = true → JSON.parseValue fuel (a +:+ s) = JSON.parseValue fuel s.
Proof.
  intros Ha. destruct fuel as [|fuel]; [done|]. cbn [JSON.parseValue].
  by rewrite skipWhitespace_blank.
Qed.

Lemma parseElements_blank fuel a s :
  blank a = true → JSON.parseElements fuel (a +:+ s) = JSON.parseElements fuel s.
Proof.
  intros Ha. destruct fuel as [|fuel]; [done|]. cbn [JSON.parseElements].
  by rewrite parseValue_blank.
Qed.

Lemma parseMembers_blank fuel a s :
  blank a = true → JSON.parseMembers fuel (a +:+ s) = JSON.parseMembers fuel s.
Proof.
  intros Ha. destruct fuel as [|fuel]; [done|]. cbn [JSON.parseMembers].
  by rewrite skipWhitespace_blank.
Qed.

Lemma nodes_Array items :
  nodes (JSON.Array items) = S (sum_list_with (λ item, S (nodes item)) items).
Proof. reflexivity. Qed.

Lemma nodes_Object members :
  nodes (JSON.Object members)
  = S (sum_list_with (λ member, S (nodes member.2)) members).
Proof.
  reflexivity.
Qed.

Lemma foldl_set_distinct {V} (members : list (string * V)) :
  NoDup members.*1 →
  foldl (λ m kv, Js.set m kv.1 kv.2) [] members = members.
Proof.
  induction members as [|[k v] members IH] using rev_ind; [done|].
  rewrite fmap_app. intros (Hnd & Hk & _)%NoDup_app.
  rewrite foldl_snoc, IH by done. cbn [fst snd].
  apply set_absent, has_false. intros Hin. apply (Hk _ Hin). by left.
Qed.

Lemma delimited_moreItems inner others tail :
  delimited (moreItems inner others +:+ Js.nl +:+ tail) = true.
Proof. by destruct others. Qed.

Lemma delimited_moreMembers inner others tail :
  delimited (moreMembers inner others +:+ Js.nl +:+ tail) = true.
Proof. by destruct others as [|[??]?]. Qed.

Lemma parseElements_items inner indent rest others : ∀ first ws fuel,
  Forall (λ item, wellFormed item ∧ readsBack item) (first :: others) →
  blank ws = true → blank inner = true → blank indent = true →
  (sum_list_with (λ item, S (nodes item)) (first :: others) ≤ fuel)%nat →
  JSON.parseElements fuel
    (ws +:+ JSON.serialize inner first +:+ moreItems inner others +:+
     Js.nl +:+ indent +:+ String "]" rest)
  = Some (first :: others, rest).
Proof.
  induction others as [|second others IH];
    intros first ws fuel Hall Hws Hinner Hindent Hfuel;
    (destruct fuel as [|fuel]; [simpl in Hfuel; lia|]);
    rewrite parseElements_blank by done; cbn [JSON.parseElements];
    apply Forall_cons in Hall as [[Hwf Hread] Hall];
    cbn [sum_list_with] in Hfuel;
    (rewrite Hread; [|done|apply delimited_moreItems|lia]).
  - cbn [moreItems mbind option_bind]. 
    change ("" +:+ ?s) with s.
    rewrite !skipWhitespace_blank by done. reflexivity.
  - cbn [moreItems mbind option_bind].
    rewrite !append_assoc. cbn [String.append JSON.skipWhitespace].
    change (JSON.isWhitespace ",") with false. cbn iota.
    change (Ascii.eqb "," ",") with true. cbn iota.
    rewrite (parseElements_blank fuel Js.nl) by done.
    rewrite (IH second inner fuel Hall); [done..|].
    cbn [sum_list_with]. lia.
Qed.

Ltac flatten :=
  repeat (progress (rewrite ?append_assoc; cbn [String.append])).

Lemma parseMembers_key fuel key s :
  JSON.parseMembers (S fuel) (JSON.quote key +:+ ": " +:+ s)
  = '(item, rest) ← JSON.parseValue fuel s;
    match JSON.skipWhitespace rest with
    | "" => None
    | String c rest' =>
        if Ascii.eqb c ","
        then '(members, rest'') ← JSON.parseMembers fuel rest';
             Some ((key, item) :: members, rest'')
        else if Ascii.eqb c "}" then Some ([(key, item)], rest')
        else None
    end.
Proof.
  cbn [JSON.parseMembers]. unfold JSON.quote.
  flatten. cbn [JSON.skipWhitespace].
  change (JSON.isWhitespace Js.DQUOTE) with false. cbn iota.
  change (Ascii.eqb Js.DQUOTE Js.DQUOTE) with true. cbn iota.
  rewrite parseChars_escapeChars. cbn [mbind option_bind JSON.skipWhitespace].
  change (JSON.isWhitespace ":") with false. cbn iota.
  change (Ascii.eqb ":" ":") with true. cbn iota.
  change (String " " s) with (" " +:+ s). by rewrite parseValue_blank.
Qed.

Lemma parseMembers_members inner indent rest others : ∀ key first ws fuel,
  Forall (λ member, wellFormed member.2 ∧ readsBack member.2)
         ((key, first) :: others) →
  blank ws = true → blank inner = true → blank indent = true →
  (sum_list_with (λ member, S (nodes member.2)) ((key, first) :: others)
   ≤ fuel)%nat →
  JSON.parseMembers fuel
    (ws +:+ JSON.quote key +:+ ": " +:+ JSON.serialize inner first +:+
     moreMembers inner others +:+ Js.nl +:+ indent +:+ String "}" rest)
  = Some ((key, first) :: others, rest).
Proof.
  induction others as [|[key' second] others IH];
    intros key first ws fuel Hall Hws Hinner Hindent Hfuel;
    (destruct fuel as [|fuel]; [simpl in Hfuel; lia|]);
    rewrite parseMembers_blank by done; rewrite parseMembers_key;
    apply Forall_cons in Hall as [[Hwf Hread] Hall];
    cbn [sum_list_with fst snd] in Hfuel, Hwf, Hread;
    (rewrite Hread; [|done|apply delimited_moreMembers|lia]).
  - cbn [moreMembers mbind option_bind].
    change ("" +:+ ?s) with s.
    rewrite !skipWhitespace_blank by done. reflexivity.
  - cbn [moreMembers mbind option_bind].
    flatten. cbn [JSON.skipWhitespace].
    change (JSON.isWhitespace ",") with false. cbn iota.
    change (Ascii.eqb "," ",") with true. cbn iota.
    rewrite (parseMembers_blank fuel Js.nl) by done.
    change (String ":" (String " " ?s)) with (": " +:+ s).
    rewrite (IH key' second inner fuel Hall); [done..|].
    cbn [sum_list_with fst snd]. lia.
Qed.

Lemma expect_word word rest : JSON.expect word (word +:+ rest) = Some rest.
Proof.
  unfold JSON.expect, JsString.startsWith.
  by rewrite prefix_append, substring_append.
Qed.

Lemma parseValue_serialize v : wellFormed v → readsBack v.
Proof.
  induction v as [|b|literal|s|items IH|members IH] using Value_induction;
    intros Hwf indent rest fuel Hindent Hrest Hfuel;
    (destruct fuel as [|fuel]; [simpl in Hfuel; lia|]).
  - cbn [JSON.parseValue]. exact (f_equal (λ o, rest' ← o; Some (JSON.Null, rest'))
      (expect_word "ull" rest)).
  - destruct b; cbn [JSON.parseValue].
    + exact (f_equal (λ o, rest' ← o; Some (JSON.Bool true, rest'))
        (expect_word "rue" rest)).
    + exact (f_equal (λ o, rest' ← o; Some (JSON.Bool false, rest'))
        (expect_word "alse" rest)).
  - simpl in Hwf. cbn [JSON.serialize JSON.parseValue].
    destruct (literal_chars literal Hwf) as (Hchars & c & tail & -> & Hc).
    cbn [String.append JSON.skipWhitespace].
    assert (Hopen : opensValue c = true).
    { unfold opensValue. apply orb_true_iff in Hc as [->| ->];
        by rewrite ?orb_true_r. }
    destruct (opensValue_spec c Hopen) as (-> & _).
    destruct (number_opens c Hc) as (-> & -> & -> & -> & -> & ->).
    rewrite Hc. change (String c (tail +:+ rest)) with (String c tail +:+ rest).
    by rewrite takeNumber_literal, Hwf.
  - cbn [JSON.serialize JSON.parseValue]. unfold JSON.quote.
    flatten. cbn [JSON.skipWhitespace].
    change (JSON.isWhitespace Js.DQUOTE) with false. cbn iota.
    change (Ascii.eqb Js.DQUOTE "n") with false.
    change (Ascii.eqb Js.DQUOTE "t") with false.
    change (Ascii.eqb Js.DQUOTE "f") with false.
    change (Ascii.eqb Js.DQUOTE Js.DQUOTE) with true. cbn iota.
    by rewrite parseChars_escapeChars.
  - destruct items as [|first others]; [reflexivity|].
    apply wellFormed_Array in Hwf.
    assert (Hall : Forall (λ item, wellFormed item ∧ readsBack item)
                          (first :: others)).
    { apply Forall_forall. intros item Hin. rewrite Forall_forall in Hwf, IH.
      split; [by apply Hwf|]. apply IH; [done|by apply Hwf]. }
    rewrite serialize_Array, nodes_Array in *.
    assert (Hinner : blank (indent +:+ JSON.gap) = true) by by apply blank_app.
    set (inner := indent +:+ JSON.gap) in *. clearbody inner.
    cbn [JSON.parseValue]. flatten. cbn [JSON.skipWhitespace].
    change (JSON.isWhitespace "[") with false. cbn iota.
    change (Ascii.eqb "[" "n") with false.
    change (Ascii.eqb "[" "t") with false.
    change (Ascii.eqb "[" "f") with false.
    change (Ascii.eqb "[" Js.DQUOTE) with false.
    change (Ascii.eqb "[" "[") with true. cbn iota.
    rewrite (skipWhitespace_blank Js.nl) by done.
    rewrite (skipWhitespace_blank inner) by done.
    apply Forall_cons in Hwf as [Hfirst _].
    destruct (skipWhitespace_serialize inner first
      (moreItems inner others +:+ Js.nl +:+ indent +:+ String "]" rest)
      Hfirst) as (c & tail & _ & Hc & ->).
    destruct (opensValue_spec c Hc) as (_ & -> & _).
    rewrite (parseElements_blank fuel Js.nl) by done.
    rewrite (parseElements_items _ indent rest others first _ fuel Hall);
      [done..|lia].
  - destruct members as [|[key first] others]; [reflexivity|].
    apply wellFormed_Object in Hwf as [Hkeys Hwf].
    assert (Hall : Forall (λ member, wellFormed member.2 ∧ readsBack member.2)
                          ((key, first) :: others)).
    { apply Forall_forall. intros item Hin. rewrite Forall_forall in Hwf, IH.
      split; [by apply Hwf|]. apply IH; [done|by apply Hwf]. }
    rewrite serialize_Object, nodes_Object in *.
    assert (Hinner : blank (indent +:+ JSON.gap) = true) by by apply blank_app.
    set (inner := indent +:+ JSON.gap) in *. clearbody inner.
    cbn [JSON.parseValue]. flatten. cbn [JSON.skipWhitespace].
    change (JSON.isWhitespace "{") with false. cbn iota.
    change (Ascii.eqb "{" "n") with false.
    change (Ascii.eqb "{" "t") with false.
    change (Ascii.eqb "{" "f") with false.
    change (Ascii.eqb "{" Js.DQUOTE) with false.
    change (Ascii.eqb "{" "[") with false.
    change (Ascii.eqb "{" "{") with true. cbn iota.
    rewrite (skipWhitespace_blank Js.nl) by done.
    rewrite (skipWhitespace_blank inner) by done.
    unfold JSON.quote at 1. flatten. cbn [JSON.skipWhitespace].
    change (JSON.isWhitespace Js.DQUOTE) with false. cbn iota.
    change (Ascii.eqb Js.DQUOTE "}") with false. cbn iota.
    rewrite (parseMembers_blank fuel Js.nl) by done.
    change (String ":" (String " " ?s)) with (": " +:+ s).
    rewrite (parseMembers_members _ indent rest others key first _ fuel Hall);
      [|done..|lia].
    cbn [mbind option_bind]. by rewrite foldl_set_distinct.
Qed.

(** ** Enough fuel *)

Lemma nodes_moreItems inner others :
  Forall (λ item, ∀ indent, (nodes item ≤ String.length (JSON.serialize indent item))%nat)
         others →
  (sum_list_with (λ item, S (nodes item)) others
   ≤ String.length (moreItems inner others))%nat.
Proof.
  induction 1 as [|item others Hitem _ IH]; [done|].
  cbn [moreItems sum_list_with]. rewrite !length_append. specialize (Hitem inner).
  simpl. lia.
Qed.

Lemma nodes_moreMembers inner others :
  Forall (λ member, ∀ indent,
            (nodes member.2 ≤ String.length (JSON.serialize indent member.2))%nat)
         others →
  (sum_list_with (λ member, S (nodes member.2)) others
   ≤ String.length (moreMembers inner others))%nat.
Proof.
  induction 1 as [|[key item] others Hitem _ IH]; [done|].
  cbn [moreMembers sum_list_with]. rewrite !length_append. specialize (Hitem inner).
  simpl in *. lia.
Qed.

Lemma nodes_length v :
  wellFormed v →
  ∀ indent, (nodes v ≤ String.length (JSON.serialize indent v))%nat.
Proof.
  induction v as [|b|literal|s|items IH|members IH] using Value_induction;
    intros Hwf indent.
  - simpl. lia.
  - destruct b; simpl; lia.
  - simpl in Hwf. destruct (literal_chars literal Hwf) as (_ & c & tail & -> & _).
    simpl. lia.
  - simpl. lia.
  - destruct items as [|first others]; [simpl; lia|].
    apply wellFormed_Array in Hwf.
    assert (Hall : Forall (λ item, ∀ indent,
              (nodes item ≤ String.length (JSON.serialize indent item))%nat)
              (first :: others)).
    { apply Forall_forall. intros item Hin. rewrite Forall_forall in Hwf, IH.
      apply IH; [done|by apply Hwf]. }
    rewrite serialize_Array, nodes_Array. apply Forall_cons in Hall as [Hfirst Hall].
    rewrite !length_append. cbn [sum_list_with].
    specialize (Hfirst (indent +:+ JSON.gap)).
    pose proof (nodes_moreItems (indent +:+ JSON.gap) others Hall). simpl. lia.
  - destruct members as [|[key first] others]; [simpl; lia|].
    apply wellFormed_Object in Hwf as [_ Hwf].
    assert (Hall : Forall (λ member, ∀ indent,
              (nodes member.2 ≤ String.length (JSON.serialize indent member.2))%nat)
              ((key, first) :: others)).
    { apply Forall_forall. intros item Hin. rewrite Forall_forall in Hwf, IH.
      apply IH; [done|by apply Hwf]. }
    rewrite serialize_Object, nodes_Object. apply Forall_cons in Hall as [Hfirst Hall].
    rewrite !length_append. cbn [sum_list_with fst snd] in *.
    specialize (Hfirst (indent +:+ JSON.gap)).
    pose proof (nodes_moreMembers (indent +:+ JSON.gap) others Hall). simpl. lia.
Qed.

(** [JSON.parse] reads back the value [JSON.stringify] wrote. *)
Lemma parse_stringify v :
  wellFormed v → JSON.parse (JSON.stringify v) = Some v.
Proof.
  intros Hwf. unfold JSON.parse, JSON.stringify.
  pose proof (parseValue_serialize v Hwf "" "" _ eq_refl eq_refl
                (nodes_length v Hwf "")) as Hread.
  rewrite append_empty_r in Hread. by rewrite Hread.
Qed.

(** ** The literals of the integers *)

Lemma pretty_N_char_digit d :
  (d < 10)%N →
  JSON.isDigit (pretty_N_char d) = true ∧
  N.of_nat (nat_of_ascii (pretty_N_char d) - 48) = d.
Proof.
  intros Hd.
  assert (d = 0 ∨ d = 1 ∨ d = 2 ∨ d = 3 ∨ d = 4 ∨ d = 5 ∨ d = 6 ∨ d = 7 ∨
          d = 8 ∨ d = 9)%N as Hcases by lia.
  destruct Hcases as [->|[->|[->|[->|[->|[->|[->|[->|[->| ->]]]]]]]]]; done.
Qed.

Lemma readDigits_pretty_N_go x : ∀ s,
  JsonReporter.readDigits 0 (pretty_N_go x s) = JsonReporter.readDigits x s.
Proof.
  induction (N.lt_wf_0 x) as [x _ IH]; intros s.
  assert (x = 0 ∨ 0 < x)%N as [->|Hx] by lia; [by rewrite pretty_N_go_0|].
  rewrite pretty_N_go_step by done. rewrite IH by by apply N.div_lt.
  cbn [JsonReporter.readDigits].
  destruct (pretty_N_char_digit (x `mod` 10)) as [-> ->];
    [by apply N.mod_lt|].
  f_equal. rewrite N.mul_comm. symmetry. by apply N.div_mod.
Qed.

Lemma pretty_N_go_digits x : ∀ s,
  (0 < x)%N → every JSON.isDigit s = true →
  ∃ d ds, pretty_N_go x s = String d ds ∧ JSON.isDigit d = true ∧
          Ascii.eqb d "0" = false ∧ every JSON.isDigit ds = true.
Proof.
  induction (N.lt_wf_0 x) as [x _ IH]; intros s Hx Hs.
  rewrite pretty_N_go_step by done.
  destruct (pretty_N_char_digit (x `mod` 10)) as [Hdigit Hvalue];
    [by apply N.mod_lt|].
  destruct (N.eq_0_gt_0_cases (x `div` 10)) as [Hdiv|Hdiv].
  - rewrite Hdiv, pretty_N_go_0. eexists _, _. split_and!; [done..| |done].
    apply Ascii.eqb_neq. intros Hzero. rewrite Hzero in Hvalue. simpl in Hvalue.
    apply N.div_small_iff in Hdiv; [|done]. rewrite N.mod_small in Hvalue by done.
    lia.
  - apply IH; [by apply N.div_lt|done|]. cbn [every]. by rewrite Hdigit.
Qed.

Lemma skipDigits_digits s : every JSON.isDigit s = true → JSON.skipDigits s = "".
Proof.
  induction s as [|c s IH]; [done|]. cbn [every JSON.skipDigits].
  intros [-> Hs]%andb_true_iff. by apply IH.
Qed.

Lemma pretty_N_shape (n : N) :
  ∃ d ds, pretty n = String d ds ∧ JSON.isDigit d = true ∧
          JSON.isInteger (pretty n) = true.
Proof.
  unfold pretty, pretty_N. case_decide as Hn; [by eexists _, _|].
  destruct (pretty_N_go_digits n "") as (d & ds & -> & Hd & Hzero & Hds);
    [lia|done|].
  exists d, ds. split_and!; [done..|]. cbn [JSON.isInteger].
  by rewrite Hzero, Hd, skipDigits_digits.
Qed.

Lemma readNatural_pretty (n : N) : JsonReporter.readNatural (pretty n) = Some n.
Proof.
  destruct (pretty_N_shape n) as (d & ds & Heq & _). 
  unfold JsonReporter.readNatural. rewrite Heq, <- Heq.
  unfold pretty, pretty_N. case_decide as Hn; [by subst|].
  by rewrite readDigits_pretty_N_go.
Qed.

Lemma dash_digit d : JSON.isDigit d = true → Ascii.eqb d "-" = false.
Proof. by destruct d as [[] [] [] [] [] [] [] []]. Qed.

Lemma isNumberLiteral_pretty_Z (z : Z) : JSON.isNumberLiteral (pretty z) = true.
Proof.
  destruct z as [|p|p]; [done|..]; unfold pretty, pretty_Z, pretty, pretty_positive.
  - destruct (pretty_N_shape (N.pos p)) as (d & ds & Heq & Hd & Hint).
    rewrite Heq in *. cbn [JSON.isNumberLiteral]. by rewrite dash_digit.
  - destruct (pretty_N_shape (N.pos p)) as (d & ds & Heq & Hd & Hint).
    by cbn.
Qed.

Lemma isNumberLiteral_pretty_nat (n : nat) : JSON.isNumberLiteral (pretty n) = true.
Proof.
  unfold pretty, pretty_nat.
  destruct (pretty_N_shape (N.of_nat n)) as (d & ds & Heq & Hd & Hint).
  rewrite Heq in *. cbn [JSON.isNumberLiteral]. by rewrite dash_digit.
Qed.

Lemma readInteger_pretty (z : Z) : JsonReporter.readInteger (pretty z) = Some z.
Proof.
  destruct z as [|p|p]; [done|..]; unfold pretty, pretty_Z, pretty, pretty_positive.
  - destruct (pretty_N_shape (N.pos p)) as (d & ds & Heq & Hd & _).
    unfold JsonReporter.readInteger. rewrite Heq, dash_digit, <- Heq by done.
    by rewrite readNatural_pretty.
  - cbn. by rewrite readNatural_pretty.
Qed.

Lemma natural_pretty (n : nat) :
  JsonReporter.natural (JSON.Number (pretty n)) = Some n.
Proof.
  unfold JsonReporter.natural, pretty, pretty_nat.
  rewrite readNatural_pretty. simpl. by rewrite Nat2N.id.
Qed.

(** ** Reading the members of an object literal *)

Lemma get_cons_eq {V} k (v : V) m : Js.get ((k, v) :: m) k = Some v.
Proof. simpl. by rewrite String.eqb_refl. Qed.

Lemma get_cons_ne {V} k k' (v : V) m :
  String.eqb k k' = false → Js.get ((k, v) :: m) k' = Js.get m k'.
Proof. simpl. by intros ->. Qed.

Lemma get_optionally_ne {A} k k' (w : A → JSON.Value) o m :
  String.eqb k k' = false →
  Js.get (JsonReporter.optionally k w o m) k' = Js.get m k'.
Proof. destruct o; [apply get_cons_ne|done]. Qed.

Lemma get_optionally_eq {A} k (w : A → JSON.Value) o m :
  Js.get m k = None → Js.get (JsonReporter.optionally k w o m) k = w <$> o.
Proof. destruct o; [intros _; apply get_cons_eq|done]. Qed.

Ltac lookup :=
  repeat first
    [ rewrite get_cons_eq
    | rewrite get_cons_ne by reflexivity
    | rewrite get_optionally_ne by reflexivity
    | rewrite get_optionally_eq by lookup ];
  reflexivity.

Lemma required_found {A} key (read : JSON.Value → option A) members x a :
  Js.get members key = Some x → read x = Some a →
  JsonReporter.required key read (JSON.Object members) = Some a.
Proof.
  intros Hget Hread. unfold JsonReporter.required, JsonReporter.field.
  rewrite Hget. exact Hread.
Qed.

Lemma optional_found {A} key (read : JSON.Value → option A) members
    (w : A → JSON.Value) o :
  Js.get members key = w <$> o → (∀ a, o = Some a → read (w a) = Some a) →
  JsonReporter.optional key read (JSON.Object members) = Some o.
Proof.
  intros Hget Hread. unfold JsonReporter.optional, JsonReporter.field.
  rewrite Hget. destruct o as [a|]; [|done]. simpl. by rewrite Hread.
Qed.

Lemma items_fmap {A} (read : JSON.Value → option A) (w : A → JSON.Value) l :
  Forall (λ a, read (w a) = Some a) l →
  JsonReporter.items read (JSON.Array (w <$> l)) = Some l.
Proof.
  unfold JsonReporter.items. induction 1 as [|a l Ha _ IH]; [done|].
  cbn [fmap list_fmap mapM] in *. by rewrite Ha, IH.
Qed.

Lemma named_effort e :
  JsonReporter.named effortName [low; medium; high] (JSON.Str (effortName e))
  = Some e.
Proof. by destruct e. Qed.

Lemma named_source s :
  JsonReporter.named sourceName allSources (JSON.Str (sourceName s)) = Some s.
Proof. by destruct s. Qed.

Lemma named_severity s :
  JsonReporter.named severityName allSeverities (JSON.Str (severityName s))
  = Some s.
Proof. by destruct s. Qed.

Lemma named_category c :
  JsonReporter.named categoryName allCategories (JSON.Str (categoryName c))
  = Some c.
Proof. by destruct c. Qed.

Lemma integer_pretty (z : Z) : JsonReporter.integer (JSON.Number (pretty z)) = Some z.
Proof. apply readInteger_pretty. Qed.

(** ** Counters *)

Section Counts.
Context `{Countable K}.
Variable name : K → string.
Variable all : list K.
Hypothesis name_inj : ∀ j k, j ∈ all → k ∈ all → name j = name k → j = k.
Hypothesis all_complete : ∀ k, k ∈ all.

Lemma get_counts (m : gmap K nat) l k :
  k ∈ all → l ⊆ all →
  Js.get (omap (λ k, (λ n : nat, (name k, JSON.Number (pretty n))) <$> m !! k) l)
         (name k)
  = if decide (k ∈ l) then (λ n : nat, JSON.Number (pretty n)) <$> m !! k
    else None.
Proof.
  intros Hk. induction l as [|j l IH]; intros Hl; [done|].
  assert (Hj : j ∈ all) by (apply Hl; left).
  assert (Hl' : l ⊆ all) by (intros x Hx; apply Hl; by right).
  cbn [omap list_omap]. specialize (IH Hl').
  destruct (decide (j = k)) as [->|Hne].
  - rewrite decide_True by left. destruct (m !! k) as [n|] eqn:Hm; simpl.
    + by rewrite String.eqb_refl.
    + fold (omap (λ k, (λ n : nat, (name k, JSON.Number (pretty n))) <$> m !! k) l).
      rewrite IH. by case_decide.
  - assert (Hnames : String.eqb (name j) (name k) = false).
    { apply String.eqb_neq. intros Heq. by apply Hne, name_inj. }
    fold (omap (λ k, (λ n : nat, (name k, JSON.Number (pretty n))) <$> m !! k) l).
    assert (Hin : k ∈ j :: l ↔ k ∈ l).
    { rewrite elem_of_cons. split; [intros [?|?]; [congruence|done]|by right]. }
    destruct (m !! j) as [n|]; simpl; rewrite ?Hnames, IH;
      (destruct (decide (k ∈ l));
         [by rewrite decide_True by by apply Hin
         |by rewrite decide_False by by rewrite Hin]).
Qed.

Lemma asCounts_ofCounts (m : gmap K nat) :
  JsonReporter.asCounts name all (JsonReporter.ofCounts name all m) = Some m.
Proof.
  unfold JsonReporter.asCounts, JsonReporter.ofCounts.
  set (members := omap _ all).
  match goal with
  | |- foldr ?step ?start all = _ =>
      assert (Hfold : ∀ l, l ⊆ all →
        ∃ counts : gmap K nat,
          foldr step start l = Some counts ∧
          ∀ k, counts !! k = if decide (k ∈ l) then m !! k else None)
  end.
  { induction l as [|j l IH]; intros Hl.
    - exists (∅ : gmap K nat). split; [done|]. intros k. rewrite lookup_empty.
      by rewrite decide_False by apply not_elem_of_nil.
    - destruct IH as (counts & Hcounts & Hlookup);
        [intros x Hx; apply Hl; by right|].
      cbn [foldr]. rewrite Hcounts. cbn [mbind option_bind JsonReporter.field].
      unfold members.
      rewrite get_counts by (done || apply all_complete).
      rewrite decide_True by apply all_complete.
      destruct (m !! j) as [n|] eqn:Hm; cbn [fmap option_fmap option_map].
      + rewrite natural_pretty. cbn [mbind option_bind]. eexists. split; [done|].
        intros k. destruct (decide (k = j)) as [->|Hne].
        * rewrite lookup_insert_eq, decide_True by left. done.
        * rewrite lookup_insert_ne by done. rewrite Hlookup.
          destruct (decide (k ∈ l));
            [by rewrite decide_True by by right|].
          rewrite decide_False; [done|]. rewrite elem_of_cons.
          intros [?|?]; [congruence|done].
      + exists counts. split; [done|]. intros k. rewrite Hlookup.
        destruct (decide (k = j)) as [->|Hne].
        * rewrite Hm. by repeat case_decide.
        * destruct (decide (k ∈ l));
            [by rewrite decide_True by by right|].
          rewrite decide_False; [done|]. rewrite elem_of_cons.
          intros [?|?]; [congruence|done]. }
  destruct (Hfold all) as (counts & -> & Hlookup); [done|].
  f_equal. apply map_eq. intros k. rewrite Hlookup.
  by rewrite decide_True by apply all_complete.
Qed.

End Counts.

(** ** The object literals are well formed *)

Lemma fresh_key {V} (m : Js.Map V) k : Js.get m k = None → k ∉ m.*1.
Proof.
  induction m as [|[k' v] m IH]; [intros _; apply not_elem_of_nil|].
  simpl. destruct (String.eqb_spec k' k) as [->|Hne]; [done|].
  intros Hget. rewrite not_elem_of_cons. split; [done|by apply IH].
Qed.

Lemma NoDup_members_cons {V} k (v : V) (others : Js.Map V) :
  Js.get others k = None → NoDup others.*1 → NoDup ((k, v) :: others).*1.
Proof. intros Hk Hothers. apply NoDup_cons. split; [by apply fresh_key|done]. Qed.

Lemma NoDup_members_optionally {A} k (w : A → JSON.Value) o others :
  Js.get others k = None → NoDup others.*1 →
  NoDup (JsonReporter.optionally k w o others).*1.
Proof. destruct o; [apply NoDup_members_cons|done]. Qed.

Lemma Forall_optionally {A} (P : string * JSON.Value → Prop) k
    (w : A → JSON.Value) o others :
  (∀ a, o = Some a → P (k, w a)) → Forall P others →
  Forall P (JsonReporter.optionally k w o others).
Proof. destruct o; [|done]. intros Ha Hothers. apply Forall_cons. auto. Qed.

Ltac distinct :=
  repeat first
    [ apply NoDup_members_cons; [lookup|]
    | apply NoDup_members_optionally; [lookup|] ];
  apply NoDup_nil_2.

Ltac membersOk :=
  repeat first
    [ apply Forall_cons; split
    | apply Forall_optionally; [intros ? ?|] ];
  try apply Forall_nil_2.

Lemma wellFormed_strings (l : list string) :
  wellFormed (JSON.Array (JSON.Str <$> l)).
Proof. apply wellFormed_Array, Forall_fmap, Forall_forall. done. Qed.

Lemma wellFormed_ofCounts `{Countable K} (name : K → string) all (m : gmap K nat) :
  NoDup (name <$> all) → wellFormed (JsonReporter.ofCounts name all m).
Proof.
  intros Hnames. apply wellFormed_Object. split.
  - eapply sublist_NoDup; [exact Hnames|]. clear Hnames.
    induction all as [|k all IH]; [done|]. cbn [omap list_omap].
    destruct (m !! k); simpl; [by apply sublist_skip|by apply sublist_cons].
  - clear Hnames. induction all as [|k all IH]; [done|]. cbn [omap list_omap].
    destruct (m !! k); simpl; [|done].
    apply Forall_cons. split; [apply isNumberLiteral_pretty_nat|done].
Qed.

(** ** A result, written and read *)

Section RoundTrip.
Variable numberToString : Q → string.
Variable stringToNumber : string → option Q.

Lemma number_restored q :
  restored numberToString stringToNumber q →
  JsonReporter.number stringToNumber (JSON.Number (numberToString q)) = Some q.
Proof. by intros [_ ?]. Qed.

Ltac reading :=
  first
    [ reflexivity
    | apply named_effort | apply named_source | apply named_severity
    | apply named_category
    | apply integer_pretty | apply natural_pretty
    | apply number_restored; eauto
    | apply items_fmap; eauto
    | apply asCounts_ofCounts;
        [by intros [] [] _ _; (discriminate || reflexivity) | by intros []; compute_done]
    | eauto ].

Ltac member :=
  first
    [ erewrite required_found; [cbn [mbind option_bind]|lookup|reading]
    | erewrite optional_found;
        [cbn [mbind option_bind]|lookup|intros ? ?; reading] ].

Lemma asRemediation_ofRemediation r :
  JsonReporter.asRemediation (JsonReporter.ofRemediation r) = Some r.
Proof.
  destruct r as [s c rs e].
  unfold JsonReporter.asRemediation, JsonReporter.ofRemediation.
  cbn [summary code references effort].
  assert (Forall (λ s, JsonReporter.text (JSON.Str s) = Some s) rs)
    by by apply Forall_forall.
  do 4 member. reflexivity.
Qed.

Lemma asFinding_ofFinding f :
  Forall (restored numberToString stringToNumber) (JsonReporter.rationalsOf f) →
  JsonReporter.asFinding stringToNumber (JsonReporter.ofFinding numberToString f)
  = Some f.
Proof.
  unfold JsonReporter.rationalsOf. intros [Hconfidence Hprobability]%Forall_cons.
  pose proof asRemediation_ofRemediation as Hremediation.
  destruct f as [i r so se ca cw ow fi li co el ec ti de sn re cf fp su da fs].
  unfold JsonReporter.asFinding, JsonReporter.ofFinding.
  cbn [id ruleId source severity category cwe owasp file line column endLine
       endColumn title description snippet remediation confidence
       falsePositiveProbability suppressedBy detectedAt firstSeenAt] in *.
  assert (Hfp : ∀ q, fp = Some q → restored numberToString stringToNumber q).
  { intros q ->. by apply Forall_cons in Hprobability as [? _]. }
  do 21 member. reflexivity.
Qed.

Lemma asToolRun_ofToolRun t :
  restored numberToString stringToNumber (ToolRun.duration t) →
  JsonReporter.asToolRun stringToNumber (JsonReporter.ofToolRun numberToString t)
  = Some t.
Proof.
  intros Hduration. destruct t as [n v d x e].
  unfold JsonReporter.asToolRun, JsonReporter.ofToolRun.
  cbn [ToolRun.name ToolRun.version ToolRun.duration ToolRun.exitCode
       ToolRun.error] in *.
  do 5 member. reflexivity.
Qed.

Lemma asStats_ofStats s : JsonReporter.asStats (JsonReporter.ofStats s) = Some s.
Proof.
  destruct s as [t se ca so su].
  unfold JsonReporter.asStats, JsonReporter.ofStats.
  cbn [Stats.total Stats.bySeverity Stats.byCategory Stats.bySource
       Stats.suppressedCount].
  do 5 member. reflexivity.
Qed.

Lemma asPerformance_ofPerformance p :
  restored numberToString stringToNumber (ScanResult.cacheHitRate p) →
  JsonReporter.asPerformance stringToNumber
    (JsonReporter.ofPerformance numberToString p) = Some p.
Proof.
  intros Hrate. destruct p as [w c i].
  unfold JsonReporter.asPerformance, JsonReporter.ofPerformance.
  cbn [ScanResult.parallelWorkers ScanResult.cacheHitRate
       ScanResult.incrementalScan] in *.
  do 3 member. reflexivity.
Qed.

Lemma restored_findings findings :
  Forall (restored numberToString stringToNumber)
         (findings ≫= JsonReporter.rationalsOf) →
  Forall (λ f, JsonReporter.asFinding stringToNumber
                 (JsonReporter.ofFinding numberToString f) = Some f) findings.
Proof.
  intros Hall. apply Forall_forall. intros f Hf. apply asFinding_ofFinding.
  rewrite Forall_forall in *. intros q Hq. apply Hall.
  apply list_elem_of_bind. by exists f.
Qed.

Lemma asScanResult_ofScanResult r :
  Forall (restored numberToString stringToNumber) (JsonReporter.rationals r) →
  JsonReporter.asScanResult stringToNumber
    (JsonReporter.ofScanResult numberToString r) = Some r.
Proof.
  unfold JsonReporter.rationals.
  intros [Hduration [Hrate [Htools [Hfindings Hsuppressed]%Forall_app]%Forall_app
    ]%Forall_cons]%Forall_cons.
  apply restored_findings in Hfindings, Hsuppressed.
  rewrite Forall_fmap in Htools.
  assert (Hruns : Forall (λ t, JsonReporter.asToolRun stringToNumber
                   (JsonReporter.ofToolRun numberToString t) = Some t)
                   (ScanResult.toolsRun r)).
  { eapply Forall_impl; [exact Htools|]. intros t Ht. by apply asToolRun_ofToolRun. }
  pose proof asStats_ofStats as Hstats.
  pose proof (asPerformance_ofPerformance _ Hrate) as Hperformance.
  destruct r as [i v sa ca d ta fs lo tr fi su st pe].
  unfold JsonReporter.asScanResult, JsonReporter.ofScanResult.
  cbn [ScanResult.scanId ScanResult.version ScanResult.startedAt
       ScanResult.completedAt ScanResult.duration ScanResult.target
       ScanResult.filesScanned ScanResult.linesOfCode ScanResult.toolsRun
       ScanResult.findings ScanResult.suppressed ScanResult.stats
       ScanResult.performance] in *.
  do 13 member. reflexivity.
Qed.

Lemma wellFormed_ofRemediation r : wellFormed (JsonReporter.ofRemediation r).
Proof.
  apply wellFormed_Object. split; [distinct|]. membersOk; try done.
  apply wellFormed_strings.
Qed.

Lemma wellFormed_ofFinding f :
  Forall (restored numberToString stringToNumber) (JsonReporter.rationalsOf f) →
  wellFormed (JsonReporter.ofFinding numberToString f).
Proof.
  unfold JsonReporter.rationalsOf. intros [[Hconfidence _] Hprobability]%Forall_cons.
  apply wellFormed_Object. split; [distinct|].
  membersOk; try done; cbn [snd]; subst;
    try apply isNumberLiteral_pretty_Z.
  - apply wellFormed_ofRemediation.
  - match goal with Heq : _ = Some _ |- _ => rewrite Heq in Hprobability end.
    by apply Forall_cons in Hprobability as [[? _] _].
Qed.

Lemma wellFormed_ofToolRun t :
  restored numberToString stringToNumber (ToolRun.duration t) →
  wellFormed (JsonReporter.ofToolRun numberToString t).
Proof.
  intros [Hduration _]. apply wellFormed_Object. split; [distinct|].
  membersOk; try done. apply isNumberLiteral_pretty_Z.
Qed.

Lemma wellFormed_ofStats s : wellFormed (JsonReporter.ofStats s).
Proof.
  apply wellFormed_Object. split; [distinct|].
  membersOk; cbn [snd]; try apply isNumberLiteral_pretty_nat;
    apply wellFormed_ofCounts; compute_done.
Qed.

Lemma wellFormed_ofPerformance p :
  restored numberToString stringToNumber (ScanResult.cacheHitRate p) →
  wellFormed (JsonReporter.ofPerformance numberToString p).
Proof.
  intros [Hrate _]. apply wellFormed_Object. split; [distinct|].
  membersOk; try done. apply isNumberLiteral_pretty_nat.
Qed.

Lemma wellFormed_findings findings :
  Forall (restored numberToString stringToNumber)
         (findings ≫= JsonReporter.rationalsOf) →
  wellFormed (JSON.Array (JsonReporter.ofFinding numberToString <$> findings)).
Proof.
  intros Hall. apply wellFormed_Array, Forall_fmap, Forall_forall.
  intros f Hf. apply wellFormed_ofFinding.
  rewrite Forall_forall in *. intros q Hq. apply Hall.
  apply list_elem_of_bind. by exists f.
Qed.

Lemma wellFormed_ofScanResult r :
  Forall (restored numberToString stringToNumber) (JsonReporter.rationals r) →
  wellFormed (JsonReporter.ofScanResult numberToString r).
Proof.
  unfold JsonReporter.rationals.
  intros [[Hduration _] [Hrate [Htools [Hfindings Hsuppressed]%Forall_app]%Forall_app
    ]%Forall_cons]%Forall_cons.
  rewrite Forall_fmap in Htools.
  apply wellFormed_Object. split; [distinct|].
  membersOk; cbn [snd]; try done; try apply isNumberLiteral_pretty_nat.
  - apply wellFormed_Array, Forall_fmap.
    eapply Forall_impl; [exact Htools|]. intros t Ht. by apply wellFormed_ofToolRun.
  - by apply wellFormed_findings.
  - by apply wellFormed_findings.
  - apply wellFormed_ofStats.
  - by apply wellFormed_ofPerformance.
Qed.

End RoundTrip.


